(** * Fastest-lap: registry API and optimal-laptime transcription

    A shallow embedding of two layers of the repository:

    - [src/main/c/fastestlapc.cpp]: the C API with its five process-wide
      tables of named artifacts (module [Api]);
    - [src/core/applications/optimal_laptime.hpp]: the trapezoidal
      transcription of the minimum-time problem, the bounds handed to the
      interior-point solver and the post-processing of its solution
      (module [Laptime]).

    Scalars ([scalar] = [double] in the sources) are modelled by exact
    rationals [Q]: the properties below are about which terms enter which
    formula and where they are stored, not about rounding. *)

From Stdlib Require Import QArith Qround Qabs Qfield List Lia.
From stdpp Require Import gmap strings list fin_maps pretty.

Open Scope string_scope.

(** ** Exceptions and outcomes *)

(** The exception classes the sources throw or catch. [std::out_of_range]
    is what [std::unordered_map::at] raises on a missing key;
    [lion_exception] belongs to the XML library the API calls. *)
Inductive exception : Type :=
| fastest_lap_exception (what : string)
| lion_exception (what : string)
| runtime_error (what : string)
| out_of_range (what : string).

(** Result of running a piece of the program: a value, a thrown exception,
    or undefined behaviour (reading an element of an empty [std::vector]). *)
Inductive outcome (A : Type) : Type :=
| Ok (a : A)
| Throw (e : exception)
| Undefined.

Arguments Ok {A} a.
Arguments Throw {A} e.
Arguments Undefined {A}.

Definition bind {A B : Type} (k : A -> outcome B) (m : outcome A) : outcome B :=
  match m with
  | Ok a => k a
  | Throw e => Throw e
  | Undefined => Undefined
  end.

#[global] Instance outcome_bind : MBind outcome := @bind.
#[global] Instance outcome_ret : MRet outcome := @Ok.

#[global] Instance outcome_fmap : FMap outcome :=
  fun A B f m =>
    match m with
    | Ok a => Ok (f a)
    | Throw e => Throw e
    | Undefined => Undefined
    end.

Definition is_ok {A : Type} (m : outcome A) : bool :=
  match m with Ok _ => true | _ => false end.

(** The double-quote and the line-feed characters, used inside diagnostic
    messages. *)
Definition dq : string := String (Ascii.ascii_of_nat 34) EmptyString.
Definition newline : string := String (Ascii.ascii_of_nat 10) EmptyString.

Module Api.

(** ** XML option documents

    The option strings are parsed by an XML library that is not part of
    the repository. A parsed document is modelled by its path-indexed view:
    the element reached by [get_element(path)], if any. A missing element,
    a missing attribute or a value of the wrong type is a thrown
    [lion_exception]. *)

Inductive Xml_value : Type :=
| Xml_bool (b : bool)
| Xml_number (x : Q)
| Xml_numbers (xs : list Q)
| Xml_text (s : string).

Record Xml_element : Type := {
  get_name : string;
  element_value : Xml_value;
  get_attributes : list (string * string);
  get_children_names : list string
}.

Abbreviation Xml_document := (gmap string Xml_element).

Definition has_element (doc : Xml_document) (path : string) : bool :=
  match doc !! path with Some _ => true | None => false end.

Definition get_element (doc : Xml_document) (path : string) : outcome Xml_element :=
  match doc !! path with
  | Some e => Ok e
  | None => Throw (lion_exception ("element not found: " ++ path))
  end.

Definition get_value_bool (e : Xml_element) : outcome bool :=
  match element_value e with
  | Xml_bool b => Ok b
  | _ => Throw (lion_exception "value is not a bool")
  end.

Definition get_value_scalar (e : Xml_element) : outcome Q :=
  match element_value e with
  | Xml_number x => Ok x
  | _ => Throw (lion_exception "value is not a scalar")
  end.

Definition get_value_vector (e : Xml_element) : outcome (list Q) :=
  match element_value e with
  | Xml_numbers xs => Ok xs
  | _ => Throw (lion_exception "value is not a vector")
  end.

Definition get_value_text (e : Xml_element) : outcome string :=
  match element_value e with
  | Xml_text s => Ok s
  | _ => Throw (lion_exception "value is not text")
  end.

(** [get_value(scalar())] stored into an [int]: the fraction is dropped,
    and a value outside the range of [int] is undefined. *)
Definition get_value_scalar_as_int (e : Xml_element) : outcome Z :=
  x ← get_value_scalar e;
  let n := (Qnum x ÷ Zpos (Qden x))%Z in
  if decide (- 2 ^ 31 <= n < 2 ^ 31)%Z then Ok n else Undefined.

(** [get_value(int())] stored into a [size_t]. *)
Definition get_value_size_t (e : Xml_element) : outcome Z :=
  match element_value e with
  | Xml_number x => Ok (Qfloor x mod 2 ^ 64)%Z
  | _ => Throw (lion_exception "value is not an int")
  end.

Fixpoint assoc (key : string) (l : list (string * string)) : option string :=
  match l with
  | [] => None
  | (k, v) :: l' => if String.eqb k key then Some v else assoc key l'
  end.

Definition get_attribute (e : Xml_element) (name : string) : outcome string :=
  match assoc name (get_attributes e) with
  | Some v => Ok v
  | None => Throw (lion_exception ("attribute not found: " ++ name))
  end.

(** [if ( doc.has_element(path) ) field = doc.get_element(path).get_value(T())] *)
Definition read_if_present {A : Type} (doc : Xml_document) (path : string)
    (get_value : Xml_element -> outcome A) (current : A) : outcome A :=
  if has_element doc path then e ← get_element doc path; get_value e
  else Ok current.

(** [std::find] followed by [std::distance]. *)
Fixpoint find_index (name : string) (names : list string) : option nat :=
  match names with
  | [] => None
  | n :: names' =>
      if String.eqb n name then Some 0%nat
      else match find_index name names' with
           | Some i => Some (S i)
           | None => None
           end
  end.

Definition mem (name : string) (names : list string) : bool :=
  match find_index name names with Some _ => true | None => false end.

(** The two vehicle models of the API. *)
Inductive vehicle_kind : Type := lot2016kart_all | limebeer2014f1_all.

(** *** [Optimal_laptime_configuration] *)

Record Optimal_laptime_configuration : Type := {
  warm_start : bool;
  save_warm_start : bool;
  write_xml : bool;
  xml_file_name : string;
  print_level : Z;
  steady_state_speed : Q;
  is_direct : bool;
  is_closed : bool;
  set_initial_condition : bool;
  compute_sensitivity : bool;
  sigma : Q;
  output_variables_prefix : string;
  variables_to_save : list string;
  integral_constraints : list (string * Q * Q);
  control_type : list string;
  dissipations : list Q;
  hypermeshes : list (list Q);
  q_start : list (option Q);
  qa_start : list (option Q);
  u_start : list (option Q)
}.

Definition get_default_is_direct (kind : vehicle_kind) : bool :=
  match kind with limebeer2014f1_all => true | lot2016kart_all => false end.

Definition get_default_control_types (kind : vehicle_kind) : list string :=
  match kind with
  | limebeer2014f1_all => ["full-mesh"; "full-mesh"; "dont optimize"]
  | lot2016kart_all => ["full-mesh"; "full-mesh"]
  end.

Definition get_default_dissipations (kind : vehicle_kind) : list Q :=
  match kind with
  | limebeer2014f1_all => [5; 8 # 10000; 0]%Q
  | lot2016kart_all => [1 # 100; 200 * 200 * (1 # 10000000000)]%Q
  end.

(** The numbers of states and of algebraic states of the two vehicle
    models, [vehicle_t::vehicle_ad_curvilinear::NSTATE] and [NALGEBRAIC],
    are declared with the models, outside the API file. The number of
    controls is the size of the two arrays of defaults above. *)
Class Model_sizes : Type := {
  NSTATE : vehicle_kind -> nat;
  NALGEBRAIC : vehicle_kind -> nat
}.

Definition NCONTROL (kind : vehicle_kind) : nat :=
  length (get_default_control_types kind).

(** A [std::array<scalar,N>] member declared without an initialiser: its
    [N] entries are indeterminate ([None]) until they are written. *)
Definition indeterminate (n : nat) : list (option Q) := repeat None n.

(** [std::copy(v.cbegin(), v.cend(), a.begin())] into a [std::array]: the
    first [v.size()] entries of the array are overwritten and the others
    are left as they were; there is no check of the sizes, and copying more
    entries than the array has writes past its end. *)
Definition copy_into_array (v : list Q) (a : list (option Q))
  : outcome (list (option Q)) :=
  if decide (length v <= length a)%nat
  then Ok ((Some <$> v) ++ drop (length v) a)%list
  else Undefined.

(** The member initialisers of the configuration; the three arrays of the
    initial condition have none. *)
Definition default_configuration `{Model_sizes} (kind : vehicle_kind)
  : Optimal_laptime_configuration :=
  {| warm_start := false;
     save_warm_start := false;
     write_xml := false;
     xml_file_name := "optimal_laptime.xml";
     print_level := 0;
     steady_state_speed := 50;
     is_direct := get_default_is_direct kind;
     is_closed := true;
     set_initial_condition := false;
     compute_sensitivity := false;
     sigma := 1 # 2;
     output_variables_prefix := "run/";
     variables_to_save := [];
     integral_constraints := [];
     control_type := get_default_control_types kind;
     dissipations := get_default_dissipations kind;
     hypermeshes := map (fun _ => []) (get_default_control_types kind);
     q_start := indeterminate (NSTATE kind);
     qa_start := indeterminate (NALGEBRAIC kind);
     u_start := indeterminate (NCONTROL kind) |}.

(** One child of [options/control_variables]. *)
Definition parse_control_variable (doc : Xml_document) (u_names : list string)
    (acc : list string * list Q * list (list Q)) (name : string)
  : outcome (list string * list Q * list (list Q)) :=
  let '(types, diss, hyper) := acc in
  match find_index name u_names with
  | None =>
      Throw (fastest_lap_exception
        ("[ERROR] Control variable " ++ dq ++ name ++ dq ++ " is not recognized"))
  | Some i_control =>
      let here := "options/control_variables/" ++ name in
      variable ← get_element doc here;
      type ← get_attribute variable "type";
      let types := <[i_control := type]> types in
      if String.eqb type "dont optimize" then Ok (types, diss, hyper)
      else if String.eqb type "constant" then
        Throw (fastest_lap_exception "[ERROR] To be implemented")
      else if String.eqb type "hypermesh" then
        h ← get_element doc (here ++ "/hypermesh");
        mesh ← get_value_vector h;
        Ok (types, diss, <[i_control := mesh]> hyper)
      else if String.eqb type "full-mesh" then
        if has_element doc (here ++ "/dissipation") then
          d ← get_element doc (here ++ "/dissipation");
          x ← get_value_scalar d;
          Ok (types, <[i_control := x]> diss, hyper)
        else Ok (types, diss, hyper)
      else
        Throw (fastest_lap_exception
          ("[ERROR] Optimal control type " ++ dq ++ type ++ dq ++ " not recognized"))
  end.

Fixpoint foldM {A B : Type} (f : B -> A -> outcome B) (b : B) (l : list A)
  : outcome B :=
  match l with
  | [] => Ok b
  | a :: l' => b' ← f b a; foldM f b' l'
  end.

(** One child of [options/integral_constraints]. *)
Definition parse_integral_constraint (doc : Xml_document)
    (acc : list (string * Q * Q)) (name : string)
  : outcome (list (string * Q * Q)) :=
  let here := "options/integral_constraints/" ++ name in
  lb ← get_element doc (here ++ "/lower_bound");
  lower ← get_value_scalar lb;
  ub ← get_element doc (here ++ "/upper_bound");
  upper ← get_value_scalar ub;
  Ok (acc ++ [(name, lower, upper)])%list.

(** ** The five tables *)

Section Tables.

(** [lot2016kart_all], [limebeer2014f1_all] and [Track_by_polynomial] are
    defined outside the API file; the API only stores and passes them on. *)
Context {Kart F1 Track : Type} {sizes : Model_sizes}.

Record tables : Type := Tables {
  table_kart_6dof : gmap string Kart;
  table_f1_3dof   : gmap string F1;
  table_track     : gmap string Track;
  table_scalar    : gmap string Q;
  table_vector    : gmap string (list Q)
}.

(** [std::unordered_map::count]: 0 or 1. *)
Definition count {V : Type} (m : gmap string V) (name : string) : nat :=
  match m !! name with Some _ => 1 | None => 0 end.

(** [std::unordered_map::insert]: keeps the old entry when the key is taken. *)
Definition umap_insert {V : Type} (name : string) (v : V) (m : gmap string V)
  : gmap string V :=
  match m !! name with Some _ => m | None => <[name := v]> m end.

(** [std::unordered_map::at]. *)
Definition umap_at {V : Type} (m : gmap string V) (name : string) : outcome V :=
  match m !! name with
  | Some v => Ok v
  | None => Throw (out_of_range "unordered_map::at")
  end.

Definition set_kart (t : tables) (m : gmap string Kart) : tables :=
  Tables m (table_f1_3dof t) (table_track t) (table_scalar t) (table_vector t).
Definition set_f1 (t : tables) (m : gmap string F1) : tables :=
  Tables (table_kart_6dof t) m (table_track t) (table_scalar t) (table_vector t).
Definition set_track (t : tables) (m : gmap string Track) : tables :=
  Tables (table_kart_6dof t) (table_f1_3dof t) m (table_scalar t) (table_vector t).
Definition set_scalar (t : tables) (m : gmap string Q) : tables :=
  Tables (table_kart_6dof t) (table_f1_3dof t) (table_track t) m (table_vector t).
Definition set_vector (t : tables) (m : gmap string (list Q)) : tables :=
  Tables (table_kart_6dof t) (table_f1_3dof t) (table_track t) (table_scalar t) m.

(** Number of tables that hold [name]; the sum [delete_variable] computes. *)
Definition n_ocurrences (t : tables) (name : string) : nat :=
  count (table_kart_6dof t) name + count (table_f1_3dof t) name
  + count (table_track t) name + count (table_vector t) name
  + count (table_scalar t) name.

(** A name is fresh when no table holds it. *)
Definition fresh (t : tables) (name : string) : Prop :=
  table_kart_6dof t !! name = None /\ table_f1_3dof t !! name = None /\
  table_track t !! name = None /\ table_scalar t !! name = None /\
  table_vector t !! name = None.

(** The registry invariant: every name lives in at most one table. *)
Definition unique_names (t : tables) : Prop :=
  forall name, (n_ocurrences t name <= 1)%nat.

(** The constructor [Optimal_laptime_configuration(const char* options)].
    [options] is [None] for the empty string. [u_names] are the control
    names of the vehicle model and [vectors] is [table_vector], which the
    constructor reads for the initial condition of open simulations. *)
Definition make_Optimal_laptime_configuration (kind : vehicle_kind)
    (u_names : list string) (vectors : gmap string (list Q))
    (options : option Xml_document) : outcome Optimal_laptime_configuration :=
  let d := default_configuration kind in
  match options with
  | None => Ok d
  | Some doc =>
    warm_start_ ← read_if_present doc "options/warm_start" get_value_bool (warm_start d);
    save_warm_start_ ←
      read_if_present doc "options/save_warm_start" get_value_bool (save_warm_start d);
    write_xml_ ← read_if_present doc "options/write_xml" get_value_bool (write_xml d);
    xml_file_name_ ←
      (if write_xml_ then e ← get_element doc "options/xml_file_name"; get_value_text e
       else Ok (xml_file_name d));
    print_level_ ←
      read_if_present doc "options/print_level" get_value_size_t (print_level d);
    '(prefix_, variables_) ←
      (if has_element doc "options/output_variables" then
         p ← get_element doc "options/output_variables/prefix";
         prefix ← get_value_text p;
         variables_node ← get_element doc "options/output_variables/variables";
         Ok (prefix, get_children_names variables_node)
       else Ok (output_variables_prefix d, variables_to_save d));
    steady_state_speed_ ←
      (if has_element doc "options/steady_state_speed" then
         e ← get_element doc "options/initial_speed"; get_value_scalar e
       else Ok (steady_state_speed d));
    is_closed_ ←
      read_if_present doc "options/closed_simulation" get_value_bool (is_closed d);
    '(set_initial_condition_, q_start_, qa_start_, u_start_) ←
      (if is_closed_ then Ok (set_initial_condition d, q_start d, qa_start d, u_start d)
       else if negb (has_element doc "options/initial_condition") then
         Throw (fastest_lap_exception
           "For open simulations, the initial condition must be providedin 'options/initial_condition'")
       else
         eq ← get_element doc "options/initial_condition/q";
         nq ← get_attribute eq "from_table";
         v_q_start ← umap_at vectors nq;
         eqa ← get_element doc "options/initial_condition/qa";
         nqa ← get_attribute eqa "from_table";
         v_qa_start ← umap_at vectors nqa;
         eu ← get_element doc "options/initial_condition/u";
         nu ← get_attribute eu "from_table";
         v_u_start ← umap_at vectors nu;
         q_start_ ← copy_into_array v_q_start (q_start d);
         qa_start_ ← copy_into_array v_qa_start (qa_start d);
         u_start_ ← copy_into_array v_u_start (u_start d);
         Ok (true, q_start_, qa_start_, u_start_));
    sigma_ ← read_if_present doc "options/sigma" get_value_scalar (sigma d);
    compute_sensitivity_ ←
      read_if_present doc "options/compute_sensitivity" get_value_bool
        (compute_sensitivity d);
    '(control_type_, dissipations_, hypermeshes_) ←
      (if has_element doc "options/control_variables" then
         e ← get_element doc "options/control_variables";
         foldM (parse_control_variable doc u_names)
           (control_type d, dissipations d, hypermeshes d) (get_children_names e)
       else Ok (control_type d, dissipations d, hypermeshes d));
    integral_constraints_ ←
      (if has_element doc "options/integral_constraints" then
         e ← get_element doc "options/integral_constraints";
         foldM (parse_integral_constraint doc) (integral_constraints d)
           (get_children_names e)
       else Ok (integral_constraints d));
    Ok {| warm_start := warm_start_;
          save_warm_start := save_warm_start_;
          write_xml := write_xml_;
          xml_file_name := xml_file_name_;
          print_level := print_level_;
          steady_state_speed := steady_state_speed_;
          is_direct := is_direct d;
          is_closed := is_closed_;
          set_initial_condition := set_initial_condition_;
          compute_sensitivity := compute_sensitivity_;
          sigma := sigma_;
          output_variables_prefix := prefix_;
          variables_to_save := variables_;
          integral_constraints := integral_constraints_;
          control_type := control_type_;
          dissipations := dissipations_;
          hypermeshes := hypermeshes_;
          q_start := q_start_;
          qa_start := qa_start_;
          u_start := u_start_ |}
  end.

(** What the API reads from a finished [Optimal_laptime] object: the lap
    time, the states [q] and algebraic states [qa] of the nodes, and
    [control_array_at_s i s] for
    [control_variables.control_array_at_s(car_curv, i, s)]. The per-node
    values are those of the solved trajectory re-evaluated on the scalar
    car; [dqdp_u p i] and [dqdp_time p i] are the sensitivities of the [u]
    and [time] states to parameter [p] at node [i]. *)
Record Optimal_laptime_output : Type := {
  laptime : Q;
  dlaptimedp : list Q;
  integral_quantities : list Q;
  q : list (list Q);
  qa : list (list Q);
  control_array_at_s : nat -> Q -> list Q;
  node_value : string -> nat -> Q;
  dqdp_u : nat -> nat -> Q;
  dqdp_time : nat -> nat -> Q
}.

(** What the API needs from a vehicle model ([vehicle_t] in the templates).
    [evaluate car q qa u s] is the vehicle after the call
    [car_curv_sc(q, qa, u, s)] of its scalar curvilinear car, which updates
    that car in place. [solve_optimal_laptime car v conf n_points s] stands
    for steps (4) and (5) of [compute_optimal_laptime]: the steady-state
    solution at speed [v] and the construction of the [Optimal_laptime]
    object seeded with it, with the initial condition of the configuration
    at node 0 (or the construction from the warm-start cache); both work on
    copies of the cars. [steady_state_gg_diagram] stands for
    [Steady_state::gg_diagram] and returns the [(ay, ax)] pairs of the upper
    and lower envelopes. [integral_quantities_names_text] is what the
    stream operator of the numerics library prints for the array of names. *)
Class Vehicle (V : Type) : Type := {
  kind : vehicle_kind;
  u_names : list string;
  integral_quantities_names : list string;
  integral_quantities_names_text : string;
  change_track : V -> Track -> V;
  evaluate : V -> list Q -> list Q -> list Q -> Q -> V;
  get_all_parameters_aliases : V -> list string;
  solve_optimal_laptime :
    V -> Q -> Optimal_laptime_configuration -> nat -> list Q
    -> outcome Optimal_laptime_output;
  steady_state_gg_diagram : V -> Q -> nat -> outcome (list (Q * Q) * list (Q * Q))
}.

(** *** The API monad

    Every entry point reads and updates the process-wide tables and may
    throw after it has already changed them, so an operation is a function
    from the tables to an outcome together with the tables it leaves. The
    [CATCH()] boundary prints one line and rethrows: it does not change
    the outcome. *)
Definition api (A : Type) : Type := tables -> outcome A * tables.

Definition api_ret {A : Type} (a : A) : api A := fun t => (Ok a, t).

Definition api_bind {A B : Type} (k : A -> api B) (m : api A) : api B :=
  fun t =>
    match m t with
    | (Ok a, t') => k a t'
    | (Throw e, t') => (Throw e, t')
    | (Undefined, t') => (Undefined, t')
    end.

Definition throw {A : Type} (e : exception) : api A := fun t => (Throw e, t).
Definition get_tables : api tables := fun t => (Ok t, t).
Definition put_tables (t' : tables) : api unit := fun _ => (Ok tt, t').
Definition lift {A : Type} (m : outcome A) : api A := fun t => (m, t).

#[global] Instance api_mbind : MBind api := @api_bind.
#[global] Instance api_mret : MRet api := @api_ret.

(** [check_variable_exists_in_tables] *)
Definition check_variable_exists_in_tables (name : string) : api unit :=
  t ← get_tables;
  if decide (count (table_kart_6dof t) name <> 0) then
    throw (fastest_lap_exception
      ("Vehicle of type kart-6dof with name " ++ dq ++ name ++ dq ++ " already exists"))
  else if decide (count (table_f1_3dof t) name <> 0) then
    throw (fastest_lap_exception
      ("Vehicle of type f1-3dof with name " ++ dq ++ name ++ dq ++ " already exists"))
  else if decide (count (table_track t) name <> 0) then
    throw (fastest_lap_exception
      ("Track with name " ++ dq ++ name ++ dq ++ " already exists"))
  else if decide (count (table_scalar t) name <> 0) then
    throw (fastest_lap_exception
      ("Scalar with name " ++ dq ++ name ++ dq ++ " already exists"))
  else if decide (count (table_vector t) name <> 0) then
    throw (fastest_lap_exception
      ("Vector with name " ++ dq ++ name ++ dq ++ " already exists"))
  else mret tt.

(** [create_vector] and [create_scalar] *)
Definition create_vector (name : string) (data : list Q) : api unit :=
  check_variable_exists_in_tables name ;;
  t ← get_tables;
  put_tables (set_vector t (umap_insert name data (table_vector t))).

Definition create_scalar (name : string) (value : Q) : api unit :=
  check_variable_exists_in_tables name ;;
  t ← get_tables;
  put_tables (set_scalar t (umap_insert name value (table_scalar t))).

(** [copy_variable]: the branch order is kart, f1, track, vector, scalar. *)
Definition copy_variable (old_name new_name : string) : api unit :=
  check_variable_exists_in_tables new_name ;;
  t ← get_tables;
  match table_kart_6dof t !! old_name with
  | Some v => put_tables (set_kart t (umap_insert new_name v (table_kart_6dof t)))
  | None =>
  match table_f1_3dof t !! old_name with
  | Some v => put_tables (set_f1 t (umap_insert new_name v (table_f1_3dof t)))
  | None =>
  match table_track t !! old_name with
  | Some v => put_tables (set_track t (umap_insert new_name v (table_track t)))
  | None =>
  match table_vector t !! old_name with
  | Some v => put_tables (set_vector t (umap_insert new_name v (table_vector t)))
  | None =>
  match table_scalar t !! old_name with
  | Some v => put_tables (set_scalar t (umap_insert new_name v (table_scalar t)))
  | None =>
    throw (fastest_lap_exception
      ("[ERROR] copy_variable -> variable " ++ dq ++ old_name ++ dq ++ " does not exist"))
  end end end end end.

(** [move_variable]: insert under the new name, then erase the old one. *)
Definition move_variable (old_name new_name : string) : api unit :=
  check_variable_exists_in_tables new_name ;;
  t ← get_tables;
  match table_kart_6dof t !! old_name with
  | Some v =>
      put_tables (set_kart t (delete old_name (umap_insert new_name v (table_kart_6dof t))))
  | None =>
  match table_f1_3dof t !! old_name with
  | Some v =>
      put_tables (set_f1 t (delete old_name (umap_insert new_name v (table_f1_3dof t))))
  | None =>
  match table_track t !! old_name with
  | Some v =>
      put_tables (set_track t (delete old_name (umap_insert new_name v (table_track t))))
  | None =>
  match table_vector t !! old_name with
  | Some v =>
      put_tables (set_vector t (delete old_name (umap_insert new_name v (table_vector t))))
  | None =>
  match table_scalar t !! old_name with
  | Some v =>
      put_tables (set_scalar t (delete old_name (umap_insert new_name v (table_scalar t))))
  | None =>
    throw (fastest_lap_exception
      ("[ERROR] copy_variable -> variable " ++ dq ++ old_name ++ dq ++ " does not exist"))
  end end end end end.

(** [delete_variables] *)
Definition delete_variables : api unit := put_tables (Tables ∅ ∅ ∅ ∅ ∅).

(** [delete_variable] *)
Definition delete_variable (variable_name : string) : api unit :=
  t ← get_tables;
  if decide (1 < n_ocurrences t variable_name)%nat then
    throw (fastest_lap_exception
      ("[ERROR] delete_variable -> variable " ++ dq ++ variable_name ++ dq
       ++ " has been multiply defined"))
  else if decide (count (table_kart_6dof t) variable_name <> 0) then
    put_tables (set_kart t (delete variable_name (table_kart_6dof t)))
  else if decide (count (table_f1_3dof t) variable_name <> 0) then
    put_tables (set_f1 t (delete variable_name (table_f1_3dof t)))
  else if decide (count (table_track t) variable_name <> 0) then
    put_tables (set_track t (delete variable_name (table_track t)))
  else if decide (count (table_vector t) variable_name <> 0) then
    put_tables (set_vector t (delete variable_name (table_vector t)))
  else if decide (count (table_scalar t) variable_name <> 0) then
    put_tables (set_scalar t (delete variable_name (table_scalar t)))
  else
    throw (fastest_lap_exception
      ("[ERROR] delete_variable -> variable " ++ dq ++ variable_name ++ dq
       ++ " has not been defined")).

(** *** Operations that reference a vehicle by name *)

Context `{Kart_model : !Vehicle Kart} `{F1_model : !Vehicle F1}.

(** [limebeer2014f1_all::set_parameter] and the unit constant [KMH] are
    defined outside the API file. *)
Context (set_parameter : F1 -> string -> Q -> outcome F1) (KMH : Q).

(** [vehicle_set_parameter] *)
Definition vehicle_set_parameter (vehicle_name parameter : string) (value : Q)
  : api unit :=
  t ← get_tables;
  if decide (count (table_f1_3dof t) vehicle_name <> 0) then
    car ← lift (umap_at (table_f1_3dof t) vehicle_name);
    car' ← lift (set_parameter car parameter value);
    put_tables (set_f1 t (<[vehicle_name := car']> (table_f1_3dof t)))
  else mret tt.

(** The three caller-owned output arrays of [gg_diagram]. *)
Record gg_buffers : Type := {
  ay : list Q;
  ax_max : list Q;
  ax_min : list Q
}.

(** [compute_gg_diagram]: entry [i] of each array is overwritten for
    [i < n_points]. *)
Definition compute_gg_diagram {V : Type} `{!Vehicle V} (car : V)
    (out : gg_buffers) (v : Q) (n_points : nat) : outcome gg_buffers :=
  '(sol_max, sol_min) ← steady_state_gg_diagram car v n_points;
  mret (fold_left
        (fun b i =>
           {| ay := <[i := fst (nth i sol_max (0, 0)%Q)]> (ay b);
              ax_max := <[i := snd (nth i sol_max (0, 0)%Q)]> (ax_max b);
              ax_min := <[i := snd (nth i sol_min (0, 0)%Q)]> (ax_min b) |})
        (seq 0 n_points) out).

(** [gg_diagram] *)
Definition gg_diagram (out : gg_buffers) (vehicle_name : string) (v : Q)
    (n_points : nat) : api gg_buffers :=
  t ← get_tables;
  if decide (count (table_kart_6dof t) vehicle_name <> 0) then
    car ← lift (umap_at (table_kart_6dof t) vehicle_name);
    lift (compute_gg_diagram car out v n_points)
  else if decide (count (table_f1_3dof t) vehicle_name <> 0) then
    car ← lift (umap_at (table_f1_3dof t) vehicle_name);
    lift (compute_gg_diagram car out v n_points)
  else mret out.

(** *** Saving the outputs of a solve, step (6.2) *)

(** Names accepted for both vehicle models in the per-node chain. *)
Definition common_output_names : list string :=
  ["x"; "y"; "s"; "n"; "alpha"; "u"; "v"; "time"; "delta"; "psi"; "omega";
   "throttle";
   "rear_axle.left_tire.x"; "rear_axle.left_tire.y";
   "rear_axle.right_tire.x"; "rear_axle.right_tire.y";
   "front_axle.left_tire.x"; "front_axle.left_tire.y";
   "front_axle.right_tire.x"; "front_axle.right_tire.y";
   "front_axle.left_tire.kappa"; "front_axle.right_tire.kappa";
   "rear_axle.left_tire.kappa"; "rear_axle.right_tire.kappa";
   "front_axle.left_tire.dissipation"; "front_axle.right_tire.dissipation";
   "rear_axle.left_tire.dissipation"; "rear_axle.right_tire.dissipation";
   "chassis.understeer_oversteer_indicator"; "chassis.aerodynamics.cd";
   "ax"; "ay"].

Definition f1_only_output_names : list string :=
  ["Fz_fl"; "Fz_fr"; "Fz_rl"; "Fz_rr"].

(** The body of the loop over the nodes for one vector variable. *)
Definition node_output (k : vehicle_kind) (opt : Optimal_laptime_output)
    (variable_name : string) (i : nat) : outcome Q :=
  if mem variable_name common_output_names then Ok (node_value opt variable_name i)
  else if String.eqb variable_name "brake-bias" then
    match k with
    | lot2016kart_all =>
        Throw (fastest_lap_exception
          "[ERROR] brake-bias is not available for vehicles of type lot2016kart")
    | limebeer2014f1_all => Ok (node_value opt variable_name i)
    end
  else if mem variable_name f1_only_output_names then
    match k with
    | limebeer2014f1_all => Ok (node_value opt variable_name i)
    | lot2016kart_all =>
        Throw (fastest_lap_exception
          (variable_name ++ " is only defined for limebeer2014f1 models"))
    end
  else
    Throw (fastest_lap_exception
      ("Variable " ++ dq ++ variable_name ++ dq ++ " is not defined")).

(** Row [p] of [ddatadp]: filled for [u] and [time] when sensitivities are
    computed, zero otherwise. *)
Definition ddatadp_row (check_optimality : bool) (opt : Optimal_laptime_output)
    (variable_name : string) (n_points p : nat) : list Q :=
  map (fun i =>
         if check_optimality && String.eqb variable_name "u" then dqdp_u opt p i
         else if check_optimality && String.eqb variable_name "time"
              then dqdp_time opt p i
         else 0%Q)
      (seq 0 n_points).

Fixpoint for_each {A : Type} (f : A -> api unit) (l : list A) : api unit :=
  match l with
  | [] => mret tt
  | a :: l' => f a ;; for_each f l'
  end.

Definition insert_scalar (name : string) (value : Q) : api unit :=
  t ← get_tables;
  put_tables (set_scalar t (umap_insert name value (table_scalar t))).

Definition insert_vector (name : string) (data : list Q) : api unit :=
  t ← get_tables;
  put_tables (set_vector t (umap_insert name data (table_vector t))).

Definition indexed {A : Type} (l : list A) : list (nat * A) :=
  combine (seq 0 (length l)) l.

(** The call [car_curv_sc(opt_laptime.q[i], opt_laptime.qa[i],
    control_array_at_s(car_curv, i, s[i]), s[i])] that opens every pass of
    the loop over the nodes: the scalar car of the vehicle is evaluated in
    place. Reading a row that the trajectory does not have is undefined. *)
Definition evaluate_node {V : Type} `{!Vehicle V} (opt : Optimal_laptime_output)
    (s : list Q) (car : V) (i : nat) : outcome V :=
  match q opt !! i, qa opt !! i with
  | Some q_i, Some qa_i =>
      Ok (evaluate car q_i qa_i (control_array_at_s opt i (nth i s 0%Q)) (nth i s 0%Q))
  | _, _ => Undefined
  end.

(** The loop over the nodes for one vector variable. The vehicle is the
    entry of its table, so every evaluation is written back with [store]
    before the name of the variable is looked at. The result is the
    vehicle as the loop leaves it and the values [data]. *)
Fixpoint save_nodes {V : Type} `{!Vehicle V} (store : V -> api unit)
    (opt : Optimal_laptime_output) (s : list Q) (variable_name : string) (car : V)
    (nodes : list nat) : api (V * list Q) :=
  match nodes with
  | [] => mret (car, [])
  | i :: nodes' =>
      car ← lift (evaluate_node opt s car i);
      store car ;;
      value ← lift (node_output (@kind V _) opt variable_name i);
      '(car, data) ← save_nodes store opt s variable_name car nodes';
      mret (car, value :: data)
  end.

(** The text of the exception for an unknown integral quantity. *)
Definition integral_constraint_not_found (names_text : string) : string :=
  "[ERROR] Requested integral constraint was not found." ++ newline
  ++ "[ERROR] Available options are: " ++ names_text.

(** One iteration of the loop over [conf.variables_to_save], for the
    vehicle [car]; the result is the vehicle as the iteration leaves it. *)
Definition save_variable {V : Type} `{!Vehicle V} (store : V -> api unit)
    (conf : Optimal_laptime_configuration) (opt : Optimal_laptime_output)
    (n_points : nat) (s : list Q) (car : V) (variable_name : string) : api V :=
  let prefix := output_variables_prefix conf in
  let name := prefix ++ variable_name in
  let check_optimality := compute_sensitivity conf in
  let parameter_aliases := get_all_parameters_aliases car in
  t ← get_tables;
  if decide (count (table_scalar t) name <> 0) then
    throw (fastest_lap_exception
      ("Variable " ++ dq ++ name ++ dq ++ " already exists in the scalar table"))
  else if decide (count (table_vector t) name <> 0) then
    throw (fastest_lap_exception
      ("Variable " ++ dq ++ name ++ dq ++ " already exists in the vector table"))
  else if String.eqb variable_name "laptime" then
    insert_scalar name (laptime opt) ;;
    (if check_optimality then
       for_each
         (fun '(i, alias) =>
            insert_scalar (prefix ++ "derivatives/" ++ variable_name ++ "/" ++ alias)
                          (nth i (dlaptimedp opt) 0%Q))
         (indexed parameter_aliases)
     else mret tt) ;;
    mret car
  else if String.prefix "integral_quantities." variable_name then
    let integral_quantity_name :=
      String.substring (String.length "integral_quantities.")
        (String.length variable_name - String.length "integral_quantities.")
        variable_name in
    match find_index integral_quantity_name (@integral_quantities_names V _) with
    | None =>
        throw (fastest_lap_exception
          (integral_constraint_not_found (@integral_quantities_names_text V _)))
    | Some index =>
        insert_scalar name (nth index (integral_quantities opt) 0%Q) ;;
        mret car
    end
  else
    '(car, data) ← save_nodes store opt s variable_name car (seq 0 n_points);
    insert_vector name data ;;
    (if check_optimality then
       for_each
         (fun '(p, alias) =>
            insert_vector (prefix ++ "derivatives/" ++ variable_name ++ "/" ++ alias)
                          (ddatadp_row check_optimality opt variable_name n_points p))
         (indexed parameter_aliases)
     else mret tt) ;;
    mret car.

(** The loop over [conf.variables_to_save]. *)
Fixpoint save_variables {V : Type} `{!Vehicle V} (store : V -> api unit)
    (conf : Optimal_laptime_configuration) (opt : Optimal_laptime_output)
    (n_points : nat) (s : list Q) (car : V) (variables : list string) : api unit :=
  match variables with
  | [] => mret tt
  | variable_name :: variables' =>
      car ← save_variable store conf opt n_points s car variable_name;
      save_variables store conf opt n_points s car variables'
  end.

(** [compute_optimal_laptime]. The vehicle is passed by reference out of
    its table: [store] writes it back whenever the function changes it, by
    [change_track] in step (3) and by the evaluations of the scalar car in
    step (6.2). Writing the XML file (6.1) and the warm-start cache (6.3)
    leave the tables alone and are not modelled. *)
Definition compute_optimal_laptime {V : Type} `{!Vehicle V} (store : V -> api unit)
    (vehicle : V) (track : Track) (n_points : nat) (s : list Q)
    (options : option Xml_document) : api unit :=
  t ← get_tables;
  conf ← lift (make_Optimal_laptime_configuration (@kind V _) (@u_names V _)
                 (table_vector t) options);
  let vehicle := change_track vehicle track in
  store vehicle ;;
  let v := (steady_state_speed conf * KMH)%Q in
  opt_laptime ← lift (solve_optimal_laptime vehicle v conf n_points (firstn n_points s));
  save_variables store conf opt_laptime n_points s vehicle (variables_to_save conf).

(** [optimal_laptime] *)
Definition optimal_laptime (vehicle_name track_name : string) (n_points : nat)
    (s : list Q) (options : option Xml_document) : api unit :=
  t ← get_tables;
  if decide (count (table_kart_6dof t) vehicle_name <> 0) then
    car ← lift (umap_at (table_kart_6dof t) vehicle_name);
    track ← lift (umap_at (table_track t) track_name);
    compute_optimal_laptime
      (fun car' => t' ← get_tables;
                   put_tables (set_kart t' (<[vehicle_name := car']> (table_kart_6dof t'))))
      car track n_points s options
  else if decide (count (table_f1_3dof t) vehicle_name <> 0) then
    car ← lift (umap_at (table_f1_3dof t) vehicle_name);
    track ← lift (umap_at (table_track t) track_name);
    compute_optimal_laptime
      (fun car' => t' ← get_tables;
                   put_tables (set_f1 t' (<[vehicle_name := car']> (table_f1_3dof t'))))
      car track n_points s options
  else mret tt.

(** *** The circuit preprocessor entry point *)

Inductive Mode : Type := EQUALLY_SPACED | REFINED.

Record Circuit_preprocessor_configuration : Type := {
  kml_file_left : string;
  kml_file_right : string;
  mode : Mode;
  clockwise : bool;
  cp_is_closed : bool;
  n_el : Z;
  s_distribution : list Q;
  ds_distribution : list Q;
  eps_d : Q;
  eps_k : Q;
  eps_n : Q;
  eps_c : Q;
  maximum_kappa : Q;
  maximum_dkappa : Q;
  maximum_dn : Q;
  maximum_distance_find : Q;
  adaption_aspect_ratio_max : Q;
  cp_print_level : Z;
  save_to_table : bool;
  save_as_xml : bool;
  output_variables_to_table : bool;
  cp_xml_file_name : string;
  cp_output_variables_prefix : string;
  insert_table_name : string
}.

Definition require (doc : Xml_document) (path message : string) : outcome unit :=
  if has_element doc path then Ok tt else Throw (fastest_lap_exception message).

Definition missing (what : string) : string :=
  "[ERROR] circuit_preprocessor_validate_options -> missing " ++ what.

(** The constructor [Circuit_preprocessor_configuration(const char* options)];
    the defaults are those of [Circuit_preprocessor::Options]. *)
Definition make_Circuit_preprocessor_configuration (doc : Xml_document)
  : outcome Circuit_preprocessor_configuration :=
  require doc "options/kml_files" (missing "mandatory node options/kml_files") ;;
  require doc "options/kml_files/left" (missing "mandatory node options/kml_files/left") ;;
  require doc "options/kml_files/right" (missing "mandatory node options/kml_files/right") ;;
  left ← get_element doc "options/kml_files/left";
  kml_file_left_ ← get_value_text left;
  right ← get_element doc "options/kml_files/right";
  kml_file_right_ ← get_value_text right;
  require doc "options/mode" (missing "mandatory node options/mode") ;;
  m ← get_element doc "options/mode";
  mode_str ← get_value_text m;
  mode_ ←
    (if String.eqb mode_str "equally-spaced" then Ok EQUALLY_SPACED
     else if String.eqb mode_str "refined" then Ok REFINED
     else Throw (fastest_lap_exception
       ("[ERROR] circuit_preprocessor_validate_options -> invalid value for "
        ++ dq ++ "mode" ++ dq ++ "." ++ newline ++ "Available options are: "
        ++ dq ++ "equally-spaced" ++ dq ++ " and " ++ dq ++ "refined" ++ dq)));
  require doc "options/is_closed" (missing "mandatory node options/is_closed") ;;
  c ← get_element doc "options/is_closed";
  is_closed_ ← get_value_bool c;
  (if negb is_closed_ && match mode_ with REFINED => true | _ => false end then
     Throw (fastest_lap_exception
       ("[ERROR] circuit_preprocessor_validate_options -> open tracks must be computed with mode="
        ++ dq ++ "equally-spaced" ++ dq))
   else Ok tt) ;;
  clockwise_ ← read_if_present doc "options/clockwise" get_value_bool false;
  '(n_el_, s_distribution_, ds_distribution_) ←
    match mode_ with
    | EQUALLY_SPACED =>
        require doc "options/number_of_elements"
          (missing "node options/number_of_element, mandatory in equally-spaced mode") ;;
        e ← get_element doc "options/number_of_elements";
        n ← get_value_size_t e;
        Ok (n, [], [])
    | REFINED =>
        require doc "options/mesh_refinement"
          (missing "node options/mesh_refinement, mandatory in refined mode") ;;
        require doc "options/mesh_refinement/s"
          (missing "node options/mesh_refinement/s, mandatory in refined mode") ;;
        require doc "options/mesh_refinement/ds"
          (missing "node options/mesh_refinement/ds, mandatory in refined mode") ;;
        es ← get_element doc "options/mesh_refinement/s";
        sd ← get_value_vector es;
        eds ← get_element doc "options/mesh_refinement/ds";
        dsd ← get_value_vector eds;
        Ok (0%Z, sd, dsd)
    end;
  let opt := has_element doc "options/optimization" in
  let read path current :=
    if opt then read_if_present doc path get_value_scalar current else Ok current in
  eps_k_ ← read "options/optimization/cost_curvature" (5 * 10000)%Q;
  eps_n_ ← read "options/optimization/cost_track_limits_smoothness" (1 # 10)%Q;
  eps_d_ ← read "options/optimization/cost_track_limits_errors" (1 # 10)%Q;
  eps_c_ ← read "options/optimization/cost_curvature" (1 # 10)%Q;
  maximum_kappa_ ← read "options/optimization/maximum_kappa" (1 # 10)%Q;
  maximum_dkappa_ ← read "options/optimization/maximum_dkappa" (2 # 100)%Q;
  print_level_ ← read_if_present doc "options/print_level" get_value_scalar_as_int 0%Z;
  '(save_as_xml_, xml_file_name_) ←
    (if has_element doc "options/xml_file_name" then
       e ← get_element doc "options/xml_file_name"; n ← get_value_text e; Ok (true, n)
     else Ok (false, EmptyString));
  '(output_variables_to_table_, prefix_) ←
    (if has_element doc "options/output_variables" then
       require doc "options/output_variables/prefix"
         (missing ("node " ++ dq ++ "options/output_variables/prefix" ++ dq
                   ++ ", mandatory when output_variables is given")) ;;
       e ← get_element doc "options/output_variables/prefix";
       n ← get_value_text e;
       Ok (true, n)
     else Ok (false, EmptyString));
  '(save_to_table_, insert_table_name_) ←
    (if has_element doc "options/insert_table_name" then
       e ← get_element doc "options/insert_table_name"; n ← get_value_text e; Ok (true, n)
     else Ok (false, EmptyString));
  Ok {| kml_file_left := kml_file_left_;
        kml_file_right := kml_file_right_;
        mode := mode_;
        clockwise := clockwise_;
        cp_is_closed := is_closed_;
        n_el := n_el_;
        s_distribution := s_distribution_;
        ds_distribution := ds_distribution_;
        eps_d := eps_d_;
        eps_k := eps_k_;
        eps_n := eps_n_;
        eps_c := eps_c_;
        maximum_kappa := maximum_kappa_;
        maximum_dkappa := maximum_dkappa_;
        maximum_dn := 1;
        maximum_distance_find := 50;
        adaption_aspect_ratio_max := 12 # 10;
        cp_print_level := print_level_;
        save_to_table := save_to_table_;
        save_as_xml := save_as_xml_;
        output_variables_to_table := output_variables_to_table_;
        cp_xml_file_name := xml_file_name_;
        cp_output_variables_prefix := prefix_;
        insert_table_name := insert_table_name_ |}.

(** The public outputs of a [Circuit_preprocessor] that the API copies into
    the tables; points are [(x, y)] pairs. *)
Record Circuit_preprocessor : Type := {
  cp_s : list Q;
  r_centerline : list (Q * Q);
  r_left : list (Q * Q);
  r_right : list (Q * Q);
  r_left_measured : list (Q * Q);
  r_right_measured : list (Q * Q);
  kappa : list Q;
  nl : list Q;
  nr : list Q
}.

(** Opening a KML file, running the preprocessor on the two boundaries and
    wrapping its result into a [Track_by_polynomial] are outside the API
    file. *)
Context {Kml : Type} (open_kml : string -> outcome Kml).
Context (run_preprocessor :
           Kml -> Kml -> Circuit_preprocessor_configuration -> outcome Circuit_preprocessor).
Context (track_of_preprocessor : Circuit_preprocessor -> Track).

(** [std::transform] of [src] into a zero-filled vector of [n] entries:
    writing past the end of the destination is undefined. *)
Definition transform_into (n : nat) (src : list Q) : outcome (list Q) :=
  if decide (length src <= n)%nat then Ok (src ++ repeat 0%Q (n - length src))%list
  else Undefined.

(** One block (3.3.k): check the vector table, build the data, insert. *)
Definition output_vector (name : string) (data : outcome (list Q)) : api unit :=
  t ← get_tables;
  if decide (count (table_vector t) name <> 0) then
    throw (fastest_lap_exception
      ("Variable " ++ dq ++ name ++ dq ++ " already exists in the vector table"))
  else d ← lift data; insert_vector name d.

(** [circuit_preprocessor] *)
Definition circuit_preprocessor (options : Xml_document) : api unit :=
  conf ← lift (make_Circuit_preprocessor_configuration options);
  kml_left ← lift (open_kml (kml_file_left conf));
  kml_right ← lift (open_kml (kml_file_right conf));
  circuit ← lift
    match mode conf with
    | EQUALLY_SPACED =>
        if cp_is_closed conf then run_preprocessor kml_left kml_right conf
        else Throw (fastest_lap_exception "[ERROR] Not implemented")
    | REFINED => run_preprocessor kml_left kml_right conf
    end;
  (if save_to_table conf then
     t ← get_tables;
     if decide (count (table_track t) (insert_table_name conf) <> 0) then
       throw (fastest_lap_exception
         ("Track " ++ dq ++ insert_table_name conf ++ dq
          ++ " already exists in the track table"))
     else
       put_tables (set_track t (umap_insert (insert_table_name conf)
                                  (track_of_preprocessor circuit) (table_track t)))
   else mret tt) ;;
  if output_variables_to_table conf then
    let prefix := cp_output_variables_prefix conf in
    let n := length (cp_s circuit) in
    output_vector (prefix ++ "arclength") (Ok (cp_s circuit)) ;;
    output_vector (prefix ++ "centerline/x") (transform_into n (map fst (r_centerline circuit))) ;;
    output_vector (prefix ++ "centerline/y") (transform_into n (map snd (r_centerline circuit))) ;;
    output_vector (prefix ++ "left/x") (transform_into n (map fst (r_left circuit))) ;;
    output_vector (prefix ++ "left/y") (transform_into n (map snd (r_left circuit))) ;;
    output_vector (prefix ++ "right/x") (transform_into n (map fst (r_right circuit))) ;;
    output_vector (prefix ++ "right/y") (transform_into n (map snd (r_right circuit))) ;;
    output_vector (prefix ++ "left_measured/x")
      (transform_into n (map fst (r_left_measured circuit))) ;;
    output_vector (prefix ++ "left_measured/y")
      (transform_into n (map snd (r_left_measured circuit))) ;;
    output_vector (prefix ++ "right_measured/x")
      (transform_into n (map fst (r_right_measured circuit))) ;;
    output_vector (prefix ++ "right_measured/y")
      (transform_into n (map snd (r_right_measured circuit))) ;;
    output_vector (prefix ++ "kappa") (Ok (kappa circuit)) ;;
    output_vector (prefix ++ "nl") (Ok (nl circuit)) ;;
    output_vector (prefix ++ "nr") (Ok (nr circuit))
  else mret tt.

(** *** Comparing two states of the tables *)

(** [name] has in [t'] the entry, or the absence of one, it has in [t]. *)
Definition same_entry (t t' : tables) (name : string) : Prop :=
  table_kart_6dof t' !! name = table_kart_6dof t !! name
  /\ table_f1_3dof t' !! name = table_f1_3dof t !! name
  /\ table_track t' !! name = table_track t !! name
  /\ table_scalar t' !! name = table_scalar t !! name
  /\ table_vector t' !! name = table_vector t !! name.

(** [new_name] has in [t'] the entry that [old_name] has in [t]. *)
Definition entry_of (t t' : tables) (old_name new_name : string) : Prop :=
  table_kart_6dof t' !! new_name = table_kart_6dof t !! old_name
  /\ table_f1_3dof t' !! new_name = table_f1_3dof t !! old_name
  /\ table_track t' !! new_name = table_track t !! old_name
  /\ table_scalar t' !! new_name = table_scalar t !! old_name
  /\ table_vector t' !! new_name = table_vector t !! old_name.

(** [t'] has every scalar and vector of [t], with its value. *)
Definition extends (t t' : tables) : Prop :=
  table_scalar t ⊆ table_scalar t' /\ table_vector t ⊆ table_vector t'.

(** [t'] has the tracks of [t] and every scalar and vector of [t] with its
    value; every vehicle other than [vehicle] is as it was, and no vehicle
    has been registered or removed. *)
Definition updates (vehicle : string) (t t' : tables) : Prop :=
  table_track t' = table_track t
  /\ table_scalar t ⊆ table_scalar t'
  /\ table_vector t ⊆ table_vector t'
  /\ forall name,
       (name <> vehicle ->
        table_kart_6dof t' !! name = table_kart_6dof t !! name
        /\ table_f1_3dof t' !! name = table_f1_3dof t !! name)
       /\ count (table_kart_6dof t') name = count (table_kart_6dof t) name
       /\ count (table_f1_3dof t') name = count (table_f1_3dof t) name.

(** The entry that the loop over [conf.variables_to_save] stores under
    [prefix ++ variable_name]: the lap time, an integral quantity, or one
    value per node. *)
Definition saved (names : list string) (conf : Optimal_laptime_configuration)
    (opt : Optimal_laptime_output) (n_points : nat) (variable_name : string)
    (t : tables) : Prop :=
  let name := output_variables_prefix conf ++ variable_name in
  if String.eqb variable_name "laptime" then
    table_scalar t !! name = Some (laptime opt)
  else if String.prefix "integral_quantities." variable_name then
    exists index,
      find_index
        (String.substring (String.length "integral_quantities.")
           (String.length variable_name - String.length "integral_quantities.")
           variable_name) names = Some index
      /\ table_scalar t !! name = Some (nth index (integral_quantities opt) 0%Q)
  else
    table_vector t !! name
    = Some (map (node_value opt variable_name) (seq 0 n_points)).

(** The control types that the configuration constructor lets through. *)
Definition supported_control_type (type : string) : Prop :=
  type = "dont optimize" \/ type = "hypermesh" \/ type = "full-mesh".

(** *** Reading the scalar and vector tables back *)

(** A [size_t] returned as an [int], and an [int] cast to [size_t]. *)
Definition int_of_size_t (n : Z) : Z := ((n + 2 ^ 31) mod 2 ^ 32 - 2 ^ 31)%Z.
Definition size_t_of_int (n : Z) : Z := (n mod 2 ^ 64)%Z.

(** [download_vector_size] *)
Definition download_vector_size (name : string) : api Z :=
  t ← get_tables;
  match table_vector t !! name with
  | None =>
      throw (fastest_lap_exception
        ("Variable " ++ dq ++ name ++ dq ++ " does not exists in the vector table"))
  | Some table_data => mret (int_of_size_t (Z.of_nat (length table_data)))
  end.

(** [download_scalar] *)
Definition download_scalar (name : string) : api Q :=
  t ← get_tables;
  match table_scalar t !! name with
  | None =>
      throw (fastest_lap_exception
        ("Variable " ++ dq ++ name ++ dq ++ " does not exists in the scalar table"))
  | Some value => mret value
  end.

(** [download_vector]: the result is what [std::copy] writes at the front
    of the caller's array, whose announced size is the [int] [n]. *)
Definition download_vector (n : Z) (name : string) : api (list Q) :=
  t ← get_tables;
  match table_vector t !! name with
  | None =>
      throw (fastest_lap_exception
        ("Variable " ++ dq ++ name ++ dq ++ " does not exists in the vector table"))
  | Some table_data =>
      if decide (Z.of_nat (length table_data) <> size_t_of_int n) then
        throw (fastest_lap_exception
          ("Incorrect input size for variable " ++ dq ++ name ++ dq ++ ". Input: "
           ++ pretty n ++ ", should be " ++ pretty (length table_data)))
      else mret table_data
  end.

(** [delete_variable_by_prefix_generic]: [it->first.find(prefix) == 0]
    holds for the keys that start with [prefix]. *)
Definition delete_variable_by_prefix_generic {V : Type} (table : gmap string V)
    (prefix : string) : gmap string V :=
  filter (fun entry => String.prefix prefix (fst entry) = false) table.

(** [delete_variables_by_prefix] *)
Definition delete_variables_by_prefix (prefix : string) : api unit :=
  t ← get_tables;
  let scalars := delete_variable_by_prefix_generic (table_scalar t) prefix in
  let vectors := delete_variable_by_prefix_generic (table_vector t) prefix in
  let karts := delete_variable_by_prefix_generic (table_kart_6dof t) prefix in
  let f1s := delete_variable_by_prefix_generic (table_f1_3dof t) prefix in
  let tracks := delete_variable_by_prefix_generic (table_track t) prefix in
  put_tables (Tables karts f1s tracks scalars vectors).

(** [vehicle_change_track]: both cars of the vehicle are moved to the
    track, which is what [change_track] of the vehicle model stands for. *)
Definition vehicle_change_track (vehicle_name track_name : string) : api unit :=
  t ← get_tables;
  if decide (count (table_kart_6dof t) vehicle_name <> 0) then
    car ← lift (umap_at (table_kart_6dof t) vehicle_name);
    track ← lift (umap_at (table_track t) track_name);
    put_tables (set_kart t (<[vehicle_name := change_track car track]> (table_kart_6dof t)))
  else if decide (count (table_f1_3dof t) vehicle_name <> 0) then
    car ← lift (umap_at (table_f1_3dof t) vehicle_name);
    track ← lift (umap_at (table_track t) track_name);
    put_tables (set_f1 t (<[vehicle_name := change_track car track]> (table_f1_3dof t)))
  else mret tt.

(** *** Creating vehicles and tracks

    Opening an XML file, reading an attribute of its root element and
    building a vehicle or a track from it are outside the API file; each
    may throw. [f1_empty] is the default-constructed [limebeer2014f1_all]. *)
Context {Database : Type} (open_database : string -> outcome Database).
Context (get_root_attribute : Database -> string -> outcome string).
Context (kart_of_database : Database -> outcome Kart).
Context (f1_of_database : Database -> outcome F1).
Context (track_of_database : Database -> outcome Track).
Context (f1_empty : F1).

(** [table.insert] followed by the test of [out.second]. *)
Definition insert_or_throw {V : Type} (name : string) (v : V) (m : gmap string V)
    (message : string) : outcome (gmap string V) :=
  match m !! name with
  | Some _ => Throw (fastest_lap_exception message)
  | None => Ok (<[name := v]> m)
  end.

(** [create_vehicle_from_xml] *)
Definition create_vehicle_from_xml (vehicle_name database_file : string) : api unit :=
  check_variable_exists_in_tables vehicle_name ;;
  database ← lift (open_database database_file);
  vehicle_type ← lift (get_root_attribute database "type");
  if String.eqb vehicle_type "kart-6dof" then
    car ← lift (kart_of_database database);
    t ← get_tables;
    m ← lift (insert_or_throw vehicle_name car (table_kart_6dof t)
                "The insertion to the map failed");
    put_tables (set_kart t m)
  else if String.eqb vehicle_type "f1-3dof" then
    car ← lift (f1_of_database database);
    t ← get_tables;
    m ← lift (insert_or_throw vehicle_name car (table_f1_3dof t)
                "Vehicle already exists");
    put_tables (set_f1 t m)
  else throw (fastest_lap_exception "Vehicle type not recognized").

(** [create_vehicle_empty] *)
Definition create_vehicle_empty (vehicle_name vehicle_type : string) : api unit :=
  check_variable_exists_in_tables vehicle_name ;;
  if String.eqb vehicle_type "kart-6dof" then
    throw (fastest_lap_exception
      ("[ERROR] create_vehicle_empty -> vehicle type " ++ dq ++ "kart-6dof" ++ dq
       ++ " cannot be created empty. Create from XML database instead"))
  else if String.eqb vehicle_type "f1-3dof" then
    t ← get_tables;
    m ← lift (insert_or_throw vehicle_name f1_empty (table_f1_3dof t)
                "The insertion to the map failed");
    put_tables (set_f1 t m)
  else throw (fastest_lap_exception "Vehicle type not recognized").

(** [create_track_from_xml] *)
Definition create_track_from_xml (name track_file : string) : api unit :=
  check_variable_exists_in_tables name ;;
  track_xml ← lift (open_database track_file);
  track_format ← lift (get_root_attribute track_xml "format");
  if negb (String.eqb track_format "discrete") then
    throw (fastest_lap_exception
      ("Track format " ++ dq ++ track_format ++ dq ++ " is not supported"))
  else
    track ← lift (track_of_database track_xml);
    t ← get_tables;
    put_tables (set_track t (umap_insert name track (table_track t))).

(** *** Properties and parameters of a vehicle *)

(** Names that [vehicle_get_property_generic] answers whatever the type
    [Vehicle_t] of its first argument is. *)
Definition common_property_names : list string :=
  ["x"; "y"; "s"; "n"; "alpha"; "u"; "v"; "time"; "delta"; "psi"; "omega";
   "rear_axle.left_tire.x"; "rear_axle.left_tire.y";
   "rear_axle.right_tire.x"; "rear_axle.right_tire.y";
   "front_axle.left_tire.x"; "front_axle.left_tire.y";
   "front_axle.right_tire.x"; "front_axle.right_tire.y";
   "front_axle.left_tire.kappa"; "front_axle.right_tire.kappa";
   "rear_axle.left_tire.kappa"; "rear_axle.right_tire.kappa";
   "front_axle.left_tire.lambda"; "front_axle.right_tire.lambda";
   "rear_axle.left_tire.lambda"; "rear_axle.right_tire.lambda";
   "front_axle.left_tire.Fx"; "front_axle.right_tire.Fx";
   "rear_axle.left_tire.Fx"; "rear_axle.right_tire.Fx";
   "front_axle.left_tire.Fy"; "front_axle.right_tire.Fy";
   "rear_axle.left_tire.Fy"; "rear_axle.right_tire.Fy";
   "front_axle.left_tire.dissipation"; "front_axle.right_tire.dissipation";
   "rear_axle.left_tire.dissipation"; "rear_axle.right_tire.dissipation";
   "ax"; "ay"; "chassis.understeer_oversteer_indicator"].

(** [vehicle_get_property_generic<Vehicle_t>] after the vehicle has been
    evaluated at the inputs; [value] reads the named quantity off the
    evaluated vehicle and the input arrays. The branches for [throttle],
    [brake-bias] and the four vertical forces compare the template
    parameter with the two types [lot2016kart_all] and
    [limebeer2014f1_all]: [Vehicle_t] is [Some k] when the parameter is the
    [_all] type of the model [k], and [None] for any other type. *)
Definition vehicle_get_property_generic (Vehicle_t : option vehicle_kind)
    (value : string -> Q) (property_name : string) : outcome Q :=
  if String.eqb property_name "throttle" then
    match Vehicle_t with
    | Some _ => Ok (value property_name)
    | None => Throw (fastest_lap_exception "[ERROR] Vehicle type is not defined")
    end
  else if String.eqb property_name "brake-bias" then
    match Vehicle_t with
    | Some lot2016kart_all =>
        Throw (fastest_lap_exception
          "[ERROR] brake-bias is not available for vehicles of type lot2016kart")
    | Some limebeer2014f1_all => Ok (value property_name)
    | None => Throw (fastest_lap_exception "[ERROR] Vehicle type is not defined")
    end
  else if mem property_name common_property_names then Ok (value property_name)
  else if mem property_name f1_only_output_names then
    match Vehicle_t with
    | Some limebeer2014f1_all => Ok (value property_name)
    | _ =>
        Throw (fastest_lap_exception
          (property_name ++ " is only defined for limebeer2014f1 models"))
    end
  else
    Throw (fastest_lap_exception
      ("Variable " ++ dq ++ property_name ++ dq ++ " is not defined")).

(** Reading a quantity off an evaluated vehicle and the input arrays. *)
Context (kart_value : Kart -> list Q -> list Q -> list Q -> string -> Q).
Context (f1_value : F1 -> list Q -> list Q -> list Q -> string -> Q).

(** [vehicle_get_property]. Both calls pass the member [curvilinear_scalar]
    of the vehicle, whose type is neither [lot2016kart_all] nor
    [limebeer2014f1_all]; the generic function evaluates it in place. *)
Definition vehicle_get_property (vehicle_name : string) (q qa u : list Q) (s : Q)
    (property_name : string) : api Q :=
  t ← get_tables;
  if decide (count (table_kart_6dof t) vehicle_name <> 0) then
    car ← lift (umap_at (table_kart_6dof t) vehicle_name);
    let car := evaluate car q qa u s in
    put_tables (set_kart t (<[vehicle_name := car]> (table_kart_6dof t))) ;;
    lift (vehicle_get_property_generic None (kart_value car q qa u) property_name)
  else if decide (count (table_f1_3dof t) vehicle_name <> 0) then
    car ← lift (umap_at (table_f1_3dof t) vehicle_name);
    let car := evaluate car q qa u s in
    put_tables (set_f1 t (<[vehicle_name := car]> (table_f1_3dof t))) ;;
    lift (vehicle_get_property_generic None (f1_value car q qa u) property_name)
  else
    throw (fastest_lap_exception
      "[ERROR] libfastestlapc::vehicle_get_property -> vehicle type is not defined").

(** [add_parameter] of the two vehicle models. *)
Context (kart_add_parameter : Kart -> string -> string -> Q -> outcome Kart).
Context (f1_add_parameter : F1 -> string -> string -> Q -> outcome F1).

(** [vehicle_declare_new_constant_parameter] *)
Definition vehicle_declare_new_constant_parameter
    (vehicle_name parameter_path parameter_alias : string) (parameter_value : Q)
  : api unit :=
  t ← get_tables;
  if decide (count (table_f1_3dof t) vehicle_name <> 0) then
    car ← lift (umap_at (table_f1_3dof t) vehicle_name);
    car' ← lift (f1_add_parameter car parameter_path parameter_alias parameter_value);
    put_tables (set_f1 t (<[vehicle_name := car']> (table_f1_3dof t)))
  else if decide (count (table_kart_6dof t) vehicle_name <> 0) then
    car ← lift (umap_at (table_kart_6dof t) vehicle_name);
    car' ← lift (kart_add_parameter car parameter_path parameter_alias parameter_value);
    put_tables (set_kart t (<[vehicle_name := car']> (table_kart_6dof t)))
  else throw (fastest_lap_exception "Vehicle type not recognized").

End Tables.

Arguments tables : clear implicits.
Arguments api : clear implicits.

End Api.

Module Laptime.

(** ** Arrays and vectors

    A [std::array<scalar,N>] or [std::vector<scalar>] is a [list Q];
    [a[j]] is [at_ a j] and row [i] of a vector of arrays is [row m i].
    The sources only index inside the declared sizes. *)

Definition at_ (a : list Q) (j : nat) : Q := nth j a 0%Q.
Definition row (m : list (list Q)) (i : nat) : list Q := nth i m [].

(** [std::vector::back]: undefined on an empty vector. *)
Definition back (v : list Q) : outcome Q :=
  match v with
  | [] => Undefined
  | _ :: _ => Ok (List.last v 0%Q)
  end.

(** The sequence [a[j] = x[k++]] for [j] running over [js]. *)
Fixpoint read_into (a : list Q) (js : list nat) (x : list Q) (k : nat) : list Q :=
  match js with
  | [] => a
  | j :: js' => read_into (<[j := at_ x k]> a) js' x (S k)
  end.

(** ** The dynamic model

    What the transcription uses of [Dynamic_model_t]: the sizes and the two
    road indices, the road of the car, the equations
    [car(q, qa, u, s) = (dqdt, dqa)], the quantities cached by the latest
    call (the extra constraints and the six tire slips read in derivative
    mode), and the bounds. *)
Record Dynamic_model : Type := {
  NSTATE : nat;
  NALGEBRAIC : nat;
  NCONTROL : nat;
  N_OL_EXTRA_CONSTRAINTS : nat;
  ITIME : nat;
  IN : nat;
  track_length : Q;
  get_left_track_limit : Q -> Q;
  get_right_track_limit : Q -> Q;
  equations : list Q -> list Q -> list Q -> Q -> list Q * list Q;
  optimal_laptime_extra_constraints : list Q -> list Q -> list Q -> Q -> list Q;
  tire_slips : list Q -> list Q -> list Q -> Q -> list Q;
  optimal_laptime_control_bounds : list Q * list Q * list Q * list Q;
  optimal_laptime_state_bounds : list Q * list Q;
  optimal_laptime_algebraic_state_bounds : list Q * list Q;
  optimal_laptime_extra_constraints_bounds : list Q * list Q
}.

(** ** The interior-point solver

    [CppAD::ipopt::solve] is third-party code: it receives the options,
    the initial point, the bounds and the function object, and returns a
    status and a point. *)
Inductive status_type : Type :=
| not_defined | success | maxiter_exceeded | stop_at_tiny_step
| stop_at_acceptable_point | local_infeasibility | user_requested_stop
| feasible_point_found | diverging_iterates | restoration_failure
| error_in_step_computation | invalid_number_detected
| too_few_degrees_of_freedom | internal_error | unknown.

#[global] Instance status_type_eq_dec : EqDecision status_type.
Proof. solve_decision. Defined.

Record solve_result : Type := {
  status : status_type;
  x : list Q
}.

Record ipopt_options : Type := {
  print_level : Z;
  sb : string;
  sparse_forward : bool;
  tol : Q;
  constr_viol_tol : Q;
  acceptable_tol : Q
}.

(** The five vectors handed to the solver next to the function object. *)
Record NLP : Type := {
  x0 : list Q;
  x_lb : list Q;
  x_ub : list Q;
  c_lb : list Q;
  c_ub : list Q
}.

Record problem : Type := {
  ipoptoptions : ipopt_options;
  nlp : NLP;
  fg_eval : list Q -> outcome (list Q)
}.

(** The work arrays of the function object [FG]. *)
Record FG : Type := {
  _q : list (list Q);
  _qa : list (list Q);
  _u : list (list Q);
  _dudt : list (list Q);
  _dqdt : list (list Q);
  _dqa : list (list Q)
}.

(** The members of an [Optimal_laptime] object that the solve writes;
    the Cartesian coordinates recomputed next to the time are left out. *)
Record Optimal_laptime : Type := {
  n_elements : nat;
  n_points : nat;
  s : list Q;
  q : list (list Q);
  qa : list (list Q);
  u : list (list Q);
  laptime : Q
}.

Section Transcription.

Variable car : Dynamic_model.

(** The class [FG] is declared in [optimal_laptime.h], which is not among
    the sources at hand. Its work arrays have one row per node (asserted
    when the solution is exported); what they hold before the first call
    is the parameter [fg_init], and the two counts it reports are the
    parameters [n_variables] and [n_constraints], which the asserts of the
    sources compare with the running indices. *)
Variable fg_init : nat -> nat -> Q.
Variable n_variables : nat.
Variable n_constraints : nat.

Variable ipopt_solve : problem -> solve_result.

Definition new_rows (n_points width : nat) : list (list Q) :=
  map (fun i => map (fun j => fg_init i j) (seq 0 width)) (seq 0 n_points).

Definition new_FG (n_points : nat) : FG :=
  {| _q := new_rows n_points (NSTATE car);
     _qa := new_rows n_points (NALGEBRAIC car);
     _u := new_rows n_points (NCONTROL car);
     _dudt := new_rows n_points (NCONTROL car);
     _dqdt := new_rows n_points (NSTATE car);
     _dqa := new_rows n_points (NALGEBRAIC car) |}.

(** The state indices that are decision variables: all but [ITIME], in the
    order of the two loops "before time" and "after time". *)
Definition free_states : list nat :=
  seq 0 (ITIME car) ++ seq (S (ITIME car)) (NSTATE car - S (ITIME car)).

(** First node that carries decision variables. *)
Definition offset (is_closed : bool) : nat := if is_closed then 0 else 1.

Definition nodes (is_closed : bool) (n_points : nat) : list nat :=
  seq (offset is_closed) (n_points - offset is_closed).

(** *** Loading the decision variables into the work arrays *)

(** One pass of the loading loop of [FG_direct::operator()]. The running
    index [k] is threaded through. *)
Definition load_node_direct (x : list Q) (st : nat * FG) (i : nat) : nat * FG :=
  let '(k, fg) := st in
  let qi := read_into (row (_q fg) i) free_states x k in
  let k := k + length free_states in
  let qai := read_into (row (_qa fg) i) (seq 0 (NALGEBRAIC car)) x k in
  let k := k + NALGEBRAIC car in
  let ui := read_into (row (_u fg) i) (seq 0 (NCONTROL car)) x k in
  let k := k + NCONTROL car in
  (k, {| _q := <[i := qi]> (_q fg);
         _qa := <[i := qai]> (_qa fg);
         _u := <[i := ui]> (_u fg);
         _dudt := _dudt fg;
         _dqdt := _dqdt fg;
         _dqa := _dqa fg |}).

(** The same for [FG_derivative::operator()], which also reads the control
    derivatives. *)
Definition load_node_derivative (x : list Q) (st : nat * FG) (i : nat) : nat * FG :=
  let '(k, fg) := load_node_direct x st i in
  let dudti := read_into (row (_dudt fg) i) (seq 0 (NCONTROL car)) x k in
  let k := k + NCONTROL car in
  (k, {| _q := _q fg;
         _qa := _qa fg;
         _u := _u fg;
         _dudt := <[i := dudti]> (_dudt fg);
         _dqdt := _dqdt fg;
         _dqa := _dqa fg |}).

(** Open tracks: node 0 is pinned to the initial condition
    [(q0, qa0, u0)]; in derivative mode its control derivative is zero. *)
Definition pin_first (is_direct : bool) (q0 qa0 u0 : list Q) (fg : FG) : FG :=
  {| _q := <[0%nat := map (at_ q0) (seq 0 (NSTATE car))]> (_q fg);
     _qa := <[0%nat := map (at_ qa0) (seq 0 (NALGEBRAIC car))]> (_qa fg);
     _u := <[0%nat := map (at_ u0) (seq 0 (NCONTROL car))]> (_u fg);
     _dudt := if is_direct then _dudt fg
              else <[0%nat := repeat 0%Q (NCONTROL car)]> (_dudt fg);
     _dqdt := _dqdt fg;
     _dqa := _dqa fg |}.

Definition load_node (x : list Q) (is_direct : bool) : nat * FG -> nat -> nat * FG :=
  if is_direct then load_node_direct x else load_node_derivative x.

(** The loading loop, from [k = 0]. *)
Definition load (is_direct is_closed : bool) (n_points : nat) (q0 qa0 u0 : list Q)
    (fg : FG) (x : list Q) : nat * FG :=
  let fg := if is_closed then fg else pin_first is_direct q0 qa0 u0 fg in
  fold_left (load_node x is_direct) (nodes is_closed n_points) (0%nat, fg).

(** The calls [_car(_q[i], _qa[i], _u[i], _s[i])] at every node. *)
Definition evaluate (n_points : nat) (s : list Q) (fg : FG) : FG :=
  let out := map (fun i => equations car (row (_q fg) i) (row (_qa fg) i)
                             (row (_u fg) i) (at_ s i)) (seq 0 n_points) in
  {| _q := _q fg; _qa := _qa fg; _u := _u fg; _dudt := _dudt fg;
     _dqdt := map fst out;
     _dqa := map snd out |}.

(** *** The constraint function and the objective *)

Section Elements.

Variables (n_points : nat) (s q0 qa0 u0 dissipations : list Q).

(** [_q[i][j] - _q[i-1][j] - 0.5*(_s[i]-_s[i-1])*(_dqdt[i-1][j] + _dqdt[i][j])] *)
Definition defect (fg : FG) (i j : nat) : Q :=
  (at_ (row (_q fg) i) j - at_ (row (_q fg) (i - 1)) j
   - (1 # 2) * (at_ s i - at_ s (i - 1))
     * (at_ (row (_dqdt fg) (i - 1)) j + at_ (row (_dqdt fg) i) j))%Q.

(** The same equation for the implicit element from the last node back to
    the first one, of length [L - _s.back()]. *)
Definition periodic_defect (fg : FG) (j : nat) : Q :=
  let last_node := (n_points - 1)%nat in
  (at_ (row (_q fg) 0) j - at_ (row (_q fg) last_node) j
   - (1 # 2) * (track_length car - List.last s 0)
     * (at_ (row (_dqdt fg) last_node) j + at_ (row (_dqdt fg) 0) j))%Q.

(** Values cached by the car after its call at node [i]. *)
Definition extra_constraints_at (fg : FG) (i : nat) : list Q :=
  optimal_laptime_extra_constraints car (row (_q fg) i) (row (_qa fg) i)
    (row (_u fg) i) (at_ s i).

Definition tire_slips_at (fg : FG) (i : nat) : list Q :=
  tire_slips car (row (_q fg) i) (row (_qa fg) i) (row (_u fg) i) (at_ s i).

(** The control equation of derivative mode. *)
Definition control_defect (fg : FG) (i j : nat) : Q :=
  (at_ (row (_u fg) i) j - at_ (row (_u fg) (i - 1)) j
   - (1 # 2) * (at_ s i - at_ s (i - 1))
     * (at_ (row (_dudt fg) (i - 1)) j * at_ (row (_dqdt fg) (i - 1)) (ITIME car)
        + at_ (row (_dudt fg) i) j * at_ (row (_dqdt fg) i) (ITIME car)))%Q.

Definition periodic_control_defect (fg : FG) (j : nat) : Q :=
  let last_node := (n_points - 1)%nat in
  (at_ (row (_u fg) 0) j - at_ (row (_u fg) last_node) j
   - (1 # 2) * (track_length car - List.last s 0)
     * (at_ (row (_dudt fg) last_node) j * at_ (row (_dqdt fg) last_node) (ITIME car)
        + at_ (row (_dudt fg) 0) j * at_ (row (_dqdt fg) 0) (ITIME car)))%Q.

(** The entries [fg[k++]] written for element [i] in direct mode. *)
Definition element_direct (fg : FG) (i : nat) : list Q :=
  map (defect fg i) free_states
  ++ map (at_ (row (_dqa fg) i)) (seq 0 (NALGEBRAIC car))
  ++ map (at_ (extra_constraints_at fg i)) (seq 0 (N_OL_EXTRA_CONSTRAINTS car)).

Definition periodic_direct (fg : FG) : list Q :=
  map (periodic_defect fg) free_states
  ++ map (at_ (row (_dqa fg) 0)) (seq 0 (NALGEBRAIC car))
  ++ map (at_ (extra_constraints_at fg 0)) (seq 0 (N_OL_EXTRA_CONSTRAINTS car)).

(** The entries written for element [i] in derivative mode: the six tire
    slips are written one by one. *)
Definition element_derivative (fg : FG) (i : nat) : list Q :=
  map (defect fg i) free_states
  ++ map (at_ (row (_dqa fg) i)) (seq 0 (NALGEBRAIC car))
  ++ map (at_ (tire_slips_at fg i)) (seq 0 6)
  ++ map (control_defect fg i) (seq 0 (NCONTROL car)).

Definition periodic_derivative (fg : FG) : list Q :=
  map (periodic_defect fg) free_states
  ++ map (at_ (row (_dqa fg) 0)) (seq 0 (NALGEBRAIC car))
  ++ map (at_ (tire_slips_at fg 0)) (seq 0 6)
  ++ map (periodic_control_defect fg) (seq 0 (NCONTROL car)).

(** [0.5*(_s[i]-_s[i-1])*(_dqdt[i-1][ITIME] + _dqdt[i][ITIME])] *)
Definition time_element (fg : FG) (i : nat) : Q :=
  ((1 # 2) * (at_ s i - at_ s (i - 1))
   * (at_ (row (_dqdt fg) (i - 1)) (ITIME car) + at_ (row (_dqdt fg) i) (ITIME car)))%Q.

Definition periodic_time_element (fg : FG) : Q :=
  ((1 # 2) * (track_length car - List.last s 0)
   * (at_ (row (_dqdt fg) 0) (ITIME car)
      + at_ (row (_dqdt fg) (n_points - 1)) (ITIME car)))%Q.

(** Penalisation of the controls over element [i], control [j]. The
    scalars of the sources are floating-point numbers and are rationals
    here: over an element of length zero the quotient of the source is not
    a number (and neither is then [fg[0]]), where the quotient of the
    rationals is zero. The value below is the one of the source for
    elements that have a length. *)
Definition penalty_direct (fg : FG) (i j : nat) : Q :=
  let derivative :=
    ((at_ (row (_u fg) i) j - at_ (row (_u fg) (i - 1)) j) / (at_ s i - at_ s (i - 1)))%Q in
  (at_ dissipations j * (derivative * derivative) * (at_ s i - at_ s (i - 1)))%Q.

(** The same over the implicit last element of a closed track, of length
    [L - _s.back()], and with the same proviso when that length is zero. *)
Definition periodic_penalty_direct (fg : FG) (j : nat) : Q :=
  let derivative :=
    ((at_ (row (_u fg) 0) j - at_ (row (_u fg) (n_points - 1)) j)
     / (track_length car - List.last s 0))%Q in
  (at_ dissipations j * (derivative * derivative) * (track_length car - List.last s 0))%Q.

Definition penalty_derivative (fg : FG) (i j : nat) : Q :=
  (at_ dissipations j * (at_ (row (_dudt fg) i) j * at_ (row (_dudt fg) i) j)
   * (at_ s i - at_ s (i - 1)))%Q.

Definition periodic_penalty_derivative (fg : FG) (j : nat) : Q :=
  (at_ dissipations j * (at_ (row (_dudt fg) 0) j * at_ (row (_dudt fg) 0) j)
   * (track_length car - List.last s 0))%Q.

(** [fg[0]]: the additions in the order the operator performs them. *)
Definition objective (is_direct is_closed : bool) (fg : FG) : Q :=
  let elements := seq 1 (n_points - 1) in
  let controls := seq 0 (NCONTROL car) in
  let f0 := fold_left (fun acc i => (acc + time_element fg i)%Q) elements 0%Q in
  let f1 :=
    fold_left
      (fun acc i =>
         fold_left
           (fun acc j =>
              (acc + (if is_direct then penalty_direct fg i j
                      else penalty_derivative fg i j))%Q)
           controls acc)
      elements f0 in
  if is_closed then
    fold_left
      (fun acc j =>
         (acc + (if is_direct then periodic_penalty_direct fg j
                 else periodic_penalty_derivative fg j))%Q)
      controls (f1 + periodic_time_element fg)%Q
  else f1.

(** The part of [fg[0]] that penalises the controls: the additions of the
    objective that are not time elements, in the same order. *)
Definition penalties (is_direct is_closed : bool) (fg : FG) : Q :=
  let elements := seq 1 (n_points - 1) in
  let controls := seq 0 (NCONTROL car) in
  let f1 :=
    fold_left
      (fun acc i =>
         fold_left
           (fun acc j =>
              (acc + (if is_direct then penalty_direct fg i j
                      else penalty_derivative fg i j))%Q)
           controls acc)
      elements 0%Q in
  if is_closed then
    fold_left
      (fun acc j =>
         (acc + (if is_direct then periodic_penalty_direct fg j
                 else periodic_penalty_derivative fg j))%Q)
      controls f1
  else f1.

Definition constraints (is_direct is_closed : bool) (fg : FG) : list Q :=
  flat_map (if is_direct then element_direct fg else element_derivative fg)
           (seq 1 (n_points - 1))
  ++ (if is_closed
      then (if is_direct then periodic_direct fg else periodic_derivative fg)
      else []).

(** [FG_direct::operator()] and [FG_derivative::operator()]: the vector
    [fg] that is filled and the work arrays that are left. A failed assert,
    or the read of node 0 when there is no node, ends the run outside the
    modelled behaviour. *)
Definition FG_call (is_direct is_closed : bool) (fg : FG) (x : list Q)
  : outcome (list Q * FG) :=
  if decide (length x <> n_variables \/ n_points = 0%nat) then Undefined
  else
    let '(k, fg) := load is_direct is_closed n_points q0 qa0 u0 fg x in
    if decide (k <> n_variables) then Undefined
    else
      let fg := evaluate n_points s fg in
      let c := constraints is_direct is_closed fg in
      if decide (S (length c) <> S n_constraints) then Undefined
      else Ok (objective is_direct is_closed fg :: c, fg).

End Elements.

(** *** Bounds and initial point, [compute_direct] and [compute_derivative] *)

Section Solve.

Variable this : Optimal_laptime.
Variable print_level_option : Z.

Definition q_lb : list Q := fst (optimal_laptime_state_bounds car).
Definition q_ub : list Q := snd (optimal_laptime_state_bounds car).
Definition qa_lb : list Q := fst (optimal_laptime_algebraic_state_bounds car).
Definition qa_ub : list Q := snd (optimal_laptime_algebraic_state_bounds car).
Definition c_extra_lb : list Q := fst (optimal_laptime_extra_constraints_bounds car).
Definition c_extra_ub : list Q := snd (optimal_laptime_extra_constraints_bounds car).
Definition u_lb : list Q :=
  let '(lb, _, _, _) := optimal_laptime_control_bounds car in lb.
Definition u_ub : list Q :=
  let '(_, ub, _, _) := optimal_laptime_control_bounds car in ub.
Definition dudt_lb : list Q :=
  let '(_, _, lb, _) := optimal_laptime_control_bounds car in lb.
Definition dudt_ub : list Q :=
  let '(_, _, _, ub) := optimal_laptime_control_bounds car in ub.

(** The state part of one node: the loop up to [ITIME], the entry for
    [IN], the loop from [IN+1]. [f] gives the entry of a plain state and
    [n] the entry of the lateral offset. *)
Definition state_block {A : Type} (f : nat -> A) (n : A) : list A :=
  map f (seq 0 (ITIME car)) ++ [n] ++ map f (seq (S (IN car)) (NSTATE car - S (IN car))).

Definition x0_node (is_direct : bool) (i : nat) : list Q :=
  state_block (at_ (row (q this) i)) (at_ (row (q this) i) (IN car))
  ++ map (at_ (row (qa this) i)) (seq 0 (NALGEBRAIC car))
  ++ map (at_ (row (u this) i)) (seq 0 (NCONTROL car))
  ++ (if is_direct then [] else repeat 0%Q (NCONTROL car)).

Definition x_lb_node (is_direct : bool) (i : nat) : list Q :=
  state_block (at_ q_lb) (- get_left_track_limit car (at_ (s this) i))%Q
  ++ map (at_ qa_lb) (seq 0 (NALGEBRAIC car))
  ++ map (at_ u_lb) (seq 0 (NCONTROL car))
  ++ (if is_direct then [] else map (at_ dudt_lb) (seq 0 (NCONTROL car))).

Definition x_ub_node (is_direct : bool) (i : nat) : list Q :=
  state_block (at_ q_ub) (get_right_track_limit car (at_ (s this) i))
  ++ map (at_ qa_ub) (seq 0 (NALGEBRAIC car))
  ++ map (at_ u_ub) (seq 0 (NCONTROL car))
  ++ (if is_direct then [] else map (at_ dudt_ub) (seq 0 (NCONTROL car))).

(** Constraint bounds of one node: zeros for the equalities, the model
    bounds for the extra constraints; derivative mode appends the zeros of
    the control equations. *)
Definition c_node (is_direct : bool) (extra : list Q) : list Q :=
  state_block (fun _ => 0%Q) 0%Q
  ++ repeat 0%Q (NALGEBRAIC car)
  ++ map (at_ extra) (seq 0 (N_OL_EXTRA_CONSTRAINTS car))
  ++ (if is_direct then [] else repeat 0%Q (NCONTROL car)).

(** The loop that fills [x0], [x_lb], [x_ub], [c_lb] and [c_ub], with its
    asserts: [ITIME == IN - 1] in every pass, and the two running indices
    against the counts of [FG] at the end. *)
Definition assemble (is_direct is_closed : bool) : outcome NLP :=
  let ns := nodes is_closed (n_points this) in
  let out :=
    {| x0 := flat_map (x0_node is_direct) ns;
       x_lb := flat_map (x_lb_node is_direct) ns;
       x_ub := flat_map (x_ub_node is_direct) ns;
       c_lb := flat_map (fun _ => c_node is_direct c_extra_lb) ns;
       c_ub := flat_map (fun _ => c_node is_direct c_extra_ub) ns |} in
  if decide (ns <> [] /\ S (ITIME car) <> IN car) then Undefined
  else if decide (length (x_lb out) <> n_variables) then Undefined
  else if decide (length (c_lb out) <> n_constraints) then Undefined
  else Ok out.

Definition options_of (level : Z) : ipopt_options :=
  {| print_level := level;
     sb := "yes";
     sparse_forward := true;
     tol := 1 # 10000000000;
     constr_viol_tol := 1 # 10000000000;
     acceptable_tol := 1 # 100000000 |}.

(** [q[i][j] = Value(fg.get_state(i)[j])] and the two similar loops. *)
Definition export (rows : list (list Q)) (width : nat) : list (list Q) :=
  map (fun i => map (at_ (row rows i)) (seq 0 width)) (seq 0 (n_points this)).

(** [dtimeds] as the post-processing evaluates it: the [ITIME] entry of
    the car equations at the solved node [i]. Node 0 is evaluated at
    arclength [0.0], the others at [s[i]]. *)
Definition dtimeds (fg : FG) (i : nat) : Q :=
  at_ (fst (equations car (row (_q fg) i) (row (_qa fg) i) (row (_u fg) i)
              (match i with O => 0%Q | S _ => at_ (s this) i end)))
      (ITIME car).

(** One pass of the loop that recovers the elapsed time. *)
Definition recover_step (fg : FG) (st : list (list Q) * Q) (i : nat)
  : list (list Q) * Q :=
  let '(q, dtimeds_prev) := st in
  let dtimeds_i := dtimeds fg i in
  let time :=
    (at_ (row q (i - 1)) (ITIME car)
     + (1 # 2) * (at_ (s this) i - at_ (s this) (i - 1)) * (dtimeds_i + dtimeds_prev))%Q in
  (<[i := <[ITIME car := time]> (row q i)]> q, dtimeds_i).

Definition recover_time (fg : FG) (q : list (list Q)) : list (list Q) * Q :=
  fold_left (recover_step fg) (seq 1 (length (_q fg) - 1)) (q, dtimeds fg 0).

(** The wrap-around term added to [laptime] on closed tracks:
    [compute_direct] multiplies the two derivatives, [compute_derivative]
    adds them. *)
Definition closing_term (is_direct : bool) (L s_back dtimeds_prev dtimeds_first : Q) : Q :=
  if is_direct then ((1 # 2) * (L - s_back) * (dtimeds_prev * dtimeds_first))%Q
  else ((1 # 2) * (L - s_back) * (dtimeds_prev + dtimeds_first))%Q.

(** The function object of this solve, applied to work arrays [fg]. *)
Definition call (is_direct is_closed : bool) (dissipations : list Q) (fg : FG)
    (x : list Q) : outcome (list Q * FG) :=
  FG_call (n_points this) (s this) (row (q this) 0) (row (qa this) 0)
    (row (u this) 0) dissipations is_direct is_closed fg x.

(** The call of the solver. *)
Definition solver_result (is_direct is_closed : bool) (dissipations : list Q)
    (bounds : NLP) : solve_result :=
  ipopt_solve
    {| ipoptoptions := options_of print_level_option;
       nlp := bounds;
       fg_eval := fun x =>
         fst <$> call is_direct is_closed dissipations (new_FG (n_points this)) x |}.

(** Everything after the last evaluation of the function object: the
    export of the work arrays [fg], the elapsed time and the lap time. *)
Definition finish (is_direct is_closed : bool) (fg : FG) : outcome Optimal_laptime :=
  if decide (length (_q fg) <> n_points this \/ length (_qa fg) <> n_points this
             \/ length (_u fg) <> n_points this) then Undefined
  else
    let '(q, dtimeds_prev) := recover_time fg (export (_q fg) (NSTATE car)) in
    let time_back := at_ (List.last q []) (ITIME car) in
    laptime ←
      (if is_closed then
         s_back ← back (s this);
         Ok (time_back
             + closing_term is_direct (track_length car) s_back dtimeds_prev
                 (dtimeds fg 0))%Q
       else Ok time_back);
    Ok {| n_elements := n_elements this;
          n_points := n_points this;
          s := s this;
          q := q;
          qa := export (_qa fg) (NALGEBRAIC car);
          u := export (_u fg) (NCONTROL car);
          laptime := laptime |}.

(** The work arrays after the function object has been evaluated at the
    point returned by the solver ([fg(fg_final, x_final)]). Every entry
    the solver's own evaluations wrote is written again by this one. *)
Definition solved (is_direct is_closed : bool) (dissipations : list Q) : outcome FG :=
  bounds ← assemble is_direct is_closed;
  '(_, fg) ← call is_direct is_closed dissipations (new_FG (n_points this))
               (x (solver_result is_direct is_closed dissipations bounds));
  Ok fg.

(** [compute_direct<is_closed>] ([is_direct = true]) and
    [compute_derivative<is_closed>] ([is_direct = false]). *)
Definition compute_mode (is_direct is_closed : bool) (dissipations : list Q)
  : outcome Optimal_laptime :=
  bounds ← assemble is_direct is_closed;
  let result := solver_result is_direct is_closed dissipations bounds in
  if decide (status result <> success) then
    Throw (runtime_error "Optimization did not succeed")
  else
    '(_, fg) ← call is_direct is_closed dissipations (new_FG (n_points this)) (x result);
    finish is_direct is_closed fg.

(** [compute]; the state and control names it reads from the car afterwards
    are not modelled. *)
Definition compute (is_closed is_direct : bool) (dissipations : list Q)
  : outcome Optimal_laptime :=
  compute_mode is_direct is_closed dissipations.

End Solve.

(** *** The layout of variables and constraints

    The running indices [k] and [kc] of the sources advance by fixed
    amounts per node; the names below spell these amounts out. *)

(** Decision variables per node. *)
Definition variables_per_node (is_direct : bool) : nat :=
  (length free_states + NALGEBRAIC car + NCONTROL car
   + (if is_direct then 0 else NCONTROL car))%nat.

(** Constraints written per element by the function object. *)
Definition constraints_per_element (is_direct : bool) : nat :=
  (length free_states + NALGEBRAIC car
   + (if is_direct then N_OL_EXTRA_CONSTRAINTS car else 6 + NCONTROL car))%nat.

(** Position of the free state [j] inside the state part of a node. *)
Definition position (j : nat) : nat := if (j <? ITIME car)%nat then j else (j - 1)%nat.

(** Index, among the constraints, of the defect of state [j] over element
    [i]; entry [0] of the vector [fg] is the objective, so the defect is
    entry [S (constraint_index i j)] of [fg]. *)
Definition constraint_index (is_direct : bool) (i j : nat) : nat :=
  ((i - 1) * constraints_per_element is_direct + position j)%nat.

(** Index, among the decision variables, of the free state [j] of node [i]. *)
Definition variable_index (is_direct is_closed : bool) (i j : nat) : nat :=
  ((i - offset is_closed) * variables_per_node is_direct + position j)%nat.

(** Index, among the constraints, of the algebraic equation [j] of element
    [i], of its extra constraint [j], and of its control equation [j] in
    derivative mode, which come in this order after the defects. *)
Definition algebraic_constraint_index (is_direct : bool) (i j : nat) : nat :=
  ((i - 1) * constraints_per_element is_direct + length free_states + j)%nat.

Definition extra_constraint_index (is_direct : bool) (i j : nat) : nat :=
  ((i - 1) * constraints_per_element is_direct + length free_states
   + NALGEBRAIC car + j)%nat.

Definition control_constraint_index (i j : nat) : nat :=
  ((i - 1) * constraints_per_element false + length free_states
   + NALGEBRAIC car + 6 + j)%nat.

(** Index of the periodicity defect of state [j]: the block that follows
    those of the [n_points - 1] elements. *)
Definition periodic_constraint_index (is_direct : bool) (n_points j : nat) : nat :=
  ((n_points - 1) * constraints_per_element is_direct + position j)%nat.

(** *** Constructors *)

(** The vector members of the object when a constructor body starts: they
    are default-constructed, that is, empty. *)
Definition unassigned : Optimal_laptime :=
  {| n_elements := 0; n_points := 0; s := []; q := []; qa := []; u := []; laptime := 0 |}.

(** [linspace(a, b, n)] of the numerics library: [n] equally spaced values
    from [a] to [b]. *)
Definition linspace (a b : Q) (n : nat) : list Q :=
  map (fun i => (a + (b - a) * inject_Z (Z.of_nat i) / inject_Z (Z.of_nat (n - 1)))%Q)
      (seq 0 n).

(** Constructor from the number of elements [n]. *)
Definition Optimal_laptime_n (n : nat) (is_closed is_direct : bool)
    (q0 qa0 u0 dissipations : list Q) (level : Z) : outcome Optimal_laptime :=
  let n_points := if is_closed then n else S n in
  let L := track_length car in
  let ds := (L / inject_Z (Z.of_nat n))%Q in
  let s := map (fun i => match i with
                         | O => 0%Q
                         | S _ => (inject_Z (Z.of_nat i) * ds)%Q
                         end) (seq 0 n_points) in
  let s := if is_closed then s else <[(n_points - 1)%nat := L]> s in
  compute {| n_elements := n; n_points := n_points; s := s;
             q := repeat q0 n_points; qa := repeat qa0 n_points;
             u := repeat u0 n_points; laptime := 0 |}
          level is_closed is_direct dissipations.

(** The checks on a given arclength vector shared by the two constructors
    that take one. *)
Definition verify_arclength (s : list Q) (is_closed : bool) : outcome unit :=
  let L := track_length car in
  if decide (length s <= 1)%nat then
    Throw (runtime_error "Provide at least two values of arclength")
  else if is_closed then
    if Qlt_le_dec (1 # 1000000000000) (Qabs (at_ s 0)) then
      Throw (runtime_error "In closed circuits, s[0] should be 0.0")
    else if Qlt_le_dec (L - (1 # 10000000000)) (List.last s 0%Q) then
      Throw (runtime_error "In closed circuits, s[end] should be < track_length")
    else Ok tt
  else
    if Qlt_le_dec (at_ s 0) (- (1 # 1000000000000)) then
      Throw (runtime_error "s[0] must be >= 0")
    else if Qlt_le_dec L (List.last s 0%Q) then
      Throw (runtime_error "s[end] must be <= L")
    else Ok tt.

(** Constructor from an arclength vector and one initial state. On closed
    tracks both ends of the vector are overwritten, by [0] and by [L]. *)
Definition Optimal_laptime_s (s_ : list Q) (is_closed is_direct : bool)
    (q0 qa0 u0 dissipations : list Q) (level : Z) : outcome Optimal_laptime :=
  verify_arclength s_ is_closed ;;
  let n_points := length s_ in
  let s := if is_closed
           then <[(n_points - 1)%nat := track_length car]> (<[0%nat := 0%Q]> s_)
           else s_ in
  compute {| n_elements := if is_closed then n_points else (n_points - 1)%nat;
             n_points := n_points; s := s;
             q := repeat q0 n_points; qa := repeat qa0 n_points;
             u := repeat u0 n_points; laptime := 0 |}
          level is_closed is_direct dissipations.

(** Constructor from [(s_start, s_finish, n)]. The second check reads
    [s.back()] before [s] is assigned. *)
Definition Optimal_laptime_interval (s_start s_finish : Q) (n : nat) (is_direct : bool)
    (q0 qa0 u0 dissipations : list Q) (level : Z) : outcome Optimal_laptime :=
  if Qlt_le_dec s_start (- (1 # 1000000000000)) then
    Throw (runtime_error "s_start must be >= 0")
  else
    s_back ← back (s unassigned);
    if Qlt_le_dec (track_length car) s_back then
      Throw (runtime_error "s_finish must be <= L")
    else
      compute {| n_elements := n; n_points := S n;
                 s := linspace s_start s_finish (S n);
                 q := repeat q0 (S n); qa := repeat qa0 (S n);
                 u := repeat u0 (S n); laptime := 0 |}
              level false is_direct dissipations.

(** Constructor from an arclength vector and one initial state per node. *)
Definition Optimal_laptime_warm (s_ : list Q) (is_closed is_direct : bool)
    (q0 qa0 u0 : list (list Q)) (dissipations : list Q) (level : Z)
  : outcome Optimal_laptime :=
  verify_arclength s_ is_closed ;;
  let n_points := length s_ in
  let s := if is_closed then <[0%nat := 0%Q]> s_ else s_ in
  if decide (length q0 <> n_points) then
    Throw (runtime_error "q0 must have size of n_points")
  else if decide (length qa0 <> n_points) then
    Throw (runtime_error "qa0 must have size of n_points")
  else if decide (length u0 <> n_points) then
    Throw (runtime_error "u0 must have size of n_points")
  else
    compute {| n_elements := if is_closed then n_points else (n_points - 1)%nat;
               n_points := n_points; s := s; q := q0; qa := qa0; u := u0;
               laptime := 0 |}
            level is_closed is_direct dissipations.

End Transcription.

End Laptime.

(** ** Concrete instances

    A small dynamic model, two solvers and a small registry, used to run
    the definitions above on explicit inputs. *)
Module Examples.

Import Laptime.

(** Three states (a speed, the time and the lateral offset), one algebraic
    state, one control and six extra constraints. The time derivative
    depends on the arclength and on the lateral offset. *)
Definition toy_car : Dynamic_model :=
  {| NSTATE := 3;
     NALGEBRAIC := 1;
     NCONTROL := 1;
     N_OL_EXTRA_CONSTRAINTS := 6;
     ITIME := 1;
     IN := 2;
     track_length := 10;
     get_left_track_limit := fun s => (2 + s)%Q;
     get_right_track_limit := fun s => (3 + s)%Q;
     equations := fun q qa u s =>
       ([at_ u 0; (1 + s + at_ q 2)%Q; at_ q 0], [(at_ qa 0 - 1)%Q]);
     optimal_laptime_extra_constraints := fun q qa u s => repeat (at_ q 0) 6;
     tire_slips := fun q qa u s => repeat (at_ q 0) 6;
     optimal_laptime_control_bounds := ([(-1)%Q], [1%Q], [(-10)%Q], [10%Q]);
     optimal_laptime_state_bounds := ([-100; 0; -50]%Q, [100; 1000; 50]%Q);
     optimal_laptime_algebraic_state_bounds := ([0%Q], [5%Q]);
     optimal_laptime_extra_constraints_bounds :=
       (repeat (- (11 # 100))%Q 6, repeat (11 # 100)%Q 6) |}.

(** A solver that stops at its initial point with the given status. *)
Definition echo_solver (st : status_type) (p : problem) : solve_result :=
  {| status := st; x := x0 (nlp p) |}.

Definition zero_init (i j : nat) : Q := 0.

(** Three nodes at [s = 0, 2, 4] on the track of length 10. *)
Definition three_nodes : Optimal_laptime :=
  {| n_elements := 3;
     n_points := 3;
     s := [0; 2; 4]%Q;
     q := [[1; 0; 0]; [2; 0; 1]; [3; 0; 2]]%Q;
     qa := [[1]; [1]; [1]]%Q;
     u := [[0]; [0]; [0]]%Q;
     laptime := 0 |}.

(** An open mesh that does not start at the origin. *)
Definition two_nodes_open : Optimal_laptime :=
  {| n_elements := 1;
     n_points := 2;
     s := [1; 2]%Q;
     q := [[1; 0; 0]; [2; 0; 1]]%Q;
     qa := [[1]; [1]]%Q;
     u := [[0]; [0]]%Q;
     laptime := 0 |}.

Definition toy_dissipations : list Q := [1 # 100]%Q.

(** The value of an outcome that is known to be [Ok]. *)
Definition from_ok {A : Type} (d : A) (m : outcome A) : A :=
  match m with Ok a => a | _ => d end.

Definition no_bounds : NLP := {| x0 := []; x_lb := []; x_ub := []; c_lb := []; c_ub := [] |}.

(** The closed problem on [three_nodes] in direct mode: 4 variables and 9
    constraints per node. *)
Definition direct_bounds : NLP :=
  from_ok no_bounds (assemble toy_car 12 27 three_nodes true true).

Definition direct_call : list Q * FG :=
  from_ok ([], new_FG toy_car zero_init 3)
    (call toy_car 12 27 three_nodes true true toy_dissipations
       (new_FG toy_car zero_init 3) (x0 direct_bounds)).

Definition direct_run : Optimal_laptime :=
  from_ok three_nodes
    (compute toy_car zero_init 12 27 (echo_solver success) three_nodes 0 true true
       toy_dissipations).

Definition direct_solved : FG :=
  from_ok (new_FG toy_car zero_init 3)
    (solved toy_car zero_init 12 27 (echo_solver success) three_nodes 0 true true
       toy_dissipations).

(** The same problem in derivative mode: 5 variables and 10 constraints
    per node. *)
Definition derivative_bounds : NLP :=
  from_ok no_bounds (assemble toy_car 15 30 three_nodes false true).

Definition derivative_call : list Q * FG :=
  from_ok ([], new_FG toy_car zero_init 3)
    (call toy_car 15 30 three_nodes false true toy_dissipations
       (new_FG toy_car zero_init 3) (x0 derivative_bounds)).

Definition derivative_run : Optimal_laptime :=
  from_ok three_nodes
    (compute toy_car zero_init 15 30 (echo_solver success) three_nodes 0 true false
       toy_dissipations).

Definition derivative_solved : FG :=
  from_ok (new_FG toy_car zero_init 3)
    (solved toy_car zero_init 15 30 (echo_solver success) three_nodes 0 false true
       toy_dissipations).

(** The open problem on [two_nodes_open] in direct mode, built by the
    constructor that takes one initial state per node: one node with 4
    variables and one element with 9 constraints. *)
Definition open_run : Optimal_laptime :=
  from_ok two_nodes_open
    (Optimal_laptime_warm toy_car zero_init 4 9 (echo_solver success)
       (s two_nodes_open) false true (q two_nodes_open) (qa two_nodes_open)
       (u two_nodes_open) toy_dissipations 0).

Import Api.

(** Both toy models have three states and one algebraic state. *)
Definition toy_sizes : Model_sizes :=
  {| NSTATE := fun _ => 3%nat; NALGEBRAIC := fun _ => 1%nat |}.

(** The seed speed handed to the solver is recorded as the lap time, so
    that it can be read back from the tables; the trajectory has [n] nodes
    and the value of every variable at node [i] is [i]. *)
Definition speed_recorder (v : Q) (n : nat) : Optimal_laptime_output :=
  {| Api.laptime := v;
     dlaptimedp := [];
     integral_quantities := [];
     Api.q := repeat [50; 0; 0]%Q n;
     Api.qa := repeat [1%Q] n;
     control_array_at_s := fun _ _ => [0; 0]%Q;
     node_value := fun _ i => inject_Z (Z.of_nat i);
     dqdp_u := fun _ _ => 0%Q;
     dqdp_time := fun _ _ => 0%Q |}.

(** A registry whose vehicles and tracks carry no data. *)
Definition toy_vehicle (k : vehicle_kind) (names : list string) : @Vehicle unit unit :=
  {| kind := k;
     u_names := names;
     integral_quantities_names := [];
     integral_quantities_names_text := EmptyString;
     change_track := fun car _ => car;
     evaluate := fun car _ _ _ _ => car;
     get_all_parameters_aliases := fun _ => [];
     solve_optimal_laptime := fun _ v _ n _ => Ok (speed_recorder v n);
     steady_state_gg_diagram := fun _ _ n =>
       Ok (repeat (1, 1)%Q n, repeat (1, -1)%Q n) |}.

(** An f1 car that is the list of the arclengths at which its scalar car
    has been evaluated, latest first. *)
Definition logging_f1 : @Vehicle unit (list Q) :=
  {| kind := limebeer2014f1_all;
     u_names := ["delta"; "throttle"; "brake-bias"];
     integral_quantities_names := [];
     integral_quantities_names_text := EmptyString;
     change_track := fun car _ => car;
     evaluate := fun car _ _ _ s => s :: car;
     get_all_parameters_aliases := fun _ => [];
     solve_optimal_laptime := fun _ v _ n _ => Ok (speed_recorder v n);
     steady_state_gg_diagram := fun _ _ n =>
       Ok (repeat (1, 1)%Q n, repeat (1, -1)%Q n) |}.

Definition toy_kart : @Vehicle unit unit :=
  toy_vehicle lot2016kart_all ["delta"; "torque"].
Definition toy_f1 : @Vehicle unit unit :=
  toy_vehicle limebeer2014f1_all ["delta"; "throttle"; "brake-bias"].

Definition toy_set_parameter (car : unit) (parameter : string) (value : Q)
  : outcome unit := Ok car.

Definition empty_tables : tables unit unit unit := Tables ∅ ∅ ∅ ∅ ∅.

Definition leaf (name : string) (v : Xml_value) : Xml_element :=
  {| get_name := name; element_value := v; get_attributes := [];
     get_children_names := [] |}.

Definition node (name : string) (children : list string) : Xml_element :=
  {| get_name := name; element_value := Xml_text EmptyString; get_attributes := [];
     get_children_names := children |}.

(** [<options> <steady_state_speed>80</steady_state_speed>
     <initial_speed>30</initial_speed> <output_variables> <prefix>run/</prefix>
     <variables> <laptime/> </variables> </output_variables> </options>] *)
Definition speed_options : Xml_document :=
  list_to_map
    [("options", node "options" ["steady_state_speed"; "initial_speed"; "output_variables"]);
     ("options/steady_state_speed", leaf "steady_state_speed" (Xml_number 80));
     ("options/initial_speed", leaf "initial_speed" (Xml_number 30));
     ("options/output_variables", node "output_variables" ["prefix"; "variables"]);
     ("options/output_variables/prefix", leaf "prefix" (Xml_text "run/"));
     ("options/output_variables/variables", node "variables" ["laptime"]);
     ("options/output_variables/variables/laptime", leaf "laptime" (Xml_text EmptyString))].

(** One f1 car and one track. *)
Definition paddock : tables unit unit unit :=
  Tables ∅ {["car" := tt]} {["catalunya" := tt]} ∅ ∅.

(** The registry of the car that keeps a log, not yet evaluated. *)
Definition logbook : tables unit (list Q) unit :=
  Tables ∅ {["car" := []]} {["catalunya" := tt]} ∅ ∅.

(** [<options> <output_variables> <prefix>run/</prefix>
     <variables> <laptime/> <u/> <v/> </variables> </output_variables> </options>] *)
Definition node_options : Xml_document :=
  list_to_map
    [("options", node "options" ["output_variables"]);
     ("options/output_variables", node "output_variables" ["prefix"; "variables"]);
     ("options/output_variables/prefix", leaf "prefix" (Xml_text "run/"));
     ("options/output_variables/variables", node "variables" ["laptime"; "u"; "v"]);
     ("options/output_variables/variables/laptime", leaf "laptime" (Xml_text EmptyString));
     ("options/output_variables/variables/u", leaf "u" (Xml_text EmptyString));
     ("options/output_variables/variables/v", leaf "v" (Xml_text EmptyString))].

(** Kilometres per hour in metres per second. *)
Definition toy_KMH : Q := 5 # 18.

(** The same with a second track, whose name is the one under which a
    solve stores its lap time. *)
Definition garage : tables unit unit unit :=
  Tables ∅ {["car" := tt]} {["catalunya" := tt; "run/laptime" := tt]} ∅ ∅.

(** A registry that already holds a scalar called [catalunya]. *)
Definition with_scalar : tables unit unit unit :=
  Tables ∅ ∅ ∅ {["catalunya" := 4655%Q]} ∅.

(** Options of the preprocessor: closed track, 100 elements, the result
    stored in the track table as [catalunya]. *)
Definition preprocessor_options : Xml_document :=
  list_to_map
    [("options", node "options" ["kml_files"; "mode"; "is_closed"; "number_of_elements";
                                 "insert_table_name"]);
     ("options/kml_files", node "kml_files" ["left"; "right"]);
     ("options/kml_files/left", leaf "left" (Xml_text "left.kml"));
     ("options/kml_files/right", leaf "right" (Xml_text "right.kml"));
     ("options/mode", leaf "mode" (Xml_text "equally-spaced"));
     ("options/is_closed", leaf "is_closed" (Xml_bool true));
     ("options/number_of_elements", leaf "number_of_elements" (Xml_number 100));
     ("options/insert_table_name", leaf "insert_table_name" (Xml_text "catalunya"))].

Definition toy_circuit : Circuit_preprocessor :=
  {| cp_s := [0; 1]%Q;
     r_centerline := [(0, 0); (1, 0)]%Q;
     r_left := [(0, 1); (1, 1)]%Q;
     r_right := [(0, -1); (1, -1)]%Q;
     r_left_measured := [(0, 1); (1, 1)]%Q;
     r_right_measured := [(0, -1); (1, -1)]%Q;
     kappa := [0; 0]%Q;
     nl := [1; 1]%Q;
     nr := [1; 1]%Q |}.

Definition toy_open_kml (file : string) : outcome string := Ok file.
Definition toy_preprocessor (l r : string) (conf : Circuit_preprocessor_configuration)
  : outcome Circuit_preprocessor := Ok toy_circuit.
Definition toy_track (c : Circuit_preprocessor) : unit := tt.

(** Files whose root element announces an f1 car and a discrete track, and
    vehicle accessors that carry no data. *)
Definition toy_open_database (file : string) : outcome string := Ok file.
Definition toy_root_attribute (database attribute : string) : outcome string :=
  if String.eqb attribute "type" then Ok "f1-3dof" else Ok "discrete".
Definition toy_of_database (database : string) : outcome unit := Ok tt.
Definition toy_value (car : unit) (q qa u : list Q) (name : string) : Q := at_ q 0.
Definition toy_add_parameter (car : unit) (path alias : string) (value : Q)
  : outcome unit := Ok car.

Definition from_table (name table_name : string) : Xml_element :=
  {| get_name := name; element_value := Xml_text EmptyString;
     get_attributes := [("from_table", table_name)];
     get_children_names := [] |}.

(** Options of an open simulation whose initial condition is read from
    the vectors [start/q], [start/qa] and [start/u]. *)
Definition open_options : Xml_document :=
  list_to_map
    [("options", node "options" ["closed_simulation"; "initial_condition"]);
     ("options/closed_simulation", leaf "closed_simulation" (Xml_bool false));
     ("options/initial_condition", node "initial_condition" ["q"; "qa"; "u"]);
     ("options/initial_condition/q", from_table "q" "start/q");
     ("options/initial_condition/qa", from_table "qa" "start/qa");
     ("options/initial_condition/u", from_table "u" "start/u")].

Definition start_vectors : gmap string (list Q) :=
  {["start/q" := [50; 0; 0]%Q; "start/qa" := [1%Q]; "start/u" := [0; 0]%Q]}.

(** Options of the preprocessor for an open track, and for a closed one
    with a curvature cost of 7. *)
Definition open_track_options : Xml_document :=
  <["options/is_closed" := leaf "is_closed" (Xml_bool false)]> preprocessor_options.

Definition cost_options : Xml_document :=
  <["options/optimization" := node "optimization" ["cost_curvature"]]>
    (<["options/optimization/cost_curvature" := leaf "cost_curvature" (Xml_number 7)]>
       preprocessor_options).

End Examples.

(** * Properties of the registry API *)
Module Api_facts.

Import Api Examples.

Section Registry.

Context {Kart F1 Track : Type}.
Implicit Types t : tables Kart F1 Track.

Lemma count_None {V : Type} (m : gmap string V) name :
  m !! name = None -> count m name = 0%nat.
Proof. unfold count. by intros ->. Qed.

Lemma count_Some {V : Type} (m : gmap string V) name v :
  m !! name = Some v -> count m name = 1%nat.
Proof. unfold count. by intros ->. Qed.

Lemma count_le_1 {V : Type} (m : gmap string V) name : (count m name <= 1)%nat.
Proof. unfold count. destruct (m !! name); lia. Qed.

(** A fresh name passes [check_variable_exists_in_tables]. *)
Lemma check_fresh t name :
  fresh t name -> check_variable_exists_in_tables name t = (Ok tt, t).
Proof.
  intros (Hk & Hf & Ht & Hs & Hv).
  unfold check_variable_exists_in_tables, mbind, api_mbind, api_bind, get_tables.
  rewrite !count_None by assumption. reflexivity.
Qed.

(** A name held by some table is rejected, and the tables are left alone. *)
Lemma check_taken t name :
  (0 < n_ocurrences t name)%nat ->
  exists e, check_variable_exists_in_tables name t = (Throw e, t).
Proof.
  unfold n_ocurrences, check_variable_exists_in_tables, mbind, api_mbind,
    api_bind, get_tables, throw.
  intros H. repeat (case_decide; [eexists; reflexivity|]). lia.
Qed.

Lemma erase_two {V : Type} (m : gmap string V) y z v w :
  m !! y = None -> m !! z = None ->
  delete z (delete y (<[z := w]> (<[y := v]> m))) = m.
Proof.
  intros Hy Hz. apply map_eq. intros i.
  destruct (decide (i = z)) as [->|]; [by simplify_map_eq|].
  destruct (decide (i = y)) as [->|]; by simplify_map_eq.
Qed.

Lemma umap_insert_eq_insert {V : Type} (m : gmap string V) name v :
  m !! name = None -> umap_insert name v m = <[name := v]> m.
Proof. unfold umap_insert. by intros ->. Qed.

Ltac run_api :=
  unfold copy_variable, move_variable, delete_variable, create_scalar, create_vector,
    check_variable_exists_in_tables, n_ocurrences, count, umap_insert,
    mbind, api_mbind, api_bind, get_tables, put_tables, throw, mret, api_mret, api_ret,
    set_kart, set_f1, set_track, set_vector, set_scalar; simpl.

Ltac settle := repeat (simplify_map_eq; simpl); rewrite ?erase_two by done; try done.

(** C9, as amended: copy, then move, then delete. For a name [x] registered
    in exactly one table and two distinct fresh names [y] and [z]
    ([y <> z], none of them in any table), [copy_variable(x, y);
    move_variable(y, z); delete_variable(z)] returns without an exception
    and leaves tables [t'] in which neither [y] nor [z] is registered;
    [t'] is the initial registry itself, so the entry of [x] is untouched.
    The specification takes any pair of fresh names, [y = z] included,
    for which the sequence throws. *)
Theorem copy_move_delete t x y z :
  n_ocurrences t x = 1%nat -> fresh t y -> fresh t z -> y <> z ->
  exists t',
    (copy_variable x y ;; move_variable y z ;; delete_variable z) t = (Ok tt, t')
    /\ fresh t' y /\ fresh t' z /\ t' = t.
Proof.
  intros Hx Hy Hz Hne. exists t. split; [| auto].
  pose proof Hy as (Hyk & Hyf & Hyt & Hys & Hyv).
  pose proof Hz as (Hzk & Hzf & Hzt & Hzs & Hzv).
  destruct t as [k f tr sc ve]; simpl in *.
  revert Hx. run_api. intros Hx.
  destruct (k !! x) as [v|] eqn:Ek; [settle|].
  destruct (f !! x) as [v|] eqn:Ef; [settle|].
  destruct (tr !! x) as [v|] eqn:Et; [settle|].
  destruct (ve !! x) as [v|] eqn:Ev; [settle|].
  destruct (sc !! x) as [v|] eqn:Es; [settle|].
  simplify_map_eq.
Qed.

(** With [z = y] the second step is refused: the name just created by the
    copy is no longer free. *)
Lemma copy_move_same_name t x y :
  n_ocurrences t x = 1%nat -> fresh t y ->
  exists e t', (copy_variable x y ;; move_variable y y) t = (Throw e, t').
Proof.
  intros Hx Hy.
  pose proof Hy as (Hyk & Hyf & Hyt & Hys & Hyv).
  destruct t as [k f tr sc ve]; simpl in *.
  revert Hx. run_api. intros Hx.
  destruct (k !! x) as [v|] eqn:Ek; [settle; eauto|].
  destruct (f !! x) as [v|] eqn:Ef; [settle; eauto|].
  destruct (tr !! x) as [v|] eqn:Et; [settle; eauto|].
  destruct (ve !! x) as [v|] eqn:Ev; [settle; eauto|].
  destruct (sc !! x) as [v|] eqn:Es; [settle; eauto|].
  simplify_map_eq.
Qed.

End Registry.

(** C9, counterexample. The specification allows [z = y]. On the registry
    [with_scalar], the scalar [catalunya] is registered in exactly one
    table and [copy] is fresh, but [copy_variable(catalunya, copy);
    move_variable(copy, copy); delete_variable(copy)] ends in the exception
    of the name check of [move_variable], and [copy] stays registered with
    the value of [catalunya]. *)
Lemma copy_move_delete_same_name :
  n_ocurrences with_scalar "catalunya" = 1%nat
  /\ fresh with_scalar "copy"
  /\ exists t',
       (copy_variable "catalunya" "copy" ;; move_variable "copy" "copy" ;;
        delete_variable "copy") with_scalar
       = (Throw (fastest_lap_exception
                   ("Scalar with name " ++ dq ++ "copy" ++ dq ++ " already exists")), t')
       /\ table_scalar t' !! "copy" = Some 4655%Q
       /\ n_ocurrences t' "copy" = 1%nat.
Proof.
  split; [reflexivity|]. split; [repeat split; reflexivity|].
  eexists. split; [vm_compute; reflexivity|].
  split; vm_compute; reflexivity.
Qed.

Lemma copy_move_delete_witness :
  exists t',
    (copy_variable "catalunya" "copy" ;; move_variable "copy" "moved" ;;
     delete_variable "moved") with_scalar = (Ok tt, t')
    /\ fresh t' "copy" /\ fresh t' "moved" /\ t' = with_scalar.
Proof.
  apply copy_move_delete.
  - reflexivity.
  - repeat split; reflexivity.
  - repeat split; reflexivity.
  - discriminate.
Defined.

Section Vehicles.

Context {Kart F1 Track : Type} {sizes : Model_sizes}
        `{Kart_model : !Vehicle (Track := Track) Kart}
        `{F1_model : !Vehicle (Track := Track) F1}.
Implicit Types t : tables Kart F1 Track.

(** [vehicle_set_parameter] only looks into the f1 table: for any other
    name, a kart included, it returns normally and changes nothing. *)
Lemma vehicle_set_parameter_not_f1 set_parameter t name parameter value :
  table_f1_3dof t !! name = None ->
  vehicle_set_parameter set_parameter name parameter value t = (Ok tt, t).
Proof.
  intros H. unfold vehicle_set_parameter, mbind, api_mbind, api_bind, get_tables.
  rewrite (count_None _ _ H). reflexivity.
Qed.

(** [gg_diagram] on a name that is in neither vehicle table returns
    normally with the output arrays as they were. *)
Lemma gg_diagram_unknown out t name v n :
  table_kart_6dof t !! name = None -> table_f1_3dof t !! name = None ->
  gg_diagram out name v n t = (Ok out, t).
Proof.
  intros Hk Hf. unfold gg_diagram, mbind, api_mbind, api_bind, get_tables.
  rewrite (count_None _ _ Hk), (count_None _ _ Hf). reflexivity.
Qed.

(** [optimal_laptime] likewise: neither the options nor the track name is
    looked at. *)
Lemma optimal_laptime_unknown KMH t name track n s options :
  table_kart_6dof t !! name = None -> table_f1_3dof t !! name = None ->
  optimal_laptime KMH name track n s options t = (Ok tt, t).
Proof.
  intros Hk Hf. unfold optimal_laptime, mbind, api_mbind, api_bind, get_tables.
  rewrite (count_None _ _ Hk), (count_None _ _ Hf). reflexivity.
Qed.

End Vehicles.

(** The statements on explicit inputs below are about the toy models of
    [Examples], with their sizes. *)
#[local] Existing Instance toy_sizes.

(** C4. The specification asks for a lookup-miss error when the vehicle name is in
    neither vehicle table. On the registry [garage] and the unknown name
    [ghost], [optimal_laptime], [gg_diagram] and [vehicle_set_parameter]
    all return normally and leave the tables (and the output arrays) as
    they were. *)
Theorem unknown_vehicle_returns_silently :
  table_kart_6dof garage !! "ghost" = None
  /\ table_f1_3dof garage !! "ghost" = None
  /\ optimal_laptime (Kart_model := toy_kart) (F1_model := toy_f1) toy_KMH
       "ghost" "catalunya" 3 [0; 1; 2]%Q None garage = (Ok tt, garage)
  /\ (forall out,
        gg_diagram (Kart_model := toy_kart) (F1_model := toy_f1) out
          "ghost" 30%Q 2 garage = (Ok out, garage))
  /\ vehicle_set_parameter toy_set_parameter "ghost" "vehicle/chassis/mass" 700%Q garage
     = (Ok tt, garage).
Proof.
  split; [reflexivity|]. split; [reflexivity|].
  split; [by apply optimal_laptime_unknown|].
  split; [intros out; by apply gg_diagram_unknown|].
  by apply vehicle_set_parameter_not_f1.
Qed.

(** ** The steady-state speed of the configuration *)

Ltac step_bind H :=
  match type of H with
  | match ?m with Ok _ => _ | Throw _ => _ | Undefined => _ end = Ok _ =>
      destruct m eqn:?; [| discriminate H | discriminate H]
  | (let '(_, _) := ?p in _) = Ok _ => destruct p
  end.

Section Configuration.

Context {sizes : Model_sizes}.

(** What the constructor stores in [steady_state_speed]: the value of the
    element [options/initial_speed] when [options/steady_state_speed] is
    present, the default of 50 otherwise. *)
Lemma configuration_speed kind names vectors doc c :
  make_Optimal_laptime_configuration kind names vectors (Some doc) = Ok c ->
  if has_element doc "options/steady_state_speed"
  then (e ← get_element doc "options/initial_speed"; get_value_scalar e)
       = Ok (steady_state_speed c)
  else steady_state_speed c = 50%Q.
Proof.
  unfold make_Optimal_laptime_configuration. intros H.
  unfold mbind, outcome_bind, bind in H.
  repeat step_bind H.
  injection H as <-. simpl.
  match goal with
  | E : (if has_element doc "options/steady_state_speed" then _ else _) = Ok _ |- _ =>
      destruct (has_element doc "options/steady_state_speed");
      [exact E | by injection E as <-]
  end.
Qed.

(** The default configuration, used for an empty option string. *)
Lemma configuration_speed_default kind names vectors c :
  make_Optimal_laptime_configuration kind names vectors None = Ok c ->
  steady_state_speed c = 50%Q.
Proof. simpl. by intros [= <-]. Qed.

End Configuration.

(** C3. The specification asks for the value of [options/steady_state_speed]. On
    the document [speed_options], where that element holds 80 and
    [options/initial_speed] holds 30, the configuration stores 30, and 30
    km/h is the speed the solver is seeded with. *)
Theorem steady_state_speed_reads_initial_speed :
  element_value <$> (speed_options !! "options/steady_state_speed")
    = Some (Xml_number 80)
  /\ steady_state_speed <$>
       make_Optimal_laptime_configuration limebeer2014f1_all
         (u_names (Vehicle := toy_f1)) ∅ (Some speed_options)
     = Ok 30%Q
  /\ table_scalar
       (snd (optimal_laptime (Kart_model := toy_kart) (F1_model := toy_f1) toy_KMH
               "car" "catalunya" 3 [0; 1; 2]%Q (Some speed_options) paddock))
       !! "run/laptime"
     = Some (30 * toy_KMH)%Q.
Proof. split; [|split]; vm_compute; reflexivity. Qed.

(** ** At most one table per name *)

Section Unique.

Context {Kart F1 Track : Type}.
Implicit Types t : tables Kart F1 Track.

Lemma n_ocurrences_0_fresh t name : n_ocurrences t name = 0%nat -> fresh t name.
Proof.
  unfold n_ocurrences, count, fresh.
  destruct (table_kart_6dof t !! name), (table_f1_3dof t !! name),
    (table_track t !! name), (table_vector t !! name), (table_scalar t !! name);
    simpl; intros; try lia; auto.
Qed.

(** The check either passes on a fresh name or throws; it never changes
    the tables. *)
Lemma check_cases t name :
  (fresh t name /\ check_variable_exists_in_tables name t = (Ok tt, t))
  \/ (exists e, check_variable_exists_in_tables name t = (Throw e, t)).
Proof.
  destruct (Nat.eq_dec (n_ocurrences t name) 0) as [H0|Hpos].
  - left. pose proof (n_ocurrences_0_fresh _ _ H0) as Hf.
    split; [done | by apply check_fresh].
  - right. apply check_taken. lia.
Qed.

Lemma count_insert_other {V : Type} (m : gmap string V) name other v :
  other <> name -> count (<[name := v]> m) other = count m other.
Proof. intros. unfold count. by rewrite lookup_insert_ne. Qed.

Lemma count_insert_same {V : Type} (m : gmap string V) name v :
  count (<[name := v]> m) name = 1%nat.
Proof. unfold count. by rewrite lookup_insert_eq. Qed.

(** The operations that call [check_variable_exists_in_tables] first keep
    every name in at most one table, whether they return or throw. *)
Lemma create_scalar_unique t name value :
  unique_names t -> unique_names (snd (create_scalar name value t)).
Proof.
  intros Hu. unfold create_scalar.
  unfold mbind at 1, api_mbind, api_bind.
  destruct (check_cases t name) as [[(Hk & Hf & Ht & Hs & Hv) ->] | [e ->]]; [|exact Hu].
  simpl. intros other. unfold n_ocurrences; simpl.
  rewrite umap_insert_eq_insert by done.
  destruct (decide (other = name)) as [->|Hne].
  - rewrite count_insert_same, !count_None by done. lia.
  - rewrite count_insert_other by done. apply Hu.
Qed.

Lemma create_vector_unique t name data :
  unique_names t -> unique_names (snd (create_vector name data t)).
Proof.
  intros Hu. unfold create_vector.
  unfold mbind at 1, api_mbind, api_bind.
  destruct (check_cases t name) as [[(Hk & Hf & Ht & Hs & Hv) ->] | [e ->]]; [|exact Hu].
  simpl. intros other. unfold n_ocurrences; simpl.
  rewrite umap_insert_eq_insert by done.
  destruct (decide (other = name)) as [->|Hne].
  - rewrite count_insert_same, !count_None by done. lia.
  - rewrite count_insert_other by done. apply Hu.
Qed.

Lemma delete_variables_unique t : unique_names (snd (delete_variables t)).
Proof.
  intros name. unfold n_ocurrences; simpl.
  rewrite !count_None by apply lookup_empty. lia.
Qed.

End Unique.

Lemma garage_unique : unique_names garage.
Proof.
  intros name. unfold n_ocurrences, garage; simpl.
  rewrite !(count_None ∅) by apply lookup_empty.
  destruct (decide (name = "car")) as [->|Hne]; [reflexivity|].
  rewrite (count_None {["car" := tt]}) by (by apply lookup_singleton_ne).
  pose proof (count_le_1 (V := unit) {["catalunya" := tt; "run/laptime" := tt]} name).
  lia.
Qed.

Lemma with_scalar_unique : unique_names with_scalar.
Proof.
  intros name. unfold n_ocurrences, with_scalar; simpl.
  rewrite !(count_None ∅) by apply lookup_empty.
  pose proof (count_le_1 (V := Q) {["catalunya" := 4655%Q]} name). lia.
Qed.

(** C10. The specification asks every public operation to keep each name in at
    most one table. [compute_optimal_laptime] only looks into the scalar
    and vector tables before it inserts, and [circuit_preprocessor] only
    into the track table: starting from registries that satisfy the
    invariant, a solve that stores its lap time as [run/laptime] next to a
    track of that name, and a preprocessor run that stores its track as
    [catalunya] next to a scalar of that name, both return normally and
    leave the name in two tables. *)
Theorem outputs_duplicate_names :
  unique_names garage
  /\ (let r := optimal_laptime (Kart_model := toy_kart) (F1_model := toy_f1) toy_KMH
                 "car" "catalunya" 3 [0; 1; 2]%Q (Some speed_options) garage in
      fst r = Ok tt /\ n_ocurrences (snd r) "run/laptime" = 2%nat
      /\ ~ unique_names (snd r))
  /\ unique_names with_scalar
  /\ (let r := circuit_preprocessor toy_open_kml toy_preprocessor toy_track
                 preprocessor_options with_scalar in
      fst r = Ok tt /\ n_ocurrences (snd r) "catalunya" = 2%nat
      /\ ~ unique_names (snd r)).
Proof.
  split; [exact garage_unique|].
  split.
  { assert (n_ocurrences
              (snd (optimal_laptime (Kart_model := toy_kart) (F1_model := toy_f1) toy_KMH
                      "car" "catalunya" 3 [0; 1; 2]%Q (Some speed_options) garage))
              "run/laptime" = 2%nat) as H by (vm_compute; reflexivity).
    cbv zeta. split; [vm_compute; reflexivity|]. split; [exact H|].
    intros Hu. specialize (Hu "run/laptime"). rewrite H in Hu. lia. }
  split; [exact with_scalar_unique|].
  assert (n_ocurrences
            (snd (circuit_preprocessor toy_open_kml toy_preprocessor toy_track
                    preprocessor_options with_scalar))
            "catalunya" = 2%nat) as H by (vm_compute; reflexivity).
  cbv zeta. split; [vm_compute; reflexivity|]. split; [exact H|].
  intros Hu. specialize (Hu "catalunya"). rewrite H in Hu. lia.
Qed.

End Api_facts.

(** * Properties of the optimal-laptime transcription *)
Module Laptime_facts.

Import Laptime Examples.

(** ** Arrays *)

Lemma at_insert_eq (a : list Q) j v : (j < length a)%nat -> at_ (<[j := v]> a) j = v.
Proof. intros H. unfold at_. rewrite nth_lookup, list_lookup_insert_eq by done. done. Qed.

Lemma at_insert_ne (a : list Q) j k v : j <> k -> at_ (<[k := v]> a) j = at_ a j.
Proof. intros H. unfold at_. rewrite !nth_lookup, list_lookup_insert_ne by done. done. Qed.

Lemma row_insert_eq (m : list (list Q)) i r : (i < length m)%nat -> row (<[i := r]> m) i = r.
Proof. intros H. unfold row. rewrite nth_lookup, list_lookup_insert_eq by done. done. Qed.

Lemma row_insert_ne (m : list (list Q)) i k r : i <> k -> row (<[k := r]> m) i = row m i.
Proof. intros H. unfold row. rewrite !nth_lookup, list_lookup_insert_ne by done. done. Qed.

Lemma at_map_seq (f : nat -> Q) a n j : (j < n)%nat -> at_ (map f (seq a n)) j = f (a + j)%nat.
Proof.
  intros H. unfold at_.
  rewrite (nth_indep _ 0%Q (f 0%nat)) by (rewrite length_map, length_seq; lia).
  rewrite map_nth, seq_nth by lia. done.
Qed.

Lemma row_map_seq (f : nat -> list Q) a n i :
  (i < n)%nat -> row (map f (seq a n)) i = f (a + i)%nat.
Proof.
  intros H. unfold row.
  rewrite (nth_indep _ [] (f 0%nat)) by (rewrite length_map, length_seq; lia).
  rewrite map_nth, seq_nth by lia. done.
Qed.

(** ** Sequential reads *)

Lemma read_into_length js : forall a x k, length (read_into a js x k) = length a.
Proof. induction js as [|j js IH]; intros; simpl; [done|]. by rewrite IH, length_insert. Qed.

Lemma read_into_other js : forall a x k j,
  j ∉ js -> at_ (read_into a js x k) j = at_ a j.
Proof.
  induction js as [|j0 js IH]; intros a x k j Hj; simpl; [done|].
  apply not_elem_of_cons in Hj as [Hne Hj].
  rewrite IH by done. by apply at_insert_ne.
Qed.

Lemma read_into_nth js : forall a x k p,
  NoDup js -> Forall (fun j => (j < length a)%nat) js -> (p < length js)%nat ->
  at_ (read_into a js x k) (nth p js 0%nat) = at_ x (k + p).
Proof.
  induction js as [|j0 js IH]; intros a x k p Hnd Hlt Hp; simpl in *; [lia|].
  apply NoDup_cons in Hnd as [Hnotin Hnd].
  apply Forall_cons in Hlt as [Hj0 Hlt].
  destruct p as [|p].
  - rewrite read_into_other by done. rewrite at_insert_eq by done. by rewrite Nat.add_0_r.
  - rewrite IH; [f_equal; lia | done | | lia].
    eapply Forall_impl; [exact Hlt|]. intros j Hj. by rewrite length_insert.
Qed.

(** ** Concatenation of blocks of one size *)

Lemma flat_map_uniform_length {A B : Type} (f : A -> list B) n l :
  (forall a, length (f a) = n) -> length (flat_map f l) = (length l * n)%nat.
Proof.
  intros Hf. induction l as [|a l IH]; simpl; [done|].
  by rewrite length_app, Hf, IH.
Qed.

Lemma flat_map_uniform_nth {A : Type} (f : A -> list Q) n l b p (d : A) :
  (forall a, length (f a) = n) -> (b < length l)%nat -> (p < n)%nat ->
  at_ (flat_map f l) (b * n + p) = at_ (f (nth b l d)) p.
Proof.
  intros Hf. revert b. induction l as [|a l IH]; intros b Hb Hp; simpl in *; [lia|].
  unfold at_ in *. destruct b as [|b].
  - simpl. rewrite app_nth1 by (rewrite Hf; lia). done.
  - rewrite app_nth2 by (rewrite Hf; simpl; lia).
    rewrite Hf. replace (S b * n + p - n)%nat with (b * n + p)%nat by (simpl; lia).
    apply IH; lia.
Qed.

Section Loading.

Variable car : Dynamic_model.
Variable x : list Q.



(** One pass of the loading loop advances [k] by the variables of a node
    and rewrites row [i] of the states from position [k] on. *)
Lemma load_node_fst is_direct k fg i :
  fst (load_node car x is_direct (k, fg) i) = (k + variables_per_node car is_direct)%nat.
Proof. destruct is_direct; unfold variables_per_node; simpl; lia. Qed.

Lemma load_node_q is_direct k fg i :
  _q (snd (load_node car x is_direct (k, fg) i))
  = <[i := read_into (row (_q fg) i) (free_states car) x k]> (_q fg).
Proof. destruct is_direct; reflexivity. Qed.

(** The loading loop over distinct nodes [ns], started at index [k]. *)
Lemma load_nodes_spec is_direct ns : forall k fg,
  NoDup ns ->
  let r := fold_left (load_node car x is_direct) ns (k, fg) in
  fst r = (k + length ns * variables_per_node car is_direct)%nat
  /\ length (_q (snd r)) = length (_q fg)
  /\ (forall i, i ∉ ns -> row (_q (snd r)) i = row (_q fg) i)
  /\ (forall p, (p < length ns)%nat -> (nth p ns 0 < length (_q fg))%nat ->
        row (_q (snd r)) (nth p ns 0%nat)
        = read_into (row (_q fg) (nth p ns 0%nat)) (free_states car) x
            (k + p * variables_per_node car is_direct)).
Proof.
  induction ns as [|i ns IH]; intros k fg Hnd.
  - simpl. repeat split; try done; try lia; intros; lia.
  - apply NoDup_cons in Hnd as [Hi Hnd]. simpl fold_left.
    destruct (load_node car x is_direct (k, fg) i) as [k' fg'] eqn:E.
    pose proof (load_node_fst is_direct k fg i) as Hk.
    pose proof (load_node_q is_direct k fg i) as Hq.
    rewrite E in Hk, Hq; simpl in Hk, Hq.
    destruct (IH k' fg' Hnd) as (H1 & H2 & H3 & H4).
    cbv zeta. repeat split.
    + rewrite H1, Hk. simpl. lia.
    + rewrite H2, Hq. apply length_insert.
    + intros j Hj. apply not_elem_of_cons in Hj as [Hne Hj].
      rewrite H3 by done. rewrite Hq. by apply row_insert_ne.
    + intros [|p] Hp Hlen; simpl in *.
      * rewrite H3 by done. rewrite Hq, row_insert_eq by done.
        by rewrite Nat.add_0_r.
      * assert (nth p ns 0%nat ∈ ns) as Hin.
        { apply list_elem_of_In, nth_In. lia. }
        assert (nth p ns 0%nat <> i) as Hne by (intros Heq; by rewrite Heq in Hin).
        rewrite H4; [| lia | rewrite Hq, length_insert; done].
        rewrite Hq, row_insert_ne by done. f_equal. lia.
Qed.

End Loading.

Section Layout.

Variable car : Dynamic_model.
Variable fg_init : nat -> nat -> Q.


(** The free states: how many, without repetition, and where each sits. *)
Lemma free_states_length :
  length (free_states car) = (ITIME car + (NSTATE car - S (ITIME car)))%nat.
Proof. unfold free_states. by rewrite length_app, !length_seq. Qed.

Lemma free_states_NoDup : NoDup (free_states car).
Proof.
  unfold free_states. apply NoDup_app. repeat split.
  - apply NoDup_seq.
  - intros j H1 H2. apply elem_of_seq in H1, H2. lia.
  - apply NoDup_seq.
Qed.

Lemma free_states_lt :
  (ITIME car < NSTATE car)%nat ->
  Forall (fun j => (j < NSTATE car)%nat) (free_states car).
Proof.
  intros H. unfold free_states. apply Forall_app. split; apply Forall_forall;
    intros j Hj; apply elem_of_seq in Hj; lia.
Qed.

Lemma free_states_position j :
  (j < NSTATE car)%nat -> j <> ITIME car ->
  (position car j < length (free_states car))%nat
  /\ nth (position car j) (free_states car) 0%nat = j.
Proof.
  intros Hj Hne. rewrite free_states_length. unfold position, free_states.
  destruct (Nat.ltb_spec j (ITIME car)).
  - split; [lia|]. rewrite app_nth1 by (rewrite length_seq; lia).
    by rewrite seq_nth.
  - split; [lia|]. rewrite app_nth2 by (rewrite length_seq; lia).
    rewrite length_seq, seq_nth by lia. lia.
Qed.

Lemma nodes_length is_closed n :
  length (nodes is_closed n) = (n - offset is_closed)%nat.
Proof. unfold nodes. apply length_seq. Qed.

Lemma new_rows_length n w : length (new_rows fg_init n w) = n.
Proof. unfold new_rows. by rewrite length_map, length_seq. Qed.

Lemma new_rows_row n w i :
  (i < n)%nat -> length (row (new_rows fg_init n w) i) = w.
Proof.
  intros H. unfold new_rows. rewrite row_map_seq by done.
  by rewrite length_map, length_seq.
Qed.

Lemma load_fst is_direct is_closed n q0 qa0 u0 fg x :
  fst (load car is_direct is_closed n q0 qa0 u0 fg x)
  = (length (nodes is_closed n) * variables_per_node car is_direct)%nat.
Proof.
  unfold load.
  match goal with
  | |- context [fold_left _ _ (0%nat, ?f)] =>
      destruct (load_nodes_spec car x is_direct (nodes is_closed n) 0 f) as (H & _)
  end; [apply NoDup_seq|].
  exact H.
Qed.

Lemma load_q_length is_direct is_closed n q0 qa0 u0 fg x :
  length (_q (snd (load car is_direct is_closed n q0 qa0 u0 fg x))) = length (_q fg).
Proof.
  unfold load.
  match goal with
  | |- context [fold_left _ _ (0%nat, ?f)] =>
      destruct (load_nodes_spec car x is_direct (nodes is_closed n) 0 f) as (_ & H & _)
  end; [apply NoDup_seq|].
  cbv zeta in H. rewrite H.
  destruct is_closed; [done|]. simpl. apply length_insert.
Qed.

(** After loading, the free state [j] of node [i] is the decision variable
    at position [(i - offset) * variables_per_node + position car j]. *)
Lemma loaded_state is_direct is_closed n q0 qa0 u0 x i j :
  (ITIME car < NSTATE car)%nat ->
  (offset is_closed <= i < n)%nat -> (j < NSTATE car)%nat -> j <> ITIME car ->
  at_ (row (_q (snd (load car is_direct is_closed n q0 qa0 u0 (new_FG car fg_init n) x))) i) j
  = at_ x ((i - offset is_closed) * variables_per_node car is_direct + position car j).
Proof.
  intros Hwf Hi Hj Hne. unfold load.
  set (fg0 := if is_closed then new_FG car fg_init n
              else pin_first car is_direct q0 qa0 u0 (new_FG car fg_init n)).
  assert (length (_q fg0) = n) as Hlen.
  { subst fg0. destruct is_closed; simpl; [|rewrite length_insert]; apply new_rows_length. }
  assert (length (row (_q fg0) i) = NSTATE car) as Hrow.
  { subst fg0. destruct is_closed; simpl in *.
    - apply new_rows_row. lia.
    - rewrite row_insert_ne by lia. apply new_rows_row. lia. }
  unfold nodes.
  destruct (load_nodes_spec car x is_direct
              (seq (offset is_closed) (n - offset is_closed)) 0 fg0) as (_ & _ & _ & H);
    [apply NoDup_seq|].
  specialize (H (i - offset is_closed)%nat).
  rewrite length_seq, seq_nth in H by lia.
  replace (offset is_closed + (i - offset is_closed))%nat with i in H by lia.
  rewrite H by lia.
  destruct (free_states_position j Hj Hne) as [Hp Hn].
  rewrite <- Hn at 1. rewrite read_into_nth; [done | apply free_states_NoDup | | done].
  rewrite Hrow. by apply free_states_lt.
Qed.

End Layout.

Section Asserts.

Variable car : Dynamic_model.
Variables n_variables n_constraints : nat.


(** Sizes of the blocks written per node and per element. *)
Lemma state_block_length {A : Type} (f : nat -> A) (a : A) :
  length (state_block car f a) = (ITIME car + S (NSTATE car - S (IN car)))%nat.
Proof.
  unfold state_block. rewrite !length_app, !length_map, !length_seq. simpl. lia.
Qed.

Lemma x_lb_node_length this is_direct i :
  length (x_lb_node car this is_direct i)
  = (ITIME car + S (NSTATE car - S (IN car)) + NALGEBRAIC car + NCONTROL car
     + (if is_direct then 0 else NCONTROL car))%nat.
Proof.
  unfold x_lb_node. rewrite !length_app, state_block_length, !length_map, !length_seq.
  destruct is_direct; simpl; [lia|]. rewrite length_map, length_seq. lia.
Qed.

Lemma x_ub_node_length this is_direct i :
  length (x_ub_node car this is_direct i)
  = (ITIME car + S (NSTATE car - S (IN car)) + NALGEBRAIC car + NCONTROL car
     + (if is_direct then 0 else NCONTROL car))%nat.
Proof.
  unfold x_ub_node. rewrite !length_app, state_block_length, !length_map, !length_seq.
  destruct is_direct; simpl; [lia|]. rewrite length_map, length_seq. lia.
Qed.

Lemma c_node_length is_direct extra :
  length (c_node car is_direct extra)
  = (ITIME car + S (NSTATE car - S (IN car)) + NALGEBRAIC car
     + N_OL_EXTRA_CONSTRAINTS car + (if is_direct then 0 else NCONTROL car))%nat.
Proof.
  unfold c_node.
  rewrite !length_app, state_block_length, repeat_length, !length_map, !length_seq.
  destruct is_direct; simpl; [lia|]. rewrite repeat_length. lia.
Qed.

Lemma element_length s (is_direct : bool) fg i :
  length ((if is_direct then element_direct car s fg else element_derivative car s fg) i)
  = constraints_per_element car is_direct.
Proof.
  unfold constraints_per_element.
  destruct is_direct; unfold element_direct, element_derivative;
    rewrite !length_app, !length_map, !length_seq; lia.
Qed.

Lemma periodic_length n s (is_direct : bool) fg :
  length (if is_direct then periodic_direct car n s fg else periodic_derivative car n s fg)
  = constraints_per_element car is_direct.
Proof.
  unfold constraints_per_element.
  destruct is_direct; unfold periodic_direct, periodic_derivative;
    rewrite !length_app, !length_map, !length_seq; lia.
Qed.

Lemma constraints_length n s is_direct is_closed fg :
  n <> 0%nat ->
  length (constraints car n s is_direct is_closed fg)
  = (length (nodes is_closed n) * constraints_per_element car is_direct)%nat.
Proof.
  intros Hn. unfold constraints. rewrite length_app.
  rewrite (flat_map_uniform_length _ (constraints_per_element car is_direct))
    by (intros; apply element_length).
  rewrite length_seq, nodes_length.
  destruct is_closed; simpl.
  - rewrite periodic_length. nia.
  - nia.
Qed.

(** What a successful [assemble] says. *)
Lemma assemble_Ok this is_direct is_closed bounds :
  assemble car n_variables n_constraints this is_direct is_closed = Ok bounds ->
  (nodes is_closed (n_points this) <> [] -> S (ITIME car) = IN car)
  /\ x_lb bounds = flat_map (x_lb_node car this is_direct) (nodes is_closed (n_points this))
  /\ x_ub bounds = flat_map (x_ub_node car this is_direct) (nodes is_closed (n_points this))
  /\ c_lb bounds = flat_map (fun _ => c_node car is_direct (c_extra_lb car))
                     (nodes is_closed (n_points this))
  /\ c_ub bounds = flat_map (fun _ => c_node car is_direct (c_extra_ub car))
                     (nodes is_closed (n_points this))
  /\ length (x_lb bounds) = n_variables
  /\ length (c_lb bounds) = n_constraints.
Proof.
  unfold assemble. cbv zeta. simpl.
  repeat case_decide; try discriminate. intros [= <-]. simpl.
  repeat split; try done; try lia.
  intros Hne. destruct (decide (S (ITIME car) = IN car)); [done|]. tauto.
Qed.

(** What a successful call of the function object says. *)
Lemma call_Ok this is_direct is_closed dissipations fg x fgv fg' :
  call car n_variables n_constraints this is_direct is_closed dissipations fg x
    = Ok (fgv, fg') ->
  let loaded := load car is_direct is_closed (n_points this) (row (q this) 0)
                  (row (qa this) 0) (row (u this) 0) fg x in
  n_points this <> 0%nat
  /\ fst loaded = n_variables
  /\ fg' = evaluate car (n_points this) (s this) (snd loaded)
  /\ fgv = objective car (n_points this) (s this) dissipations is_direct is_closed fg'
           :: constraints car (n_points this) (s this) is_direct is_closed fg'
  /\ length (constraints car (n_points this) (s this) is_direct is_closed fg')
     = n_constraints.
Proof.
  unfold call, FG_call. cbv zeta.
  destruct (load car is_direct is_closed (n_points this) (row (q this) 0)
              (row (qa this) 0) (row (u this) 0) fg x) as [k fg1] eqn:E.
  repeat case_decide; try discriminate. intros [= <- <-]. simpl.
  repeat split; try done; lia.
Qed.

(** The asserts of the sources pin the layout down: as soon as one node
    carries decision variables, [IN] follows [ITIME] inside the state and
    the function object writes as many constraints per element as the
    bounds reserve per node. *)
Lemma asserts_layout this is_direct is_closed dissipations bounds fg x fgv fg' :
  assemble car n_variables n_constraints this is_direct is_closed = Ok bounds ->
  call car n_variables n_constraints this is_direct is_closed dissipations fg x
    = Ok (fgv, fg') ->
  (offset is_closed < n_points this)%nat ->
  S (ITIME car) = IN car /\ (IN car < NSTATE car)%nat
  /\ length (c_node car is_direct (c_extra_lb car)) = constraints_per_element car is_direct.
Proof.
  intros Ha Hc Hn.
  apply assemble_Ok in Ha as (HIN & Hxl & _ & Hcl & _ & Hnx & Hnc).
  apply call_Ok in Hc as (Hn0 & Hk & -> & _ & Hlen). cbv zeta in Hk.
  assert (nodes is_closed (n_points this) <> []) as Hne.
  { intros E. apply (f_equal length) in E. rewrite nodes_length in E. simpl in E. lia. }
  specialize (HIN Hne).
  rewrite load_fst in Hk. rewrite Hxl in Hnx.
  rewrite (flat_map_uniform_length _ _ _ (x_lb_node_length this is_direct)) in Hnx.
  rewrite constraints_length in Hlen by done. rewrite Hcl in Hnc.
  rewrite (flat_map_uniform_length _ _ _ (fun _ => c_node_length is_direct (c_extra_lb car)))
    in Hnc.
  rewrite nodes_length in *.
  assert (0 < n_points this - offset is_closed)%nat as Hpos by lia.
  unfold variables_per_node in Hk. rewrite free_states_length in Hk.
  rewrite c_node_length. unfold constraints_per_element in *.
  rewrite free_states_length in *.
  assert (IN car < NSTATE car)%nat as HN by (destruct is_direct; nia).
  split; [done|]. split; [done|].
  destruct is_direct; nia.
Qed.

End Asserts.

Lemma at_app_l (l1 l2 : list Q) k : (k < length l1)%nat -> at_ (l1 ++ l2) k = at_ l1 k.
Proof. intros H. unfold at_. by rewrite app_nth1. Qed.

Lemma at_app_r (l1 l2 : list Q) k :
  (length l1 <= k)%nat -> at_ (l1 ++ l2) k = at_ l2 (k - length l1).
Proof. intros H. unfold at_. by rewrite app_nth2. Qed.

Lemma at_map {A : Type} (f : A -> Q) (l : list A) p (d : A) :
  (p < length l)%nat -> at_ (map f l) p = f (nth p l d).
Proof.
  intros H. unfold at_.
  rewrite (nth_indep _ 0%Q (f d)) by (by rewrite length_map).
  apply map_nth.
Qed.

Lemma at_zeros (l : list Q) p : Forall (fun v => v = 0%Q) l -> at_ l p = 0%Q.
Proof.
  intros H. unfold at_. destruct (nth_in_or_default p l 0%Q) as [Hin | ->]; [|done].
  rewrite Forall_forall in H. apply H. by apply list_elem_of_In.
Qed.

Section Bounds.

Variable car : Dynamic_model.
Variables n_variables n_constraints : nat.

Hypothesis IN_after_ITIME : S (ITIME car) = IN car.
Hypothesis IN_in_range : (IN car < NSTATE car)%nat.

Lemma state_block_free_length {A : Type} (f : nat -> A) (a : A) :
  length (state_block car f a) = length (free_states car).
Proof. rewrite state_block_length, free_states_length. lia. Qed.

Lemma position_lt j :
  (j < NSTATE car)%nat -> j <> ITIME car -> (position car j < length (free_states car))%nat.
Proof. intros. apply free_states_position; done. Qed.

(** The entry of the state part of a node that belongs to the free state
    [j]: the special entry for [IN], the plain one otherwise. *)
Lemma state_block_at (f : nat -> Q) (a : Q) j :
  (j < NSTATE car)%nat -> j <> ITIME car ->
  at_ (state_block car f a) (position car j) = if decide (j = IN car) then a else f j.
Proof.
  intros Hj Hne. unfold state_block, position.
  destruct (Nat.ltb_spec j (ITIME car)) as [Hlt|Hge].
  - rewrite at_app_l by (rewrite length_map, length_seq; lia).
    rewrite (at_map _ _ _ 0%nat) by (rewrite length_seq; lia).
    rewrite seq_nth by lia. case_decide; [lia|done].
  - rewrite at_app_r by (rewrite length_map, length_seq; lia).
    rewrite length_map, length_seq.
    case_decide as Hin.
    + replace (j - 1 - ITIME car)%nat with 0%nat by lia. done.
    + rewrite at_app_r by (simpl; lia). simpl length.
      rewrite (at_map _ _ _ 0%nat) by (rewrite length_seq; lia).
      rewrite seq_nth by lia. f_equal. lia.
Qed.

Lemma state_block_zeros : Forall (fun v => v = 0%Q) (state_block car (fun _ => 0%Q) 0%Q).
Proof.
  unfold state_block. rewrite !Forall_app. repeat split.
  - apply Forall_forall. intros v Hv. apply list_elem_of_fmap in Hv as (? & -> & _). done.
  - by repeat constructor.
  - apply Forall_forall. intros v Hv. apply list_elem_of_fmap in Hv as (? & -> & _). done.
Qed.

End Bounds.

Section Claims.

Variable car : Dynamic_model.
Variable fg_init : nat -> nat -> Q.
Variables n_variables n_constraints : nat.



(** After [evaluate], row [i] of [_dqdt] is the car equation at node [i]. *)
Lemma evaluated_dqdt n s fg i :
  (i < n)%nat ->
  row (_dqdt (evaluate car n s fg)) i
  = fst (equations car (row (_q fg) i) (row (_qa fg) i) (row (_u fg) i) (at_ s i)).
Proof.
  intros H. unfold evaluate. simpl. unfold row at 1.
  rewrite map_map.
  rewrite (nth_indep _ [] (fst (equations car (row (_q fg) 0) (row (_qa fg) 0)
                                  (row (_u fg) 0) (at_ s 0))))
    by (rewrite length_map, length_seq; lia).
  rewrite (map_nth (fun i => fst (equations car (row (_q fg) i) (row (_qa fg) i)
                                    (row (_u fg) i) (at_ s i))) (seq 0 n) 0%nat i).
  by rewrite seq_nth.
Qed.

(** C6. In the assembled problem of either mode, for every element
    [i = 1 .. n_points - 1] and every state index [j] other than [ITIME],
    the entry of the vector [fg] that follows the objective at constraint
    index [constraint_index i j] is the trapezoidal defect
    [q_i[j] - q_{i-1}[j] - 0.5 (s_i - s_{i-1}) (dqds_{i-1}[j] + dqds_i[j])],
    where [q_k] is the state of node [k] in the work arrays of the
    function object and [dqds_k] is the first component of the car
    equations at the state, algebraic state and control of node [k] and at
    arclength [s_k]; both bounds of that constraint are zero. The two
    hypotheses say that the asserts of the sources passed: the bounds were
    assembled and the function object was evaluated, on any work arrays and
    at any point. *)
Theorem collocation_defects this is_direct is_closed dissipations bounds fg x fgv fg' i j :
  assemble car n_variables n_constraints this is_direct is_closed = Ok bounds ->
  call car n_variables n_constraints this is_direct is_closed dissipations fg x
    = Ok (fgv, fg') ->
  (1 <= i < n_points this)%nat -> (j < NSTATE car)%nat -> j <> ITIME car ->
  let dqds k :=
    fst (equations car (row (_q fg') k) (row (_qa fg') k) (row (_u fg') k)
           (at_ (s this) k)) in
  at_ fgv (S (constraint_index car is_direct i j))
  = (at_ (row (_q fg') i) j - at_ (row (_q fg') (i - 1)) j
     - (1 # 2) * (at_ (s this) i - at_ (s this) (i - 1))
       * (at_ (dqds (i - 1)%nat) j + at_ (dqds i) j))%Q
  /\ at_ (c_lb bounds) (constraint_index car is_direct i j) = 0%Q
  /\ at_ (c_ub bounds) (constraint_index car is_direct i j) = 0%Q.
Proof.
  intros Ha Hc Hi Hj Hne dqds.
  assert (forall k, (k < n_points this)%nat -> row (_dqdt fg') k = dqds k) as Hrows.
  { intros k Hk. pose proof Hc as Hc'.
    apply call_Ok in Hc' as (_ & _ & Hfg & _). cbv zeta in Hfg.
    unfold dqds. rewrite Hfg. rewrite evaluated_dqdt by done. reflexivity. }
  rewrite <- !Hrows by lia. clear Hrows dqds.
  change (at_ fgv (S (constraint_index car is_direct i j)) = defect (s this) fg' i j
          /\ at_ (c_lb bounds) (constraint_index car is_direct i j) = 0%Q
          /\ at_ (c_ub bounds) (constraint_index car is_direct i j) = 0%Q).
  destruct (asserts_layout car n_variables n_constraints this is_direct is_closed
              dissipations bounds fg x fgv fg' Ha Hc) as (HIN & Hrange & Hsize);
    [destruct is_closed; simpl; lia|].
  assert (position car j < length (free_states car))%nat as Hp
    by (by apply free_states_position).
  apply assemble_Ok in Ha as (_ & _ & _ & Hcl & Hcu & _ & _).
  apply call_Ok in Hc as (Hn0 & _ & Hfg & -> & _). cbv zeta in Hfg.
  assert (constraints_per_element car is_direct
          = length (c_node car is_direct (c_extra_ub car))) as Hsize'.
  { rewrite <- Hsize. by rewrite !c_node_length. }
  unfold constraint_index. repeat split.
  - change (at_ (?o :: ?c) (S ?k)) with (at_ c k). unfold constraints.
    rewrite at_app_l.
    2:{ rewrite (flat_map_uniform_length _ (constraints_per_element car is_direct))
          by (intros; apply element_length).
        rewrite length_seq.
        assert (constraints_per_element car is_direct > position car j)%nat
          by (unfold constraints_per_element; lia).
        nia. }
    rewrite (flat_map_uniform_nth _ (constraints_per_element car is_direct) _ _ _ 0%nat);
      [| intros; apply element_length | rewrite length_seq; lia
       | unfold constraints_per_element; lia].
    rewrite seq_nth by lia. replace (1 + (i - 1))%nat with i by lia.
    destruct (free_states_position car j Hj Hne) as [_ Hnth].
    destruct is_direct; unfold element_direct, element_derivative;
      rewrite at_app_l by (by rewrite length_map);
      rewrite (at_map _ _ _ 0%nat) by done; by rewrite Hnth.
  - rewrite Hcl, <- Hsize.
    rewrite (flat_map_uniform_nth _ (length (c_node car is_direct (c_extra_lb car)))
               _ _ _ 0%nat);
      [| done | rewrite nodes_length; destruct is_closed; simpl; lia
       | rewrite Hsize; unfold constraints_per_element; lia].
    unfold c_node. rewrite at_app_l by (by rewrite state_block_free_length).
    apply at_zeros, state_block_zeros.
  - rewrite Hcu, Hsize'.
    rewrite (flat_map_uniform_nth _ (length (c_node car is_direct (c_extra_ub car)))
               _ _ _ 0%nat);
      [| done | rewrite nodes_length; destruct is_closed; simpl; lia
       | rewrite <- Hsize'; unfold constraints_per_element; lia].
    unfold c_node. rewrite at_app_l by (by rewrite state_block_free_length).
    apply at_zeros, state_block_zeros.
Qed.

(** The bound stored for the free state [j] of node [i]. *)
Lemma x_node_at this is_direct i j (lb : bool) :
  S (ITIME car) = IN car -> (IN car < NSTATE car)%nat ->
  (j < NSTATE car)%nat -> j <> ITIME car ->
  at_ ((if lb then x_lb_node car this is_direct else x_ub_node car this is_direct) i)
      (position car j)
  = if decide (j = IN car)
    then (if lb then (- get_left_track_limit car (at_ (s this) i))%Q
          else get_right_track_limit car (at_ (s this) i))
    else at_ (if lb then q_lb car else q_ub car) j.
Proof.
  intros HIN Hrange Hj Hne.
  assert (position car j < length (free_states car))%nat as Hp
    by (by apply free_states_position).
  destruct lb; unfold x_lb_node, x_ub_node;
    rewrite at_app_l by (by rewrite state_block_free_length);
    by rewrite state_block_at.
Qed.

(** C7. In either mode, at every node [i] that carries decision variables,
    the variable loaded into the lateral offset [q_i[IN]] has the bounds
    [- n_L(s_i)] and [+ n_R(s_i)] of the track, and the variable loaded
    into any other free state [j] has the model bounds [q_lb[j]] and
    [q_ub[j]], whatever the node. *)
Theorem lateral_offset_bounds this is_direct is_closed dissipations bounds x fgv fg' i :
  assemble car n_variables n_constraints this is_direct is_closed = Ok bounds ->
  call car n_variables n_constraints this is_direct is_closed dissipations
    (new_FG car fg_init (n_points this)) x = Ok (fgv, fg') ->
  (offset is_closed <= i < n_points this)%nat ->
  (at_ (row (_q fg') i) (IN car) = at_ x (variable_index car is_direct is_closed i (IN car))
   /\ at_ (x_lb bounds) (variable_index car is_direct is_closed i (IN car))
      = (- get_left_track_limit car (at_ (s this) i))%Q
   /\ at_ (x_ub bounds) (variable_index car is_direct is_closed i (IN car))
      = get_right_track_limit car (at_ (s this) i))
  /\ (forall j, (j < NSTATE car)%nat -> j <> ITIME car -> j <> IN car ->
        at_ (row (_q fg') i) j = at_ x (variable_index car is_direct is_closed i j)
        /\ at_ (x_lb bounds) (variable_index car is_direct is_closed i j) = at_ (q_lb car) j
        /\ at_ (x_ub bounds) (variable_index car is_direct is_closed i j) = at_ (q_ub car) j).
Proof.
  intros Ha Hc Hi.
  destruct (asserts_layout car n_variables n_constraints this is_direct is_closed
              dissipations bounds _ x fgv fg' Ha Hc) as (HIN & Hrange & _); [lia|].
  pose proof Ha as Ha'.
  apply assemble_Ok in Ha' as (_ & Hxl & Hxu & _ & _ & Hnx & _).
  pose proof Hc as Hc'.
  apply call_Ok in Hc' as (Hn0 & Hk & Hfg & _ & _). cbv zeta in Hk, Hfg.
  assert (forall k, length (x_lb_node car this is_direct k) = variables_per_node car is_direct)
    as Hlb.
  { intros k. rewrite x_lb_node_length. unfold variables_per_node.
    rewrite free_states_length. lia. }
  assert (forall k, length (x_ub_node car this is_direct k) = variables_per_node car is_direct)
    as Hub.
  { intros k. rewrite x_ub_node_length. unfold variables_per_node.
    rewrite free_states_length. lia. }
  assert (forall j, (j < NSTATE car)%nat -> j <> ITIME car ->
            at_ (row (_q fg') i) j = at_ x (variable_index car is_direct is_closed i j)
            /\ at_ (x_lb bounds) (variable_index car is_direct is_closed i j)
               = (if decide (j = IN car)
                  then (- get_left_track_limit car (at_ (s this) i))%Q
                  else at_ (q_lb car) j)
            /\ at_ (x_ub bounds) (variable_index car is_direct is_closed i j)
               = (if decide (j = IN car)
                  then get_right_track_limit car (at_ (s this) i)
                  else at_ (q_ub car) j)) as Hall.
  { intros j Hj Hne.
    assert (position car j < variables_per_node car is_direct)%nat as Hp.
    { unfold variables_per_node.
      assert (position car j < length (free_states car))%nat
        by (by apply free_states_position). lia. }
    unfold variable_index. repeat split.
    - rewrite Hfg. simpl. apply loaded_state; [lia | done | done | done].
    - rewrite Hxl.
      rewrite (flat_map_uniform_nth _ (variables_per_node car is_direct) _ _ _ 0%nat);
        [| done | rewrite nodes_length; lia | done].
      unfold nodes. rewrite seq_nth by lia.
      replace (offset is_closed + (i - offset is_closed))%nat with i by lia.
      by apply (x_node_at this is_direct i j true).
    - rewrite Hxu.
      rewrite (flat_map_uniform_nth _ (variables_per_node car is_direct) _ _ _ 0%nat);
        [| done | rewrite nodes_length; lia | done].
      unfold nodes. rewrite seq_nth by lia.
      replace (offset is_closed + (i - offset is_closed))%nat with i by lia.
      by apply (x_node_at this is_direct i j false). }
  split.
  - destruct (Hall (IN car)) as (H1 & H2 & H3); [done | lia |].
    rewrite decide_True in H2, H3 by done. done.
  - intros j Hj Hne Hne'. destruct (Hall j Hj Hne) as (H1 & H2 & H3).
    rewrite decide_False in H2, H3 by done. done.
Qed.

End Claims.

Section Recovery.

Variable car : Dynamic_model.
Variable this : Optimal_laptime.
Variable fg : FG.

(** The loop that recovers the elapsed time, after [m] passes. *)
Lemma recover_steps q0 m :
  (m < length q0)%nat ->
  (forall i, (i < length q0)%nat -> (ITIME car < length (row q0 i))%nat) ->
  let r := fold_left (recover_step car this fg) (seq 1 m) (q0, dtimeds car this fg 0) in
  length (fst r) = length q0
  /\ snd r = dtimeds car this fg m
  /\ (forall i, (i < length q0)%nat -> (ITIME car < length (row (fst r) i))%nat)
  /\ (forall i, (m < i)%nat \/ i = 0%nat -> row (fst r) i = row q0 i)
  /\ (forall i j, j <> ITIME car -> at_ (row (fst r) i) j = at_ (row q0 i) j)
  /\ (forall i, (1 <= i <= m)%nat ->
        at_ (row (fst r) i) (ITIME car)
        = (at_ (row (fst r) (i - 1)) (ITIME car)
           + (1 # 2) * (at_ (s this) i - at_ (s this) (i - 1))
             * (dtimeds car this fg i + dtimeds car this fg (i - 1)))%Q).
Proof.
  intros Hm Hrows. induction m as [|m IH].
  - simpl. repeat split; try done. intros; lia.
  - destruct IH as (Hlen & Hd & Hw & Hkeep & Hother & Hrec); [lia|].
    rewrite seq_S, fold_left_app. simpl fold_left.
    destruct (fold_left (recover_step car this fg) (seq 1 m) (q0, dtimeds car this fg 0))
      as [q d] eqn:E.
    simpl in Hlen, Hd, Hw, Hkeep, Hother, Hrec. subst d.
    unfold recover_step. cbv zeta. simpl fst. simpl snd.
    repeat split.
    + by rewrite length_insert.
    + intros i Hi. destruct (decide (i = S m)) as [->|Hne].
      * rewrite row_insert_eq by lia. rewrite length_insert. apply Hw. lia.
      * rewrite row_insert_ne by done. by apply Hw.
    + intros i Hi. rewrite row_insert_ne by lia. apply Hkeep. lia.
    + intros i j Hj. destruct (decide (i = S m)) as [->|Hne].
      * destruct (decide (S m < length q)%nat).
        -- rewrite row_insert_eq by done. rewrite at_insert_ne by done. by apply Hother.
        -- rewrite list_insert_ge by lia. by apply Hother.
      * rewrite row_insert_ne by done. by apply Hother.
    + intros i Hi. destruct (decide (i = S m)) as [->|Hne].
      * rewrite row_insert_eq by lia.
        rewrite at_insert_eq by (apply Hw; lia).
        change (S m - 1)%nat with (m - 0)%nat. rewrite !Nat.sub_0_r.
        rewrite row_insert_ne by lia. reflexivity.
      * rewrite !row_insert_ne by lia. apply Hrec. lia.
Qed.

End Recovery.

Section Solving.

Variable car : Dynamic_model.
Variable fg_init : nat -> nat -> Q.
Variables n_variables n_constraints : nat.
Variable ipopt_solve : problem -> solve_result.

#[local] Abbreviation compute := (compute car fg_init n_variables n_constraints ipopt_solve).
#[local] Abbreviation solved := (solved car fg_init n_variables n_constraints ipopt_solve).
#[local] Abbreviation solver_result := (solver_result car fg_init n_variables n_constraints ipopt_solve).
#[local] Abbreviation assemble := (assemble car n_variables n_constraints).
#[local] Abbreviation call := (call car n_variables n_constraints).

(** What a returning [compute] went through. *)
Lemma compute_Ok this level is_closed is_direct dissipations r :
  compute this level is_closed is_direct dissipations = Ok r ->
  exists bounds fgv fg,
    assemble this is_direct is_closed = Ok bounds
    /\ status (solver_result this level is_direct is_closed dissipations bounds) = success
    /\ call this is_direct is_closed dissipations (new_FG car fg_init (n_points this))
         (x (solver_result this level is_direct is_closed dissipations bounds))
       = Ok (fgv, fg)
    /\ solved this level is_direct is_closed dissipations = Ok fg
    /\ finish car this is_direct is_closed fg = Ok r.
Proof.
  unfold Laptime.compute, compute_mode, Laptime.solved. intros H.
  destruct (assemble this is_direct is_closed) as [bounds| |] eqn:Ea; simpl in H;
    try discriminate.
  case_decide as Hs; [discriminate|].
  destruct (call this is_direct is_closed dissipations _ _) as [[fgv fg]| |] eqn:Ec;
    simpl in H; try discriminate.
  exists bounds, fgv, fg. repeat split; try done.
  simpl. by rewrite Ec.
Qed.

(** What a returning [finish] says about the exported object. *)
Lemma finish_Ok this is_direct is_closed fg r :
  finish car this is_direct is_closed fg = Ok r ->
  length (_q fg) = n_points this
  /\ s r = s this
  /\ q r = fst (recover_time car this fg (export this (_q fg) (NSTATE car)))
  /\ qa r = export this (_qa fg) (NALGEBRAIC car)
  /\ u r = export this (_u fg) (NCONTROL car)
  /\ (if is_closed then
        exists s_back, back (s this) = Ok s_back
        /\ laptime r
           = (at_ (List.last (q r) []) (ITIME car)
              + closing_term is_direct (track_length car) s_back
                  (snd (recover_time car this fg (export this (_q fg) (NSTATE car))))
                  (dtimeds car this fg 0))%Q
      else laptime r = at_ (List.last (q r) []) (ITIME car)).
Proof.
  unfold finish. case_decide as Hlen; [discriminate|].
  destruct (recover_time car this fg (export this (_q fg) (NSTATE car))) as [q' d] eqn:E.
  destruct is_closed.
  - destruct (back (s this)) as [s_back| |]; simpl; try discriminate.
    intros [= <-]. simpl. repeat split; try done; [lia|]. by exists s_back.
  - simpl. intros [= <-]. simpl. repeat split; try done. lia.
Qed.

(** The exported arrays have one row per node. *)
Lemma export_length this rows w : length (export this rows w) = n_points this.
Proof. unfold export. by rewrite length_map, length_seq. Qed.

Lemma export_row this rows w i :
  (i < n_points this)%nat -> row (export this rows w) i = map (at_ (row rows i)) (seq 0 w).
Proof. intros H. unfold export. by rewrite row_map_seq. Qed.

(** The elapsed time as the post-processing recovers it. After a solve
    that returns, in either mode, the exported time satisfies
    [q_i[ITIME] = q_{i-1}[ITIME] + 0.5 (s_i - s_{i-1}) (d_{i-1} + d_i)] at
    every node [i >= 1], where [d_k] is the [ITIME] entry of the car
    equations at the state, algebraic state and control of node [k] in the
    work arrays [fg] left by the last evaluation, taken at arclength [s_k]
    for [k >= 1] and at arclength [0.0] for node 0. *)
Lemma elapsed_time_trapezoid this level is_closed is_direct dissipations r fg i :
  compute this level is_closed is_direct dissipations = Ok r ->
  solved this level is_direct is_closed dissipations = Ok fg ->
  (1 <= i < n_points this)%nat ->
  let d k arclength :=
    at_ (fst (equations car (row (_q fg) k) (row (_qa fg) k) (row (_u fg) k) arclength))
        (ITIME car) in
  at_ (row (q r) i) (ITIME car)
  == at_ (row (q r) (i - 1)) (ITIME car)
     + (1 # 2) * (at_ (s r) i - at_ (s r) (i - 1))
       * (d (i - 1)%nat (match (i - 1)%nat with O => 0%Q | S _ => at_ (s r) (i - 1) end)
          + d i (at_ (s r) i)).
Proof.
  intros Hc Hs Hi d.
  assert (forall k, dtimeds car this fg k
                    = d k (match k with O => 0%Q | S _ => at_ (s this) k end)) as Hd
    by reflexivity.
  assert (d i (at_ (s this) i) = dtimeds car this fg i) as Hdi.
  { rewrite Hd. destruct i; [lia | reflexivity]. }
  destruct (compute_Ok _ _ _ _ _ _ Hc) as (bounds & fgv & fg1 & Ha & _ & Hcall & Hs' & Hf).
  rewrite Hs in Hs'. injection Hs' as <-.
  destruct (asserts_layout car n_variables n_constraints this is_direct is_closed
              dissipations bounds _ _ fgv fg Ha Hcall) as (HIN & Hrange & _);
    [destruct is_closed; simpl; lia|].
  apply finish_Ok in Hf as (Hlen & -> & -> & _).
  unfold recover_time. rewrite Hlen.
  destruct (recover_steps car this fg (export this (_q fg) (NSTATE car))
              (n_points this - 1)) as (_ & _ & _ & _ & _ & Hrec).
  - rewrite export_length. lia.
  - intros k Hk. rewrite export_length in Hk. rewrite export_row by done.
    rewrite length_map, length_seq. lia.
  - cbv zeta in Hrec. rewrite Hrec by lia. rewrite Hdi, <- Hd.
    apply Qplus_comp; [reflexivity|]. apply Qmult_comp; [reflexivity|]. apply Qplus_comm.
Qed.

(** A solve that returns exported the work arrays of [solved], the time
    entries apart. *)
Lemma exported_solution this level is_closed is_direct dissipations r fg :
  compute this level is_closed is_direct dissipations = Ok r ->
  solved this level is_direct is_closed dissipations = Ok fg ->
  qa r = export this (_qa fg) (NALGEBRAIC car)
  /\ u r = export this (_u fg) (NCONTROL car)
  /\ (forall i j, (i < n_points this)%nat -> (j < NSTATE car)%nat -> j <> ITIME car ->
        at_ (row (q r) i) j = at_ (row (_q fg) i) j).
Proof.
  intros Hc Hs.
  destruct (compute_Ok _ _ _ _ _ _ Hc) as (bounds & fgv & fg1 & Ha & _ & Hcall & Hs' & Hf).
  rewrite Hs in Hs'. injection Hs' as <-.
  apply call_Ok in Hcall as (Hn0 & _).
  apply finish_Ok in Hf as (Hlen & _ & -> & -> & -> & _).
  split; [done|]. split; [done|]. intros i j Hi Hj Hne.
  unfold recover_time.
  set (q0 := export this (_q fg) (NSTATE car)).
  assert (forall m, forall i j, j <> ITIME car ->
            at_ (row (fst (fold_left (recover_step car this fg) (seq 1 m)
                             (q0, dtimeds car this fg 0))) i) j
            = at_ (row q0 i) j) as Hother.
  { clear. intros m. induction m as [|m IH]; intros i j Hj; [done|].
    rewrite seq_S, fold_left_app. simpl fold_left.
    destruct (fold_left _ (seq 1 m) _) as [q d]. simpl in IH.
    unfold recover_step. cbv zeta. simpl fst.
    destruct (decide (i = S m)) as [->|Hne].
    - destruct (decide (S m < length q)%nat).
      + rewrite row_insert_eq by done. rewrite at_insert_ne by done. by apply IH.
      + rewrite list_insert_ge by lia. by apply IH.
    - rewrite row_insert_ne by done. by apply IH. }
  rewrite Hother by done. subst q0. rewrite export_row by done.
  rewrite (at_map _ _ _ 0%nat) by (rewrite length_seq; lia). by rewrite seq_nth.
Qed.

(** The lap time of a closed solve: the time of the last node plus the
    closing term of the mode, taken between the last and the first node. *)
Lemma closed_laptime this level is_direct dissipations r fg :
  compute this level true is_direct dissipations = Ok r ->
  solved this level is_direct true dissipations = Ok fg ->
  laptime r
  = (at_ (List.last (q r) []) (ITIME car)
     + closing_term is_direct (track_length car) (List.last (s this) 0)
         (dtimeds car this fg (n_points this - 1)) (dtimeds car this fg 0))%Q.
Proof.
  intros Hc Hs.
  destruct (compute_Ok _ _ _ _ _ _ Hc) as (bounds & fgv & fg1 & Ha & _ & Hcall & Hs' & Hf).
  rewrite Hs in Hs'. injection Hs' as <-.
  pose proof Hcall as Hcall'. apply call_Ok in Hcall' as (Hn0 & _).
  destruct (asserts_layout car n_variables n_constraints this is_direct true
              dissipations bounds _ _ fgv fg Ha Hcall) as (HIN & Hrange & _);
    [simpl; lia|].
  apply finish_Ok in Hf as (Hlen & _ & Hq & _ & _ & s_back & Hback & ->).
  f_equal. f_equal.
  - unfold back in Hback. destruct (s this); [discriminate|]. by injection Hback as <-.
  - unfold recover_time. rewrite Hlen.
    destruct (recover_steps car this fg (export this (_q fg) (NSTATE car))
                (n_points this - 1)) as (_ & Hd & _); [| |exact Hd].
    + rewrite export_length. lia.
    + intros k Hk. rewrite export_length in Hk. rewrite export_row by done.
      rewrite length_map, length_seq. lia.
Qed.

(** In derivative mode the closing term is the trapezoid of C1. *)
Lemma derivative_closed_laptime this level dissipations r fg :
  compute this level true false dissipations = Ok r ->
  solved this level false true dissipations = Ok fg ->
  laptime r
  == at_ (List.last (q r) []) (ITIME car)
     + (1 # 2) * (track_length car - List.last (s this) 0%Q)
       * (dtimeds car this fg (n_points this - 1) + dtimeds car this fg 0).
Proof. intros Hc Hs. rewrite (closed_laptime _ _ _ _ _ _ Hc Hs). reflexivity. Qed.

(** In direct mode the two derivatives are multiplied. *)
Lemma direct_closed_laptime this level dissipations r fg :
  compute this level true true dissipations = Ok r ->
  solved this level true true dissipations = Ok fg ->
  laptime r
  == at_ (List.last (q r) []) (ITIME car)
     + (1 # 2) * (track_length car - List.last (s this) 0%Q)
       * (dtimeds car this fg (n_points this - 1) * dtimeds car this fg 0).
Proof. intros Hc Hs. rewrite (closed_laptime _ _ _ _ _ _ Hc Hs). reflexivity. Qed.

(** C8. Whenever the bounds were assembled and the interior-point solver
    returns a status other than [success], [compute] (in either mode, on
    closed and open tracks) throws the runtime error "Optimization did not
    succeed"; no trajectory is exported. *)
Theorem failed_solve_throws this level is_closed is_direct dissipations bounds :
  assemble this is_direct is_closed = Ok bounds ->
  status (solver_result this level is_direct is_closed dissipations bounds) <> success ->
  compute this level is_closed is_direct dissipations
  = Throw (runtime_error "Optimization did not succeed").
Proof.
  intros Ha Hs. unfold Laptime.compute, compute_mode. rewrite Ha. simpl.
  by rewrite decide_True.
Qed.

(** Conversely, a trajectory comes from a solver run that reported
    [success]. *)
Lemma returned_solution_succeeded this level is_closed is_direct dissipations r :
  compute this level is_closed is_direct dissipations = Ok r ->
  exists bounds,
    assemble this is_direct is_closed = Ok bounds
    /\ status (solver_result this level is_direct is_closed dissipations bounds) = success.
Proof.
  intros Hc. destruct (compute_Ok _ _ _ _ _ _ Hc) as (bounds & _ & _ & Ha & Hs & _).
  by exists bounds.
Qed.

(** The constructor from [(s_start, s_finish, n)] never gets past its
    second check. *)
Lemma interval_constructor s_start s_finish n is_direct q0 qa0 u0 dissipations level :
  Optimal_laptime_interval car fg_init n_variables n_constraints ipopt_solve
    s_start s_finish n is_direct q0 qa0 u0 dissipations level
  = if Qlt_le_dec s_start (- (1 # 1000000000000))
    then Throw (runtime_error "s_start must be >= 0")
    else Undefined.
Proof. unfold Optimal_laptime_interval. by destruct (Qlt_le_dec _ _). Qed.

End Solving.

(** ** The sources on explicit inputs *)

(** C1. The specification asks, in both modes, for the lap time
    [q.back()[ITIME] + 0.5 (L - s.back()) (dtimeds_last + dtimeds_first)].
    On the closed three-node problem, built by the constructor that takes
    one initial state per node and solved in direct mode, the time of the
    last node is 16, [L - s.back()] is 6 and the two derivatives are 7 and
    1: the sources return [16 + 0.5 * 6 * (7 * 1) = 37], not
    [16 + 0.5 * 6 * (7 + 1) = 40]. *)
Theorem direct_laptime_multiplies :
  Optimal_laptime_warm toy_car zero_init 12 27 (echo_solver success)
    (s three_nodes) true true (q three_nodes) (qa three_nodes) (u three_nodes)
    toy_dissipations 0 = Ok direct_run
  /\ compute toy_car zero_init 12 27 (echo_solver success) three_nodes 0 true true
       toy_dissipations = Ok direct_run
  /\ solved toy_car zero_init 12 27 (echo_solver success) three_nodes 0 true true
       toy_dissipations = Ok direct_solved
  /\ dtimeds toy_car three_nodes direct_solved 2 == 7
  /\ dtimeds toy_car three_nodes direct_solved 0 == 1
  /\ at_ (List.last (q direct_run) []) (ITIME toy_car) == 16
  /\ track_length toy_car - List.last (s direct_run) 0%Q == 6
  /\ laptime direct_run == 37
  /\ ~ laptime direct_run
       == at_ (List.last (q direct_run) []) (ITIME toy_car)
          + (1 # 2) * (track_length toy_car - List.last (s direct_run) 0%Q)
            * (dtimeds toy_car three_nodes direct_solved 2
               + dtimeds toy_car three_nodes direct_solved 0).
Proof.
  repeat split; try (vm_compute; reflexivity).
  vm_compute. discriminate.
Qed.

(** The same problem in derivative mode returns 40. *)
Example derivative_laptime_adds :
  compute toy_car zero_init 15 30 (echo_solver success) three_nodes 0 true false
    toy_dissipations = Ok derivative_run
  /\ laptime derivative_run == 40.
Proof. split; vm_compute; reflexivity. Qed.

(** C2. The specification asks the constructor from [(s_start, s_finish, n)] to
    throw when [s_finish > L] and to build the mesh otherwise. With
    [s_start = 0] on the track of length 10, both [s_finish = 20] and
    [s_finish = 5] end in the read of [s.back()] on the empty vector,
    although the mesh [linspace(0, 5, 2)] itself would have been solved. *)
Theorem interval_constructor_reads_empty_vector :
  Optimal_laptime_interval toy_car zero_init 4 9 (echo_solver success)
    0 20 1 true [1; 0; 0]%Q [1%Q] [0%Q] toy_dissipations 0 = Undefined
  /\ Optimal_laptime_interval toy_car zero_init 4 9 (echo_solver success)
       0 5 1 true [1; 0; 0]%Q [1%Q] [0%Q] toy_dissipations 0 = Undefined
  /\ is_ok (compute toy_car zero_init 4 9 (echo_solver success)
              {| n_elements := 1; n_points := 2; s := linspace 0 5 2;
                 q := repeat [1; 0; 0]%Q 2; qa := repeat [1%Q] 2; u := repeat [0%Q] 2;
                 laptime := 0 |} 0 false true toy_dissipations) = true.
Proof. repeat split; vm_compute; reflexivity. Qed.

(** C5. The specification asks for
    [q_i[ITIME] = q_{i-1}[ITIME] + 0.5 (s_i - s_{i-1}) (dtimeds_{i-1} + dtimeds_i)]
    at every node [i >= 1], with [dtimeds_i] the [ITIME] component of the
    car equations at the solved state of node [i]. On the open mesh
    [s = [1, 2]], built by the constructor that takes one initial state per
    node and solved in direct mode, the two derivatives are 2 (node 0, at
    arclength 1) and 4 (node 1, at arclength 2), so the time of node 1
    should be [0 + 0.5 * 1 * (2 + 4) = 3]. The sources evaluate node 0 at
    the literal arclength [0.0], where the derivative is 1, and export
    [0 + 0.5 * 1 * (1 + 4) = 5/2]. *)
Theorem first_node_time_derivative_at_origin :
  Optimal_laptime_warm toy_car zero_init 4 9 (echo_solver success)
    [1; 2]%Q false true (q two_nodes_open) (qa two_nodes_open) (u two_nodes_open)
    toy_dissipations 0 = Ok open_run
  /\ s open_run = [1; 2]%Q
  /\ at_ (fst (equations toy_car (row (q open_run) 0) (row (qa open_run) 0)
                 (row (u open_run) 0) (at_ (s open_run) 0))) (ITIME toy_car) == 2
  /\ at_ (fst (equations toy_car (row (q open_run) 1) (row (qa open_run) 1)
                 (row (u open_run) 1) (at_ (s open_run) 1))) (ITIME toy_car) == 4
  /\ at_ (fst (equations toy_car (row (q open_run) 0) (row (qa open_run) 0)
                 (row (u open_run) 0) 0)) (ITIME toy_car) == 1
  /\ at_ (row (q open_run) 0) (ITIME toy_car) == 0
  /\ at_ (row (q open_run) 1) (ITIME toy_car) == 5 # 2
  /\ ~ at_ (row (q open_run) 1) (ITIME toy_car)
       == at_ (row (q open_run) (1 - 1)) (ITIME toy_car)
          + (1 # 2) * (at_ (s open_run) 1 - at_ (s open_run) (1 - 1))
            * (at_ (fst (equations toy_car (row (q open_run) (1 - 1))
                           (row (qa open_run) (1 - 1)) (row (u open_run) (1 - 1))
                           (at_ (s open_run) (1 - 1)))) (ITIME toy_car)
               + at_ (fst (equations toy_car (row (q open_run) 1) (row (qa open_run) 1)
                             (row (u open_run) 1) (at_ (s open_run) 1))) (ITIME toy_car)).
Proof.
  repeat split; try (vm_compute; reflexivity).
  vm_compute. discriminate.
Qed.

Lemma collocation_defects_witness :
  assemble toy_car 12 27 three_nodes true true = Ok direct_bounds
  /\ call toy_car 12 27 three_nodes true true toy_dissipations
       (new_FG toy_car zero_init 3) (x0 direct_bounds)
     = Ok (fst direct_call, snd direct_call)
  /\ at_ (fst direct_call) (S (constraint_index toy_car true 2 2))
     = (at_ (row (_q (snd direct_call)) 2) 2 - at_ (row (_q (snd direct_call)) (2 - 1)) 2
        - (1 # 2) * (at_ (s three_nodes) 2 - at_ (s three_nodes) (2 - 1))
          * (at_ (fst (equations toy_car (row (_q (snd direct_call)) (2 - 1))
                         (row (_qa (snd direct_call)) (2 - 1))
                         (row (_u (snd direct_call)) (2 - 1))
                         (at_ (s three_nodes) (2 - 1)))) 2
             + at_ (fst (equations toy_car (row (_q (snd direct_call)) 2)
                           (row (_qa (snd direct_call)) 2)
                           (row (_u (snd direct_call)) 2)
                           (at_ (s three_nodes) 2))) 2))%Q
  /\ at_ (c_lb direct_bounds) (constraint_index toy_car true 2 2) = 0%Q
  /\ at_ (c_ub direct_bounds) (constraint_index toy_car true 2 2) = 0%Q.
Proof.
  assert (assemble toy_car 12 27 three_nodes true true = Ok direct_bounds) as H1
    by (vm_compute; reflexivity).
  assert (call toy_car 12 27 three_nodes true true toy_dissipations
            (new_FG toy_car zero_init 3) (x0 direct_bounds)
          = Ok (fst direct_call, snd direct_call)) as H2 by (vm_compute; reflexivity).
  split; [exact H1|]. split; [exact H2|].
  destruct (collocation_defects toy_car 12 27 three_nodes true true toy_dissipations
              direct_bounds (new_FG toy_car zero_init 3) (x0 direct_bounds)
              (fst direct_call) (snd direct_call) 2 2 H1 H2) as (A & B & C).
  - simpl; lia.
  - simpl; lia.
  - discriminate.
  - auto.
Defined.

Lemma lateral_offset_bounds_witness :
  assemble toy_car 15 30 three_nodes false true = Ok derivative_bounds
  /\ call toy_car 15 30 three_nodes false true toy_dissipations
       (new_FG toy_car zero_init 3) (x0 derivative_bounds)
     = Ok (fst derivative_call, snd derivative_call)
  /\ at_ (row (_q (snd derivative_call)) 1) (IN toy_car)
     = at_ (x0 derivative_bounds) (variable_index toy_car false true 1 (IN toy_car))
  /\ at_ (x_lb derivative_bounds) (variable_index toy_car false true 1 (IN toy_car))
     = (- get_left_track_limit toy_car (at_ (s three_nodes) 1))%Q
  /\ at_ (x_ub derivative_bounds) (variable_index toy_car false true 1 (IN toy_car))
     = get_right_track_limit toy_car (at_ (s three_nodes) 1).
Proof.
  assert (assemble toy_car 15 30 three_nodes false true = Ok derivative_bounds) as H1
    by (vm_compute; reflexivity).
  assert (call toy_car 15 30 three_nodes false true toy_dissipations
            (new_FG toy_car zero_init 3) (x0 derivative_bounds)
          = Ok (fst derivative_call, snd derivative_call)) as H2
    by (vm_compute; reflexivity).
  split; [exact H1|]. split; [exact H2|].
  destruct (lateral_offset_bounds toy_car zero_init 15 30 three_nodes false true
              toy_dissipations derivative_bounds (x0 derivative_bounds)
              (fst derivative_call) (snd derivative_call) 1 H1 H2) as (A & _).
  - simpl; lia.
  - exact A.
Defined.

Lemma failed_solve_throws_witness :
  assemble toy_car 12 27 three_nodes true true = Ok direct_bounds
  /\ status (solver_result toy_car zero_init 12 27 (echo_solver maxiter_exceeded)
               three_nodes 0 true true toy_dissipations direct_bounds) <> success
  /\ compute toy_car zero_init 12 27 (echo_solver maxiter_exceeded) three_nodes 0
       true true toy_dissipations
     = Throw (runtime_error "Optimization did not succeed").
Proof.
  assert (assemble toy_car 12 27 three_nodes true true = Ok direct_bounds) as H1
    by (vm_compute; reflexivity).
  assert (status (solver_result toy_car zero_init 12 27 (echo_solver maxiter_exceeded)
                    three_nodes 0 true true toy_dissipations direct_bounds) <> success)
    as H2 by (simpl; discriminate).
  split; [exact H1|]. split; [exact H2|].
  exact (failed_solve_throws toy_car zero_init 12 27 (echo_solver maxiter_exceeded)
           three_nodes 0 true true toy_dissipations direct_bounds H1 H2).
Defined.

End Laptime_facts.

(** * Further properties of the registry API *)
Module Api_laws.

Import Api Examples Api_facts.

(** ** Scalars, vectors and names *)

Section Registry.

Context {Kart F1 Track : Type}.
Implicit Types t : tables Kart F1 Track.

Ltac run_api :=
  unfold copy_variable, move_variable, delete_variable, create_scalar, create_vector,
    download_scalar, download_vector, download_vector_size,
    check_variable_exists_in_tables, n_ocurrences, count, umap_insert,
    mbind, api_mbind, api_bind, get_tables, put_tables, throw, mret, api_mret, api_ret,
    set_kart, set_f1, set_track, set_vector, set_scalar; simpl.

(** X1. A scalar created under a fresh name is read back by
    [download_scalar]: [create_scalar(name, value)] followed by
    [download_scalar(name)] returns [value], and the only change to the
    tables is the new entry of the scalar table. *)
Theorem scalar_round_trip t name value :
  fresh t name ->
  (create_scalar name value ;; download_scalar name) t
  = (Ok value, set_scalar t (<[name := value]> (table_scalar t))).
Proof.
  intros (Hk & Hf & Ht & Hs & Hv).
  destruct t as [k f tr sc ve]; simpl in *.
  run_api. by simplify_map_eq.
Qed.

(** A size below [2^31] survives the conversion to [int] and back. *)
Lemma int_of_size_t_small n :
  (0 <= n < 2 ^ 31)%Z -> size_t_of_int (int_of_size_t n) = n.
Proof.
  intros H. unfold size_t_of_int, int_of_size_t.
  rewrite (Z.mod_small (n + 2 ^ 31)) by lia.
  rewrite Z.mod_small; lia.
Qed.

(** X2. A vector of fewer than [2^31] entries created under a fresh name is
    read back in full: [create_vector], then [download_vector_size], then
    [download_vector] with the size just obtained, returns the data. *)
Theorem vector_round_trip t name data :
  fresh t name -> (Z.of_nat (length data) < 2 ^ 31)%Z ->
  (create_vector name data ;; n ← download_vector_size name; download_vector n name) t
  = (Ok data, set_vector t (<[name := data]> (table_vector t))).
Proof.
  intros (Hk & Hf & Ht & Hs & Hv) Hlen.
  destruct t as [k f tr sc ve]; simpl in *.
  run_api. simplify_map_eq. simpl.
  rewrite int_of_size_t_small by lia.
  by rewrite decide_False by (intros H; by apply H).
Qed.

(** X3. [delete_variable] on a name held by exactly one table returns,
    leaves the name fresh and leaves every other name as it was. *)
Theorem delete_variable_removes t name :
  n_ocurrences t name = 1%nat ->
  exists t', delete_variable name t = (Ok tt, t') /\ fresh t' name
    /\ forall other, other <> name -> same_entry t t' other.
Proof.
  unfold fresh, same_entry.
  destruct t as [k f tr sc ve]; run_api.
  destruct (k !! name) eqn:Ek, (f !! name) eqn:Ef, (tr !! name) eqn:Et,
           (ve !! name) eqn:Ev, (sc !! name) eqn:Es; simpl; intros H; try lia;
    (eexists; split; [reflexivity|]; simpl;
     split; [by repeat split; simplify_map_eq |
             intros other Hne; by repeat split; simplify_map_eq]).
Qed.

(** X4. [delete_variable] on a name that no table holds, or that several
    tables hold, throws and leaves the tables as they were. *)
Theorem delete_variable_refuses t name :
  n_ocurrences t name <> 1%nat ->
  exists e, delete_variable name t = (Throw e, t).
Proof.
  destruct t as [k f tr sc ve]; run_api.
  destruct (k !! name) eqn:Ek, (f !! name) eqn:Ef, (tr !! name) eqn:Et,
           (ve !! name) eqn:Ev, (sc !! name) eqn:Es; simpl; intros H; try lia;
    eexists; reflexivity.
Qed.

(** X5. [copy_variable] from a name held by exactly one table to a fresh
    name returns; the new name then has, table by table, the entry of the
    old one, and every other name is as it was. *)
Theorem copy_variable_copies t x y :
  n_ocurrences t x = 1%nat -> fresh t y ->
  exists t', copy_variable x y t = (Ok tt, t') /\ entry_of t t' x y
    /\ forall other, other <> y -> same_entry t t' other.
Proof.
  unfold fresh, same_entry, entry_of.
  destruct t as [k f tr sc ve]; run_api.
  intros H (Hk & Hf & Ht & Hs & Hv). rewrite Hk, Hf, Ht, Hs, Hv. simpl.
  destruct (k !! x) eqn:Ek, (f !! x) eqn:Ef, (tr !! x) eqn:Et,
           (ve !! x) eqn:Ev, (sc !! x) eqn:Es; simpl in H; try lia;
    (eexists; split; [reflexivity|]; simpl;
     split; [by repeat split; simplify_map_eq |
             intros other Hne; by repeat split; simplify_map_eq]).
Qed.

(** X6. On a name held by at most one table, [move_variable(x, y)] is
    [copy_variable(x, y)] followed by [delete_variable(x)]: same outcome,
    same exception when one is thrown, same tables. *)
Theorem move_is_copy_then_delete t x y :
  (n_ocurrences t x <= 1)%nat ->
  move_variable x y t = (copy_variable x y ;; delete_variable x) t.
Proof.
  intros H. unfold move_variable, copy_variable.
  unfold mbind at 1 3 4, api_mbind, api_bind.
  destruct (check_cases t y) as [[(Hk & Hf & Ht & Hs & Hv) ->] | [e ->]]; [|done].
  revert H. destruct t as [k f tr sc ve]; simpl in *. run_api.
  destruct (k !! x) eqn:Ek, (f !! x) eqn:Ef, (tr !! x) eqn:Et,
           (ve !! x) eqn:Ev, (sc !! x) eqn:Es; simpl; intros H; try lia; try done;
   assert (x <> y) by congruence;
   rewrite ?Hk, ?Hf, ?Ht, ?Hs, ?Hv; simpl; by simplify_map_eq.
Qed.

(** *** Deleting by prefix *)

Lemma lookup_by_prefix {V : Type} (m : gmap string V) p name :
  delete_variable_by_prefix_generic m p !! name
  = if String.prefix p name then None else m !! name.
Proof.
  unfold delete_variable_by_prefix_generic.
  apply option_eq. intros v. rewrite map_lookup_filter_Some. simpl.
  destruct (String.prefix p name); [split; [by intros [_ ?] | done] | tauto].
Qed.

(** X7. [delete_variables_by_prefix] always returns; afterwards every name
    that starts with the prefix is fresh, vehicles and tracks included, and
    every other name is as it was. *)
Theorem delete_variables_by_prefix_spec t p :
  exists t', delete_variables_by_prefix p t = (Ok tt, t')
    /\ forall name,
         if String.prefix p name then fresh t' name else same_entry t t' name.
Proof.
  exists (snd (delete_variables_by_prefix p t)). split; [reflexivity|]. intros name.
  unfold fresh, same_entry; simpl. rewrite !lookup_by_prefix.
  destruct (String.prefix p name); auto.
Qed.

(** X8. With the empty prefix, [delete_variables_by_prefix] is
    [delete_variables]: all five tables are emptied. *)
Theorem empty_prefix_deletes_everything t :
  delete_variables_by_prefix EmptyString t = delete_variables t.
Proof.
  unfold delete_variables_by_prefix, delete_variables, mbind, api_mbind, api_bind,
    get_tables, put_tables. simpl.
  assert (forall V (m : gmap string V),
            delete_variable_by_prefix_generic m EmptyString = ∅) as H.
  { intros V m. apply map_eq. intros name.
    rewrite lookup_by_prefix, lookup_empty.
    by destruct name. }
  by rewrite !H.
Qed.

(** *** Counting *)

Lemma count_by_prefix {V : Type} (m : gmap string V) p name :
  (count (delete_variable_by_prefix_generic m p) name <= count m name)%nat.
Proof.
  unfold count. rewrite lookup_by_prefix.
  destruct (String.prefix p name), (m !! name); lia.
Qed.

Lemma count_delete_le {V : Type} (m : gmap string V) x name :
  (count (delete x m) name <= count m name)%nat.
Proof.
  unfold count. destruct (decide (name = x)) as [->|Hne].
  - rewrite lookup_delete_eq. destruct (m !! x); lia.
  - by rewrite lookup_delete_ne.
Qed.

Lemma count_replace {V : Type} (m : gmap string V) x v name :
  count m x <> 0%nat -> count (<[x := v]> m) name = count m name.
Proof.
  unfold count. intros H. destruct (decide (name = x)) as [->|Hne].
  - rewrite lookup_insert_eq. by destruct (m !! x).
  - by rewrite lookup_insert_ne.
Qed.

Lemma count_insert {V : Type} (m : gmap string V) x v name :
  count (<[x := v]> m) name = if decide (name = x) then 1%nat else count m name.
Proof.
  unfold count. case_decide as H.
  - subst. by rewrite lookup_insert_eq.
  - by rewrite lookup_insert_ne.
Qed.

Lemma count_delete {V : Type} (m : gmap string V) x name :
  count (delete x m) name = if decide (name = x) then 0%nat else count m name.
Proof.
  unfold count. case_decide as H.
  - subst. by rewrite lookup_delete_eq.
  - by rewrite lookup_delete_ne.
Qed.

Lemma count_0 {V : Type} (m : gmap string V) name :
  count m name = 0%nat -> m !! name = None.
Proof. unfold count. by destruct (m !! name). Qed.

Lemma n_ocurrences_fresh t name : fresh t name -> n_ocurrences t name = 0%nat.
Proof.
  intros (Hk & Hf & Ht & Hs & Hv). unfold n_ocurrences.
  by rewrite !count_None.
Qed.

(** *** One table per name *)

Ltac unique_step Hu Hfresh :=
  let other := fresh "other" in
  let Hzero := fresh "Hzero" in
  intros other; specialize (Hu other);
  pose proof (n_ocurrences_fresh _ _ Hfresh) as Hzero;
  unfold n_ocurrences in *; simpl in *;
  rewrite ?count_delete, ?count_insert; repeat case_decide; subst; lia.

(** Inserting a fresh name into one table keeps the names unique. *)
Lemma unique_insert_kart t name v :
  unique_names t -> fresh t name ->
  unique_names (set_kart t (<[name := v]> (table_kart_6dof t))).
Proof. intros Hu Hf. unique_step Hu Hf. Qed.

Lemma unique_insert_f1 t name v :
  unique_names t -> fresh t name ->
  unique_names (set_f1 t (<[name := v]> (table_f1_3dof t))).
Proof. intros Hu Hf. unique_step Hu Hf. Qed.

Lemma unique_insert_track t name v :
  unique_names t -> fresh t name ->
  unique_names (set_track t (<[name := v]> (table_track t))).
Proof. intros Hu Hf. unique_step Hu Hf. Qed.

Lemma unique_insert_scalar t name v :
  unique_names t -> fresh t name ->
  unique_names (set_scalar t (<[name := v]> (table_scalar t))).
Proof. intros Hu Hf. unique_step Hu Hf. Qed.

Lemma unique_insert_vector t name v :
  unique_names t -> fresh t name ->
  unique_names (set_vector t (<[name := v]> (table_vector t))).
Proof. intros Hu Hf. unique_step Hu Hf. Qed.

Lemma unique_smaller t t' :
  unique_names t -> (forall name, n_ocurrences t' name <= n_ocurrences t name)%nat ->
  unique_names t'.
Proof. intros Hu Hle name. specialize (Hu name). specialize (Hle name). lia. Qed.

Lemma copy_variable_unique t x y :
  unique_names t -> unique_names (snd (copy_variable x y t)).
Proof.
  intros Hu. unfold copy_variable. unfold mbind at 1, api_mbind, api_bind.
  destruct (check_cases t y) as [[Hy ->] | [e ->]]; [|exact Hu].
  pose proof Hy as (Hk & Hf & Ht & Hs & Hv).
  unfold mbind, api_mbind, api_bind, get_tables, put_tables, throw.
  repeat (case_match; simpl;
          [rewrite umap_insert_eq_insert by done;
           first [by apply unique_insert_kart | by apply unique_insert_f1
                 | by apply unique_insert_track | by apply unique_insert_scalar
                 | by apply unique_insert_vector] |]).
  exact Hu.
Qed.

Lemma move_variable_unique t x y :
  unique_names t -> unique_names (snd (move_variable x y t)).
Proof.
  intros Hu. unfold move_variable. unfold mbind at 1, api_mbind, api_bind.
  destruct (check_cases t y) as [[Hy ->] | [e ->]]; [|exact Hu].
  pose proof Hy as (Hk & Hf & Ht & Hs & Hv).
  unfold mbind, api_mbind, api_bind, get_tables, put_tables, throw.
  repeat (case_match; simpl;
          [rewrite umap_insert_eq_insert by done; unique_step Hu Hy |]).
  exact Hu.
Qed.

Lemma delete_variable_unique t name :
  unique_names t -> unique_names (snd (delete_variable name t)).
Proof.
  intros Hu. unfold delete_variable, mbind, api_mbind, api_bind, get_tables,
    put_tables, throw.
  repeat (case_decide; simpl; [first [exact Hu |
    apply (unique_smaller t); [done|]; intros other; unfold n_ocurrences; simpl;
    pose proof (count_delete_le (table_kart_6dof t) name other);
    pose proof (count_delete_le (table_f1_3dof t) name other);
    pose proof (count_delete_le (table_track t) name other);
    pose proof (count_delete_le (table_vector t) name other);
    pose proof (count_delete_le (table_scalar t) name other); lia] |]).
  exact Hu.
Qed.

Lemma delete_variables_by_prefix_unique t p :
  unique_names t -> unique_names (snd (delete_variables_by_prefix p t)).
Proof.
  intros Hu. apply (unique_smaller t); [done|]. intros other.
  unfold n_ocurrences; simpl.
  pose proof (count_by_prefix (table_kart_6dof t) p other).
  pose proof (count_by_prefix (table_f1_3dof t) p other).
  pose proof (count_by_prefix (table_track t) p other).
  pose proof (count_by_prefix (table_vector t) p other).
  pose proof (count_by_prefix (table_scalar t) p other). lia.
Qed.

(** X9. The operations on scalars, vectors and names keep every name in at
    most one table, whether they return or throw: [create_scalar],
    [create_vector], [copy_variable], [move_variable], [delete_variable]
    and [delete_variables_by_prefix]. *)
Theorem registry_keeps_unique_names t :
  unique_names t ->
  (forall name value, unique_names (snd (create_scalar name value t)))
  /\ (forall name data, unique_names (snd (create_vector name data t)))
  /\ (forall x y, unique_names (snd (copy_variable x y t)))
  /\ (forall x y, unique_names (snd (move_variable x y t)))
  /\ (forall name, unique_names (snd (delete_variable name t)))
  /\ (forall p, unique_names (snd (delete_variables_by_prefix p t))).
Proof.
  intros Hu. repeat split; intros.
  - by apply create_scalar_unique.
  - by apply create_vector_unique.
  - by apply copy_variable_unique.
  - by apply move_variable_unique.
  - by apply delete_variable_unique.
  - by apply delete_variables_by_prefix_unique.
Qed.

End Registry.

(** ** Creating vehicles and tracks *)

Section Creation.

Context {Kart F1 Track : Type}.
Implicit Types t : tables Kart F1 Track.
Context {Database : Type} (open_database : string -> outcome Database).
Context (get_root_attribute : Database -> string -> outcome string).
Context (kart_of_database : Database -> outcome Kart).
Context (f1_of_database : Database -> outcome F1).
Context (track_of_database : Database -> outcome Track).
Context (f1_empty : F1).

#[local] Abbreviation create_vehicle_from_xml :=
  (create_vehicle_from_xml open_database get_root_attribute kart_of_database
     f1_of_database).
#[local] Abbreviation create_track_from_xml :=
  (create_track_from_xml open_database get_root_attribute track_of_database).

(** X10. The name check comes first. When some table already holds [name],
    every operation that would register it throws the exception of
    [check_variable_exists_in_tables] and leaves the tables as they were;
    the three operations that read a file or build a vehicle do not get
    that far. *)
Theorem taken_name_is_refused t name :
  (0 < n_ocurrences t name)%nat ->
  exists e,
    (forall value, create_scalar name value t = (Throw e, t))
    /\ (forall data, create_vector name data t = (Throw e, t))
    /\ (forall old_name, copy_variable old_name name t = (Throw e, t))
    /\ (forall old_name, move_variable old_name name t = (Throw e, t))
    /\ (forall file, create_vehicle_from_xml name file t = (Throw e, t))
    /\ (forall type, create_vehicle_empty f1_empty name type t = (Throw e, t))
    /\ (forall file, create_track_from_xml name file t = (Throw e, t)).
Proof.
  intros H. destruct (check_taken t name H) as [e He]. exists e.
  unfold create_scalar, create_vector, copy_variable, move_variable,
    Api.create_vehicle_from_xml, create_vehicle_empty, Api.create_track_from_xml.
  repeat split; intros; unfold mbind at 1, api_mbind, api_bind; by rewrite He.
Qed.

Lemma create_vehicle_from_xml_unique t name file :
  unique_names t -> unique_names (snd (create_vehicle_from_xml name file t)).
Proof.
  intros Hu. unfold Api.create_vehicle_from_xml.
  unfold mbind at 1, api_mbind, api_bind.
  destruct (check_cases t name) as [[Hy ->] | [e ->]]; [|exact Hu].
  pose proof Hy as (Hk & Hf & Ht & Hs & Hv).
  unfold mbind, api_mbind, api_bind, lift, get_tables, put_tables, throw,
    insert_or_throw.
  destruct (open_database file) as [db| |]; [|exact Hu..].
  destruct (get_root_attribute db "type") as [type| |]; [|exact Hu..].
  destruct (String.eqb type "kart-6dof").
  { destruct (kart_of_database db); [|exact Hu..]. rewrite Hk.
    by apply unique_insert_kart. }
  destruct (String.eqb type "f1-3dof"); [|exact Hu].
  destruct (f1_of_database db); [|exact Hu..]. rewrite Hf.
  by apply unique_insert_f1.
Qed.

Lemma create_vehicle_empty_unique t name type :
  unique_names t -> unique_names (snd (create_vehicle_empty f1_empty name type t)).
Proof.
  intros Hu. unfold create_vehicle_empty.
  unfold mbind at 1, api_mbind, api_bind.
  destruct (check_cases t name) as [[Hy ->] | [e ->]]; [|exact Hu].
  pose proof Hy as (Hk & Hf & Ht & Hs & Hv).
  unfold mbind, api_mbind, api_bind, lift, get_tables, put_tables, throw,
    insert_or_throw.
  destruct (String.eqb type "kart-6dof"); [exact Hu|].
  destruct (String.eqb type "f1-3dof"); [|exact Hu].
  rewrite Hf. by apply unique_insert_f1.
Qed.

Lemma create_track_from_xml_unique t name file :
  unique_names t -> unique_names (snd (create_track_from_xml name file t)).
Proof.
  intros Hu. unfold Api.create_track_from_xml.
  unfold mbind at 1, api_mbind, api_bind.
  destruct (check_cases t name) as [[Hy ->] | [e ->]]; [|exact Hu].
  pose proof Hy as (Hk & Hf & Ht & Hs & Hv).
  unfold mbind, api_mbind, api_bind, lift, get_tables, put_tables, throw.
  destruct (open_database file) as [db| |]; [|exact Hu..].
  destruct (get_root_attribute db "format") as [format| |]; [|exact Hu..].
  destruct (negb (String.eqb format "discrete")); [exact Hu|].
  destruct (track_of_database db); [|exact Hu..].
  simpl. rewrite umap_insert_eq_insert by done. by apply unique_insert_track.
Qed.

(** X11. Creating a vehicle or a track keeps every name in at most one
    table, whatever the file holds and whether the call returns or throws. *)
Theorem creation_keeps_unique_names t :
  unique_names t ->
  (forall name file, unique_names (snd (create_vehicle_from_xml name file t)))
  /\ (forall name type, unique_names (snd (create_vehicle_empty f1_empty name type t)))
  /\ (forall name file, unique_names (snd (create_track_from_xml name file t))).
Proof.
  intros Hu. repeat split; intros.
  - by apply create_vehicle_from_xml_unique.
  - by apply create_vehicle_empty_unique.
  - by apply create_track_from_xml_unique.
Qed.

End Creation.

(** ** Operations on a registered vehicle *)

Section Vehicles.

Context {Kart F1 Track : Type} `{Kart_model : !Vehicle (Track := Track) Kart}
        `{F1_model : !Vehicle (Track := Track) F1}.
Implicit Types t : tables Kart F1 Track.
Context (set_parameter : F1 -> string -> Q -> outcome F1).
Context (kart_value : Kart -> list Q -> list Q -> list Q -> string -> Q).
Context (f1_value : F1 -> list Q -> list Q -> list Q -> string -> Q).
Context (kart_add_parameter : Kart -> string -> string -> Q -> outcome Kart).
Context (f1_add_parameter : F1 -> string -> string -> Q -> outcome F1).

#[local] Abbreviation vehicle_get_property :=
  (vehicle_get_property kart_value f1_value).
#[local] Abbreviation vehicle_declare_new_constant_parameter :=
  (vehicle_declare_new_constant_parameter kart_add_parameter f1_add_parameter).

Ltac same_names :=
  unfold mbind, api_mbind, api_bind, lift, get_tables, put_tables, throw, mret,
    api_mret, api_ret, umap_at;
  repeat first
    [ reflexivity
    | case_decide
    | match goal with
      | |- context [match ?m !! ?x with Some _ => _ | None => _ end] =>
          destruct (m !! x) eqn:?
      | |- context [match ?o with Ok _ => _ | Throw _ => _ | Undefined => _ end] =>
          destruct o eqn:?
      end
    | progress simpl ];
  try (unfold n_ocurrences; simpl;
       rewrite ?count_replace by assumption; reflexivity).

(** X12. The operations that act on a registered vehicle never register or
    remove a name: after [vehicle_change_track], [vehicle_set_parameter],
    [vehicle_declare_new_constant_parameter] or [vehicle_get_property],
    returning or throwing, every name is held by as many tables as before. *)
Theorem vehicle_operations_keep_names t name :
  (forall vehicle track,
     n_ocurrences (snd (vehicle_change_track vehicle track t)) name
     = n_ocurrences t name)
  /\ (forall vehicle parameter value,
        n_ocurrences (snd (vehicle_set_parameter set_parameter vehicle parameter value t))
          name
        = n_ocurrences t name)
  /\ (forall vehicle path alias value,
        n_ocurrences
          (snd (vehicle_declare_new_constant_parameter vehicle path alias value t)) name
        = n_ocurrences t name)
  /\ (forall vehicle q qa u s property,
        n_ocurrences (snd (vehicle_get_property vehicle q qa u s property t)) name
        = n_ocurrences t name).
Proof.
  repeat split; intros.
  - unfold vehicle_change_track. same_names.
  - unfold vehicle_set_parameter. same_names.
  - unfold Api.vehicle_declare_new_constant_parameter. same_names.
  - unfold Api.vehicle_get_property. same_names.
Qed.

(** What the generic function answers when its template parameter is
    neither of the two [_all] types. *)
Lemma property_of_other_type value name :
  is_ok (vehicle_get_property_generic None value name)
  = negb (String.eqb name "throttle") && negb (String.eqb name "brake-bias")
    && mem name common_property_names.
Proof.
  unfold vehicle_get_property_generic.
  destruct (String.eqb name "throttle"); [done|].
  destruct (String.eqb name "brake-bias"); [done|].
  destruct (mem name common_property_names); [done|].
  by destruct (mem name f1_only_output_names).
Qed.

Lemma mem_In name names : mem name names = true -> In name names.
Proof.
  unfold mem. induction names as [|n names IH]; simpl; [done|].
  destruct (String.eqb_spec n name) as [->|]; [by left|].
  destruct (find_index name names); [|done]. intros _. right. by apply IH.
Qed.

(** X13. Of the per-node variables that [optimal_laptime] can save for some
    vehicle model, [vehicle_get_property] answers, for a registered
    vehicle of either model, all but seven: [chassis.aerodynamics.cd],
    which it does not know, and [throttle], [brake-bias], [Fz_fl], [Fz_fr],
    [Fz_rl] and [Fz_rr], whose branches test the type of the scalar car
    against the two vehicle types and throw. *)
Theorem properties_of_saved_variables t vehicle q qa u s k opt name i :
  count (table_kart_6dof t) vehicle <> 0%nat \/ count (table_f1_3dof t) vehicle <> 0%nat ->
  is_ok (node_output k opt name i) = true ->
  is_ok (fst (vehicle_get_property vehicle q qa u s name t))
  = negb (mem name ["chassis.aerodynamics.cd"; "throttle"; "brake-bias";
                    "Fz_fl"; "Fz_fr"; "Fz_rl"; "Fz_rr"]).
Proof.
  intros Hreg Hout.
  assert (is_ok (fst (vehicle_get_property vehicle q qa u s name t))
          = (negb (String.eqb name "throttle") && negb (String.eqb name "brake-bias")
             && mem name common_property_names)) as ->.
  { unfold Api.vehicle_get_property, mbind, api_mbind, api_bind, get_tables, lift,
      put_tables, umap_at, count in *.
    destruct (table_kart_6dof t !! vehicle) as [car|].
    - rewrite decide_True by done. simpl. apply property_of_other_type.
    - rewrite decide_False by (intros H; by apply H).
      destruct (table_f1_3dof t !! vehicle) as [car|]; [|tauto].
      rewrite decide_True by done. simpl. apply property_of_other_type. }
  revert Hout. unfold node_output.
  destruct (mem name common_output_names) eqn:Ec.
  { intros _. apply mem_In in Ec. simpl in Ec.
    repeat (destruct Ec as [<- | Ec]; [reflexivity|]). done. }
  destruct (String.eqb_spec name "brake-bias") as [->|]; [intros _; reflexivity|].
  destruct (mem name f1_only_output_names) eqn:Ef; [|discriminate].
  intros _. apply mem_In in Ef. simpl in Ef.
  repeat (destruct Ef as [<- | Ef]; [reflexivity|]). done.
Qed.

End Vehicles.

(** ** The outputs of a solve *)

Section Saving.

Context {Kart F1 Track : Type} {sizes : Model_sizes}.
Implicit Types t : tables Kart F1 Track.

Lemma umap_insert_subseteq {V : Type} (m : gmap string V) name v :
  m ⊆ umap_insert name v m.
Proof.
  unfold umap_insert. destruct (m !! name) eqn:E; [done|].
  by apply insert_subseteq.
Qed.

Lemma umap_insert_lookup {V : Type} (m : gmap string V) name v :
  m !! name = None -> umap_insert name v m !! name = Some v.
Proof. intros H. unfold umap_insert. rewrite H. apply lookup_insert_eq. Qed.

(** *** A relation that every step of a solve respects

    [R] relates the tables before and after a step. When it is reflexive
    and transitive and holds across an insertion into the scalar or the
    vector table and across [store], it holds across the saving loop and
    across [compute_optimal_laptime], whether they return or throw. *)
Section Steps.

Variable R : tables Kart F1 Track -> tables Kart F1 Track -> Prop.
Hypothesis R_refl : forall t, R t t.
Hypothesis R_trans : forall t1 t2 t3, R t1 t2 -> R t2 t3 -> R t1 t3.
Hypothesis R_scalar : forall name v t, R t (snd (insert_scalar name v t)).
Hypothesis R_vector : forall name v t, R t (snd (insert_vector name v t)).

Lemma bind_steps {A B : Type} (m : api Kart F1 Track A)
    (k : A -> api Kart F1 Track B) t :
  R t (snd (m t)) -> (forall a t1, R t1 (snd (k a t1))) ->
  R t (snd ((m ≫= k) t)).
Proof.
  intros Hm Hk. unfold mbind, api_mbind, api_bind.
  destruct (m t) as [[a| |] t1]; simpl in *; try done.
  eapply R_trans; [exact Hm | apply Hk].
Qed.

Lemma for_each_steps {A : Type} (f : A -> api Kart F1 Track unit) l :
  (forall a t, R t (snd (f a t))) ->
  forall t, R t (snd (for_each f l t)).
Proof.
  intros Hf. induction l as [|a l IH]; intros t; simpl.
  - apply R_refl.
  - apply bind_steps; [apply Hf | intros _ t1; apply IH].
Qed.

Context {V : Type} `{!Vehicle (Track := Track) V}.
Variable store : V -> api Kart F1 Track unit.
Hypothesis R_store : forall car t, R t (snd (store car t)).

Lemma save_nodes_steps opt s v nodes : forall car t,
  R t (snd (save_nodes store opt s v car nodes t)).
Proof.
  induction nodes as [|i nodes IH]; intros car t; simpl; [apply R_refl|].
  apply bind_steps; [apply R_refl|]. intros car1 t1.
  apply bind_steps; [apply R_store|]. intros _ t2.
  apply bind_steps; [apply R_refl|]. intros value t3.
  apply bind_steps; [apply IH|]. intros [car2 data] t4. apply R_refl.
Qed.

Lemma save_variable_steps conf opt n s car v t :
  R t (snd (save_variable store conf opt n s car v t)).
Proof.
  unfold save_variable.
  apply bind_steps; [apply R_refl|]. intros t0 t1.
  repeat case_decide; try apply R_refl.
  destruct (String.eqb v "laptime").
  { apply bind_steps; [apply R_scalar|]. intros _ t2.
    apply bind_steps; [|intros; apply R_refl].
    destruct (compute_sensitivity conf); [|apply R_refl].
    apply for_each_steps. intros [i alias] t3. apply R_scalar. }
  destruct (String.prefix "integral_quantities." v).
  { case_match; [|apply R_refl].
    apply bind_steps; [apply R_scalar | intros; apply R_refl]. }
  apply bind_steps; [apply save_nodes_steps|]. intros [car1 data] t2.
  apply bind_steps; [apply R_vector|]. intros _ t3.
  apply bind_steps; [|intros; apply R_refl].
  destruct (compute_sensitivity conf); [|apply R_refl].
  apply for_each_steps. intros [i alias] t4. apply R_vector.
Qed.

Lemma save_variables_steps conf opt n s vars : forall car t,
  R t (snd (save_variables store conf opt n s car vars t)).
Proof.
  induction vars as [|v vars IH]; intros car t; simpl; [apply R_refl|].
  apply bind_steps; [apply save_variable_steps|]. intros car1 t1. apply IH.
Qed.

Lemma compute_optimal_laptime_steps KMH car track n s options t :
  R t (snd (compute_optimal_laptime KMH store car track n s options t)).
Proof.
  unfold compute_optimal_laptime.
  apply bind_steps; [apply R_refl|]. intros t0 t1.
  apply bind_steps; [apply R_refl|]. intros conf t2.
  apply bind_steps; [apply R_store|]. intros _ t3.
  apply bind_steps; [apply R_refl|]. intros opt t4.
  apply save_variables_steps.
Qed.

End Steps.

(** *** Scalars and vectors are only added *)

Lemma extends_refl t : extends t t.
Proof. by split. Qed.

Lemma extends_trans t1 t2 t3 : extends t1 t2 -> extends t2 t3 -> extends t1 t3.
Proof. intros [Hs Hv] [Hs' Hv']. split; by etrans. Qed.

Lemma insert_scalar_extends name v t : extends t (snd (insert_scalar name v t)).
Proof. split; simpl; [apply umap_insert_subseteq | done]. Qed.

Lemma insert_vector_extends name v t : extends t (snd (insert_vector name v t)).
Proof. split; simpl; [done | apply umap_insert_subseteq]. Qed.

Lemma saved_extends names conf opt n v t t' :
  extends t t' -> saved names conf opt n v t -> saved names conf opt n v t'.
Proof.
  intros [Hs Hv]. unfold saved. cbv zeta.
  destruct (String.eqb v "laptime"); [intros H; by eapply lookup_weaken|].
  destruct (String.prefix "integral_quantities." v).
  - intros (index & Hi & Hl). exists index. split; [done|]. by eapply lookup_weaken.
  - intros H; by eapply lookup_weaken.
Qed.

(** A name that is in the scalar or the vector table cannot be saved. *)
Lemma saved_is_taken names conf opt n v t :
  saved names conf opt n v t ->
  count (table_scalar t) (output_variables_prefix conf ++ v) <> 0%nat
  \/ count (table_vector t) (output_variables_prefix conf ++ v) <> 0%nat.
Proof.
  unfold saved, count. cbv zeta.
  destruct (String.eqb v "laptime"); [intros ->; by left|].
  destruct (String.prefix "integral_quantities." v).
  - intros (index & _ & ->). by left.
  - intros ->. by right.
Qed.

(** *** What a returning pass of the saving loop has stored *)

Section Outputs.

Context {V : Type} `{!Vehicle (Track := Track) V}.
Variable store : V -> api Kart F1 Track unit.
Hypothesis store_outputs : forall car t,
  table_scalar (snd (store car t)) = table_scalar t
  /\ table_vector (snd (store car t)) = table_vector t.

Lemma store_extends car t : extends t (snd (store car t)).
Proof. unfold extends. by destruct (store_outputs car t) as [-> ->]. Qed.

(** The loop over the nodes leaves the scalar and vector tables alone; its
    values are the per-node values of the solution, and the vehicle it
    leaves has been evaluated at every node in turn. *)
Lemma save_nodes_Ok opt s v nodes : forall car t car' data t',
  save_nodes store opt s v car nodes t = (Ok (car', data), t') ->
  data = map (node_value opt v) nodes
  /\ car' = fold_left
              (fun car i => evaluate car (nth i (q opt) []) (nth i (qa opt) [])
                              (control_array_at_s opt i (nth i s 0%Q)) (nth i s 0%Q))
              nodes car
  /\ table_scalar t' = table_scalar t /\ table_vector t' = table_vector t.
Proof.
  induction nodes as [|i nodes IH]; intros car t car' data t'; simpl.
  { by intros [= <- <- <-]. }
  unfold mbind at 1, api_mbind, api_bind, lift.
  destruct (evaluate_node opt s car i) as [car1| |] eqn:E1; try discriminate.
  unfold mbind at 1, api_mbind, api_bind.
  destruct (store car1 t) as [[[]| |] t1] eqn:E2; try discriminate.
  unfold mbind at 1, api_mbind, api_bind.
  destruct (node_output kind opt v i) as [value| |] eqn:E3; try discriminate.
  unfold mbind at 1, api_mbind, api_bind.
  destruct (save_nodes store opt s v car1 nodes t1) as [[[car2 data2]| |] t2] eqn:E4;
    try discriminate.
  intros [= <- <- <-].
  destruct (IH _ _ _ _ _ E4) as (-> & -> & Hs & Hv).
  pose proof (store_outputs car1 t) as [Hs1 Hv1]. rewrite E2 in Hs1, Hv1. simpl in *.
  unfold evaluate_node in E1.
  destruct (q opt !! i) as [q_i|] eqn:Eq; [|discriminate].
  destruct (qa opt !! i) as [qa_i|] eqn:Eqa; [|discriminate].
  injection E1 as <-.
  rewrite (nth_lookup_Some _ _ [] _ Eq), (nth_lookup_Some _ _ [] _ Eqa).
  repeat split; [|congruence..].
  f_equal. revert E3. unfold node_output.
  repeat (case_match; try discriminate); by intros [= <-].
Qed.

(** A pass of the saving loop that returns found the name free and stored
    the value. *)
Lemma save_variable_Ok conf opt n s car v t car' t' :
  save_variable store conf opt n s car v t = (Ok car', t') ->
  saved integral_quantities_names conf opt n v t'.
Proof.
  unfold save_variable.
  unfold mbind at 1, api_mbind, api_bind, get_tables.
  case_decide as Hs; [discriminate|]. case_decide as Hv; [discriminate|].
  apply count_0 in Hs, Hv. unfold saved. cbv zeta.
  destruct (String.eqb v "laptime").
  { unfold mbind at 1, api_mbind, api_bind.
    destruct (insert_scalar _ _ t) as [o t1] eqn:E1.
    unfold insert_scalar, mbind, api_mbind, api_bind, get_tables, put_tables in E1.
    injection E1 as <- <-.
    unfold mbind at 1, api_mbind, api_bind.
    match goal with
    | |- context [match ?m ?t1 with _ => _ end] =>
        assert (extends t1 (snd (m t1))) as Hext1;
        [| destruct (m t1) as [[[]| |] t2]; try discriminate]
    end.
    { destruct (compute_sensitivity conf); [|apply extends_refl].
      apply (for_each_steps extends extends_refl extends_trans).
      intros [i alias] t3. apply insert_scalar_extends. }
    intros [= <- <-]. destruct Hext1 as [Hsub _].
    eapply lookup_weaken; [|exact Hsub]. simpl. by apply umap_insert_lookup. }
  destruct (String.prefix "integral_quantities." v).
  { destruct (find_index _ integral_quantities_names) as [index|]; [|discriminate].
    unfold insert_scalar, mbind, api_mbind, api_bind, get_tables, put_tables.
    intros [= <- <-]. exists index. split; [done|]. simpl. by apply umap_insert_lookup. }
  unfold mbind at 1, api_mbind, api_bind.
  destruct (save_nodes store opt s v car (seq 0 n) t) as [[[car1 data]| |] t1] eqn:Ed;
    try discriminate.
  apply save_nodes_Ok in Ed as (-> & _ & Hs1 & Hv1).
  unfold mbind at 1, api_mbind, api_bind.
  destruct (insert_vector _ _ t1) as [o t2] eqn:E1.
  unfold insert_vector, mbind, api_mbind, api_bind, get_tables, put_tables in E1.
  injection E1 as <- <-.
  unfold mbind at 1, api_mbind, api_bind.
  match goal with
  | |- context [match ?m ?t2 with _ => _ end] =>
      assert (extends t2 (snd (m t2))) as Hext1;
      [| destruct (m t2) as [[[]| |] t3]; try discriminate]
  end.
  { destruct (compute_sensitivity conf); [|apply extends_refl].
    apply (for_each_steps extends extends_refl extends_trans).
    intros [i alias] t3. apply insert_vector_extends. }
  intros [= <- <-]. destruct Hext1 as [_ Hsub].
  eapply lookup_weaken; [|exact Hsub]. simpl. apply umap_insert_lookup. congruence.
Qed.

Lemma save_variables_extends conf opt n s car vars t :
  extends t (snd (save_variables store conf opt n s car vars t)).
Proof.
  apply (save_variables_steps extends extends_refl extends_trans
           insert_scalar_extends insert_vector_extends store store_extends).
Qed.

Lemma save_variables_Ok conf opt n s vars : forall car t t',
  save_variables store conf opt n s car vars t = (Ok tt, t') ->
  forall v, In v vars -> saved integral_quantities_names conf opt n v t'.
Proof.
  induction vars as [|v0 vars IH]; intros car t t' H v Hin; [done|].
  simpl in H. unfold mbind, api_mbind, api_bind in H.
  destruct (save_variable store conf opt n s car v0 t) as [[car1| |] t1] eqn:E1;
    try discriminate.
  destruct Hin as [<- | Hin].
  - apply save_variable_Ok in E1.
    pose proof (save_variables_extends conf opt n s car1 vars t1) as Hext.
    rewrite H in Hext. by eapply saved_extends.
  - by eapply IH.
Qed.

Lemma save_variable_taken conf opt n s car v t :
  count (table_scalar t) (output_variables_prefix conf ++ v) <> 0%nat
  \/ count (table_vector t) (output_variables_prefix conf ++ v) <> 0%nat ->
  exists e, save_variable store conf opt n s car v t = (Throw e, t).
Proof.
  intros H. unfold save_variable, mbind at 1, api_mbind, api_bind, get_tables.
  case_decide; [by eexists|]. case_decide; [by eexists|]. tauto.
Qed.

(** The vehicle that a returning saving loop leaves: evaluated at every
    node in turn, once for each variable that has one value per node. *)
Lemma save_variable_car conf opt n s car v t car' t' :
  save_variable store conf opt n s car v t = (Ok car', t') ->
  car' = if String.eqb v "laptime" || String.prefix "integral_quantities." v
         then car
         else fold_left
                (fun car i => evaluate car (nth i (q opt) []) (nth i (qa opt) [])
                                (control_array_at_s opt i (nth i s 0%Q)) (nth i s 0%Q))
                (seq 0 n) car.
Proof.
  unfold save_variable.
  unfold mbind at 1, api_mbind, api_bind, get_tables.
  case_decide as Hs; [discriminate|]. case_decide as Hv; [discriminate|].
  destruct (String.eqb v "laptime"); simpl.
  { unfold mbind, api_mbind, api_bind, mret, api_mret, api_ret.
    repeat (case_match; try discriminate); by intros [= <- <-]. }
  destruct (String.prefix "integral_quantities." v).
  { unfold mbind, api_mbind, api_bind, mret, api_mret, api_ret, throw.
    repeat (case_match; try discriminate); by intros [= <- <-]. }
  unfold mbind at 1, api_mbind, api_bind.
  destruct (save_nodes store opt s v car (seq 0 n) t) as [[[car1 data]| |] t1] eqn:Ed;
    try discriminate.
  apply save_nodes_Ok in Ed as (_ & -> & _).
  unfold mbind, api_mbind, api_bind, mret, api_mret, api_ret.
  repeat (case_match; try discriminate); by intros [= <- <-].
Qed.

End Outputs.

End Saving.

(** ** The configuration of a solve *)

Section Configuration.

Context {sizes : Model_sizes}.

(** The parts of the option document that decide the outputs, the initial
    condition and the control variables of a configuration. *)
Lemma configuration_fields kind names vectors doc c :
  make_Optimal_laptime_configuration kind names vectors (Some doc) = Ok c ->
  let d := default_configuration kind in
  (if has_element doc "options/output_variables" then
     p ← get_element doc "options/output_variables/prefix";
     prefix ← get_value_text p;
     variables_node ← get_element doc "options/output_variables/variables";
     Ok (prefix, get_children_names variables_node)
   else Ok (output_variables_prefix d, variables_to_save d))
  = Ok (output_variables_prefix c, variables_to_save c)
  /\ read_if_present doc "options/closed_simulation" get_value_bool (is_closed d)
     = Ok (is_closed c)
  /\ (if is_closed c then Ok (set_initial_condition d, q_start d, qa_start d, u_start d)
      else if negb (has_element doc "options/initial_condition") then
        Throw (fastest_lap_exception
          "For open simulations, the initial condition must be providedin 'options/initial_condition'")
      else
        eq ← get_element doc "options/initial_condition/q";
        nq ← get_attribute eq "from_table";
        v_q_start ← umap_at vectors nq;
        eqa ← get_element doc "options/initial_condition/qa";
        nqa ← get_attribute eqa "from_table";
        v_qa_start ← umap_at vectors nqa;
        eu ← get_element doc "options/initial_condition/u";
        nu ← get_attribute eu "from_table";
        v_u_start ← umap_at vectors nu;
        q_start_ ← copy_into_array v_q_start (q_start d);
        qa_start_ ← copy_into_array v_qa_start (qa_start d);
        u_start_ ← copy_into_array v_u_start (u_start d);
        Ok (true, q_start_, qa_start_, u_start_))
     = Ok (set_initial_condition c, q_start c, qa_start c, u_start c)
  /\ (if has_element doc "options/control_variables" then
        e ← get_element doc "options/control_variables";
        foldM (parse_control_variable doc names)
          (control_type d, dissipations d, hypermeshes d) (get_children_names e)
      else Ok (control_type d, dissipations d, hypermeshes d))
     = Ok (control_type c, dissipations c, hypermeshes c).
Proof.
  unfold make_Optimal_laptime_configuration. intros H.
  unfold mbind at 1 2 3 4 5 6 7 8 9 10 11 12 13, outcome_bind, bind in H.
  repeat match type of H with
         | match ?m with Ok _ => _ | Throw _ => _ | Undefined => _ end = Ok _ =>
             destruct m as [?| |] eqn:?; [| discriminate H | discriminate H]
         | (let '(_, _) := ?p in _) = Ok _ => destruct p
         end.
  injection H as <-. simpl. auto.
Qed.

Lemma configuration_default kind names vectors c :
  make_Optimal_laptime_configuration kind names vectors None = Ok c ->
  c = default_configuration kind.
Proof. simpl. by intros [= <-]. Qed.

(** The output prefix and the list of output variables of a configuration
    depend on the option document only. *)
Lemma configuration_outputs kind names v1 v2 options c1 c2 :
  make_Optimal_laptime_configuration kind names v1 options = Ok c1 ->
  make_Optimal_laptime_configuration kind names v2 options = Ok c2 ->
  output_variables_prefix c1 = output_variables_prefix c2
  /\ variables_to_save c1 = variables_to_save c2.
Proof.
  destruct options as [doc|].
  - intros H1 H2.
    apply configuration_fields in H1 as (H1 & _), H2 as (H2 & _).
    cbv zeta in *. rewrite H1 in H2. by injection H2 as <- <-.
  - intros H1 H2. apply configuration_default in H1, H2. by subst.
Qed.

(** Copying a vector into an array whose entries are all indeterminate. *)
Lemma copy_into_indeterminate v n a :
  copy_into_array v (indeterminate n) = Ok a ->
  (length v <= n)%nat /\ a = ((Some <$> v) ++ repeat None (n - length v))%list.
Proof.
  unfold copy_into_array, indeterminate. rewrite repeat_length.
  case_decide as Hn; [|discriminate]. intros [= <-]. split; [done|]. f_equal.
  clear. revert n. induction v as [|x v IH]; intros n; simpl.
  - by rewrite Nat.sub_0_r.
  - destruct n; [done|]. simpl. apply IH.
Qed.

(** X14. A configuration of an open simulation carries an initial
    condition: the option document has the node [options/initial_condition],
    the vector table has the three vectors named by the [from_table]
    attributes of its children [q], [qa] and [u], none of them longer than
    the array it is copied into ([NSTATE], [NALGEBRAIC] and the number of
    controls of the model), and each of [q_start], [qa_start] and [u_start]
    holds the entries of its vector followed by entries that were never
    written. *)
Theorem open_simulation_initial_condition kind names vectors doc c :
  make_Optimal_laptime_configuration kind names vectors (Some doc) = Ok c ->
  is_closed c = false ->
  set_initial_condition c = true
  /\ has_element doc "options/initial_condition" = true
  /\ exists nq nqa nu vq vqa vu,
       (e ← get_element doc "options/initial_condition/q"; get_attribute e "from_table")
         = Ok nq
       /\ (e ← get_element doc "options/initial_condition/qa"; get_attribute e "from_table")
          = Ok nqa
       /\ (e ← get_element doc "options/initial_condition/u"; get_attribute e "from_table")
          = Ok nu
       /\ vectors !! nq = Some vq /\ vectors !! nqa = Some vqa /\ vectors !! nu = Some vu
       /\ (length vq <= NSTATE kind)%nat
       /\ (length vqa <= NALGEBRAIC kind)%nat
       /\ (length vu <= length (get_default_control_types kind))%nat
       /\ q_start c = ((Some <$> vq) ++ repeat None (NSTATE kind - length vq))%list
       /\ qa_start c = ((Some <$> vqa) ++ repeat None (NALGEBRAIC kind - length vqa))%list
       /\ u_start c
          = ((Some <$> vu)
             ++ repeat None (length (get_default_control_types kind) - length vu))%list.
Proof.
  intros H Hopen. apply configuration_fields in H as (_ & _ & H & _).
  rewrite Hopen in H.
  destruct (has_element doc "options/initial_condition"); [|discriminate].
  simpl in H. unfold mbind, outcome_bind, bind, umap_at in *.
  destruct (get_element doc "options/initial_condition/q") as [eq| |]; try discriminate.
  destruct (get_attribute eq "from_table") as [nq| |]; try discriminate.
  destruct (vectors !! nq) as [vq|] eqn:Eq; try discriminate.
  destruct (get_element doc "options/initial_condition/qa") as [eqa| |]; try discriminate.
  destruct (get_attribute eqa "from_table") as [nqa| |]; try discriminate.
  destruct (vectors !! nqa) as [vqa|] eqn:Eqa; try discriminate.
  destruct (get_element doc "options/initial_condition/u") as [eu| |]; try discriminate.
  destruct (get_attribute eu "from_table") as [nu| |]; try discriminate.
  destruct (vectors !! nu) as [vu|] eqn:Eu; try discriminate.
  destruct (copy_into_array vq _) as [aq| |] eqn:Cq; try discriminate.
  destruct (copy_into_array vqa _) as [aqa| |] eqn:Cqa; try discriminate.
  destruct (copy_into_array vu _) as [au| |] eqn:Cu; try discriminate.
  injection H as <- <- <- <-.
  apply copy_into_indeterminate in Cq as [Hq ->], Cqa as [Hqa ->], Cu as [Hu ->].
  split; [done|]. split; [done|]. exists nq, nqa, nu, vq, vqa, vu.
  rewrite Eq, Eqa, Eu. by repeat split.
Qed.

Lemma parse_control_variable_invariant doc names acc name acc' n :
  parse_control_variable doc names acc name = Ok acc' ->
  let '(types, diss, hyper) := acc in
  let '(types', diss', hyper') := acc' in
  (Forall supported_control_type types /\ length types = n /\ length diss = n
   /\ length hyper = n) ->
  Forall supported_control_type types' /\ length types' = n /\ length diss' = n
  /\ length hyper' = n.
Proof.
  destruct acc as [[types diss] hyper]. destruct acc' as [[types' diss'] hyper'].
  unfold parse_control_variable.
  destruct (find_index name names) as [i|]; [|discriminate].
  unfold mbind, outcome_bind, bind.
  destruct (get_element doc _) as [variable| |]; try discriminate.
  destruct (get_attribute variable "type") as [type| |]; try discriminate.
  destruct (String.eqb_spec type "dont optimize") as [->|].
  { intros [= <- <- <-] (Hf & <- & Hd & Hh). rewrite length_insert.
    repeat split; try done. apply Forall_insert; [done | by left]. }
  destruct (String.eqb_spec type "constant"); [discriminate|].
  destruct (String.eqb_spec type "hypermesh") as [->|].
  { destruct (get_element doc _) as [h| |]; try discriminate.
    destruct (get_value_vector h) as [mesh| |]; try discriminate.
    intros [= <- <- <-] (Hf & <- & Hd & Hh). rewrite !length_insert.
    repeat split; try done. apply Forall_insert; [done | by right; left]. }
  destruct (String.eqb_spec type "full-mesh") as [->|]; [|discriminate].
  destruct (has_element doc _).
  - destruct (get_element doc _) as [d| |]; try discriminate.
    destruct (get_value_scalar d) as [x| |]; try discriminate.
    intros [= <- <- <-] (Hf & <- & Hd & Hh). rewrite !length_insert.
    repeat split; try done. apply Forall_insert; [done | by right; right].
  - intros [= <- <- <-] (Hf & <- & Hd & Hh). rewrite !length_insert.
    repeat split; try done. apply Forall_insert; [done | by right; right].
Qed.

Lemma parse_control_variables_invariant doc names n children : forall acc acc',
  foldM (parse_control_variable doc names) acc children = Ok acc' ->
  let '(types, diss, hyper) := acc in
  let '(types', diss', hyper') := acc' in
  (Forall supported_control_type types /\ length types = n /\ length diss = n
   /\ length hyper = n) ->
  Forall supported_control_type types' /\ length types' = n /\ length diss' = n
  /\ length hyper' = n.
Proof.
  induction children as [|name children IH]; intros acc acc'; simpl.
  - intros [= <-]. by destruct acc as [[? ?] ?].
  - unfold mbind, outcome_bind, bind.
    destruct (parse_control_variable doc names acc name) as [acc1| |] eqn:E1;
      try discriminate.
    intros H. apply (parse_control_variable_invariant _ _ _ _ _ n) in E1.
    apply IH in H.
    destruct acc as [[? ?] ?], acc1 as [[? ?] ?], acc' as [[? ?] ?]. tauto.
Qed.

(** X15. In a configuration that the constructor returns, every control
    has one of the types [dont optimize], [hypermesh] and [full-mesh]
    (the type [constant] and any other text make the constructor throw),
    and the three per-control lists keep the number of controls of the
    vehicle model. *)
Theorem configuration_controls kind names vectors options c :
  make_Optimal_laptime_configuration kind names vectors options = Ok c ->
  Forall supported_control_type (control_type c)
  /\ length (control_type c) = length (get_default_control_types kind)
  /\ length (dissipations c) = length (get_default_control_types kind)
  /\ length (hypermeshes c) = length (get_default_control_types kind).
Proof.
  assert (Forall supported_control_type (get_default_control_types kind)
          /\ length (get_default_control_types kind)
             = length (get_default_control_types kind)
          /\ length (get_default_dissipations kind)
             = length (get_default_control_types kind)
          /\ length (map (fun _ : string => @nil Q) (get_default_control_types kind))
             = length (get_default_control_types kind)) as Hd.
  { split; [|by destruct kind].
    destruct kind; simpl;
      repeat first [apply Forall_nil_2
                   | apply Forall_cons_2; [unfold supported_control_type; auto|]]. }
  destruct options as [doc|].
  - intros H. apply configuration_fields in H as (_ & _ & _ & H).
    cbv zeta in H. simpl in H.
    destruct (has_element doc "options/control_variables").
    + unfold mbind, outcome_bind, bind in H.
      destruct (get_element doc "options/control_variables") as [e| |]; try discriminate.
      apply (parse_control_variables_invariant _ _
               (length (get_default_control_types kind))) in H.
      by apply H.
    + by injection H as <- <- <-.
  - intros H. apply configuration_default in H as ->. exact Hd.
Qed.

End Configuration.

(** ** Solving twice *)

Section Solve.

Context {Kart F1 Track : Type} {sizes : Model_sizes}
        `{Kart_model : !Vehicle (Track := Track) Kart}
        `{F1_model : !Vehicle (Track := Track) F1}.
Implicit Types t : tables Kart F1 Track.
Variable KMH : Q.

(** What a returning [compute_optimal_laptime] went through. *)
Lemma compute_optimal_laptime_Ok {V : Type} `{!Vehicle (Track := Track) V}
    (store : V -> api Kart F1 Track unit) car track n s options t t' :
  compute_optimal_laptime KMH store car track n s options t = (Ok tt, t') ->
  exists conf opt t1,
    make_Optimal_laptime_configuration (@kind _ V _) (@u_names _ V _)
      (table_vector t) options = Ok conf
    /\ store (change_track car track) t = (Ok tt, t1)
    /\ solve_optimal_laptime (change_track car track) (steady_state_speed conf * KMH)%Q
         conf n (firstn n s) = Ok opt
    /\ save_variables store conf opt n s (change_track car track)
         (variables_to_save conf) t1 = (Ok tt, t').
Proof.
  unfold compute_optimal_laptime, mbind at 1 2 3 4, api_mbind, api_bind, get_tables, lift.
  destruct (make_Optimal_laptime_configuration _ _ _ _) as [conf| |] eqn:Ec;
    try discriminate.
  destruct (store (change_track car track) t) as [[[]| |] t1] eqn:Es; try discriminate.
  destruct (solve_optimal_laptime _ _ _ _ _) as [opt| |] eqn:Eo; try discriminate.
  intros H. by exists conf, opt, t1.
Qed.

(** X16. After a [compute_optimal_laptime] that returns, every variable
    listed in the options is stored under [prefix ++ name]: [laptime] and
    the integral quantities in the scalar table, any other variable in the
    vector table with exactly one value per node. This holds for every
    way [store] of writing the vehicle back that leaves the scalar and
    vector tables as they are, as the two of [optimal_laptime] do. *)
Theorem outputs_are_saved {V : Type} `{!Vehicle (Track := Track) V}
    (store : V -> api Kart F1 Track unit) car track n s options t t' :
  (forall car' t1, table_scalar (snd (store car' t1)) = table_scalar t1
                   /\ table_vector (snd (store car' t1)) = table_vector t1) ->
  compute_optimal_laptime KMH store car track n s options t = (Ok tt, t') ->
  exists conf opt,
    make_Optimal_laptime_configuration (@kind _ V _) (@u_names _ V _)
      (table_vector t) options = Ok conf
    /\ solve_optimal_laptime (change_track car track) (steady_state_speed conf * KMH)%Q
         conf n (firstn n s) = Ok opt
    /\ forall v, In v (variables_to_save conf) ->
         saved (@integral_quantities_names _ V _) conf opt n v t'.
Proof.
  intros Hstore H.
  apply compute_optimal_laptime_Ok in H as (conf & opt & t1 & Hc & _ & Ho & Hl).
  exists conf, opt. split; [done|]. split; [done|].
  by eapply save_variables_Ok.
Qed.

(** *** What a solve changes in the tables *)

Lemma updates_refl vehicle t : updates vehicle t t.
Proof. by repeat split. Qed.

Lemma updates_trans vehicle t1 t2 t3 :
  updates vehicle t1 t2 -> updates vehicle t2 t3 -> updates vehicle t1 t3.
Proof.
  intros (Ht & Hs & Hv & Hn) (Ht' & Hs' & Hv' & Hn').
  split; [congruence|]. split; [by etrans|]. split; [by etrans|].
  intros name. destruct (Hn name) as (H1 & H2 & H3), (Hn' name) as (H1' & H2' & H3').
  split; [|split; congruence].
  intros Hne. destruct (H1 Hne), (H1' Hne). split; congruence.
Qed.

Lemma updates_scalar vehicle name v t : updates vehicle t (snd (insert_scalar name v t)).
Proof. repeat split; simpl; try done. apply umap_insert_subseteq. Qed.

Lemma updates_vector vehicle name v t : updates vehicle t (snd (insert_vector name v t)).
Proof. repeat split; simpl; try done. apply umap_insert_subseteq. Qed.

Lemma updates_kart vehicle car t :
  count (table_kart_6dof t) vehicle <> 0%nat ->
  updates vehicle t (set_kart t (<[vehicle := car]> (table_kart_6dof t))).
Proof.
  intros H. repeat split; simpl; try done.
  - by rewrite lookup_insert_ne.
  - by apply count_replace.
Qed.

Lemma updates_f1 vehicle car t :
  count (table_f1_3dof t) vehicle <> 0%nat ->
  updates vehicle t (set_f1 t (<[vehicle := car]> (table_f1_3dof t))).
Proof.
  intros H. repeat split; simpl; try done.
  - by rewrite lookup_insert_ne.
  - by apply count_replace.
Qed.

(** [optimal_laptime], returning or throwing, changes the tables as
    [updates] says. *)
Lemma optimal_laptime_updates t vehicle track n s options :
  updates vehicle t (snd (optimal_laptime KMH vehicle track n s options t)).
Proof.
  unfold optimal_laptime, mbind at 1, api_mbind, api_bind, get_tables.
  case_decide as Hk.
  { unfold mbind at 1 2, api_mbind, api_bind, lift.
    destruct (umap_at (table_kart_6dof t) vehicle) as [car| |]; try apply updates_refl.
    destruct (umap_at (table_track t) track) as [tr| |]; try apply updates_refl.
    refine (compute_optimal_laptime_steps
              (fun t1 t2 => count (table_kart_6dof t1) vehicle <> 0%nat
                            -> updates vehicle t1 t2)
              _ _ _ _ _ _ KMH car tr n s options t Hk).
    - intros; apply updates_refl.
    - intros t1 t2 t3 H12 H23 H1. specialize (H12 H1).
      eapply updates_trans; [exact H12|]. apply H23.
      destruct H12 as (_ & _ & _ & Hn). destruct (Hn vehicle) as (_ & -> & _). done.
    - intros; apply updates_scalar.
    - intros; apply updates_vector.
    - intros car' t1 H1. simpl. by apply updates_kart. }
  case_decide as Hf; [|apply updates_refl].
  unfold mbind at 1 2, api_mbind, api_bind, lift.
  destruct (umap_at (table_f1_3dof t) vehicle) as [car| |]; try apply updates_refl.
  destruct (umap_at (table_track t) track) as [tr| |]; try apply updates_refl.
  refine (compute_optimal_laptime_steps
            (fun t1 t2 => count (table_f1_3dof t1) vehicle <> 0%nat
                          -> updates vehicle t1 t2)
            _ _ _ _ _ _ KMH car tr n s options t Hf).
  - intros; apply updates_refl.
  - intros t1 t2 t3 H12 H23 H1. specialize (H12 H1).
    eapply updates_trans; [exact H12|]. apply H23.
    destruct H12 as (_ & _ & _ & Hn). destruct (Hn vehicle) as (_ & _ & ->). done.
  - intros; apply updates_scalar.
  - intros; apply updates_vector.
  - intros car' t1 H1. simpl. by apply updates_f1.
Qed.

(** X17. [optimal_laptime] never removes or overwrites an entry of the
    track, scalar or vector tables, whether it returns or throws: the
    tracks are as before and every scalar and vector that was there is
    still there with its value. No vehicle is registered or removed, and
    only the vehicle named in the call can have changed. *)
Theorem optimal_laptime_keeps_entries t vehicle track n s options :
  let t' := snd (optimal_laptime KMH vehicle track n s options t) in
  table_track t' = table_track t
  /\ table_scalar t ⊆ table_scalar t'
  /\ table_vector t ⊆ table_vector t'
  /\ forall name,
       (name <> vehicle ->
        table_kart_6dof t' !! name = table_kart_6dof t !! name
        /\ table_f1_3dof t' !! name = table_f1_3dof t !! name)
       /\ count (table_kart_6dof t') name = count (table_kart_6dof t) name
       /\ count (table_f1_3dof t') name = count (table_f1_3dof t) name.
Proof. exact (optimal_laptime_updates t vehicle track n s options). Qed.

(** *** The vehicle after a solve *)

(** The vehicle that the saving loop leaves in its table: evaluated at every
    node in turn, once for each variable that has one value per node. *)
#[local] Abbreviation evaluated_car conf opt n s vehicle_on_track :=
  (fold_left
     (fun car variable_name =>
        if String.eqb variable_name "laptime"
           || String.prefix "integral_quantities." variable_name
        then car
        else fold_left
               (fun car i =>
                  evaluate car (nth i (q opt) []) (nth i (qa opt) [])
                    (control_array_at_s opt i (nth i s 0%Q)) (nth i s 0%Q))
               (seq 0 n) car)
     (variables_to_save conf) vehicle_on_track).

Section Written_back.

Context {V : Type} `{!Vehicle (Track := Track) V}.
Variable store : V -> api Kart F1 Track unit.
Variable Inv : V -> tables Kart F1 Track -> Prop.
Hypothesis store_outputs : forall car t,
  table_scalar (snd (store car t)) = table_scalar t
  /\ table_vector (snd (store car t)) = table_vector t.
Hypothesis Inv_store : forall car car' t, Inv car t -> Inv car' (snd (store car' t)).
Hypothesis Inv_scalar : forall car name v t,
  Inv car t -> Inv car (snd (insert_scalar name v t)).
Hypothesis Inv_vector : forall car name v t,
  Inv car t -> Inv car (snd (insert_vector name v t)).

Lemma save_nodes_written opt s v nodes : forall car t,
  Inv car t ->
  match save_nodes store opt s v car nodes t with
  | (Ok (car', _), t') => Inv car' t'
  | _ => True
  end.
Proof.
  induction nodes as [|i nodes IH]; intros car t HI; simpl; [done|].
  unfold mbind at 1, api_mbind, api_bind, lift.
  destruct (evaluate_node opt s car i) as [car1| |]; try done.
  unfold mbind at 1, api_mbind, api_bind.
  pose proof (Inv_store car car1 t HI) as H1.
  destruct (store car1 t) as [[[]| |] t1]; try done.
  unfold mbind at 1, api_mbind, api_bind.
  destruct (node_output kind opt v i) as [value| |]; try done.
  unfold mbind at 1, api_mbind, api_bind.
  specialize (IH car1 t1 H1).
  by destruct (save_nodes store opt s v car1 nodes t1) as [[[car2 data2]| |] t2].
Qed.

Lemma inserts_written {A : Type} car (f : A -> api Kart F1 Track unit) l t :
  (forall a t1, Inv car t1 -> Inv car (snd (f a t1))) ->
  Inv car t -> Inv car (snd (for_each f l t)).
Proof.
  intros Hf.
  apply (for_each_steps (fun t1 t2 => Inv car t1 -> Inv car t2)); auto.
Qed.

Lemma save_variable_written conf opt n s car v t car' t' :
  Inv car t ->
  save_variable store conf opt n s car v t = (Ok car', t') -> Inv car' t'.
Proof.
  intros HI. unfold save_variable.
  unfold mbind at 1, api_mbind, api_bind, get_tables.
  case_decide as Hs; [discriminate|]. case_decide as Hv; [discriminate|].
  destruct (String.eqb v "laptime").
  { unfold mbind at 1, api_mbind, api_bind.
    pose proof (Inv_scalar car (output_variables_prefix conf ++ v) (laptime opt) t HI) as H1.
    destruct (insert_scalar _ _ t) as [[[]| |] t1]; try discriminate.
    unfold mbind at 1, api_mbind, api_bind.
    match goal with
    | |- context [match ?m ?t1 with _ => _ end] =>
        assert (Inv car (snd (m t1))) as H2;
        [| destruct (m t1) as [[[]| |] t2]; try discriminate]
    end.
    { destruct (compute_sensitivity conf); [|done].
      apply inserts_written; [|done]. intros [i alias] t3. apply Inv_scalar. }
    by intros [= <- <-]. }
  destruct (String.prefix "integral_quantities." v).
  { destruct (find_index _ integral_quantities_names) as [index|]; [|discriminate].
    unfold mbind at 1, api_mbind, api_bind.
    pose proof (Inv_scalar car (output_variables_prefix conf ++ v)
                  (nth index (integral_quantities opt) 0%Q) t HI) as H1.
    destruct (insert_scalar _ _ t) as [[[]| |] t1]; try discriminate.
    by intros [= <- <-]. }
  unfold mbind at 1, api_mbind, api_bind.
  pose proof (save_nodes_written opt s v (seq 0 n) car t HI) as H1.
  destruct (save_nodes store opt s v car (seq 0 n) t) as [[[car1 data]| |] t1];
    try discriminate.
  unfold mbind at 1, api_mbind, api_bind.
  pose proof (Inv_vector car1 (output_variables_prefix conf ++ v) data t1 H1) as H2.
  destruct (insert_vector _ _ t1) as [[[]| |] t2]; try discriminate.
  unfold mbind at 1, api_mbind, api_bind.
  match goal with
  | |- context [match ?m ?t2 with _ => _ end] =>
      assert (Inv car1 (snd (m t2))) as H3;
      [| destruct (m t2) as [[[]| |] t3]; try discriminate]
  end.
  { destruct (compute_sensitivity conf); [|done].
    apply inserts_written; [|done]. intros [i alias] t3. apply Inv_vector. }
  by intros [= <- <-].
Qed.

Lemma save_variables_written conf opt n s vars : forall car t t',
  Inv car t ->
  save_variables store conf opt n s car vars t = (Ok tt, t') ->
  Inv (fold_left
         (fun car variable_name =>
            if String.eqb variable_name "laptime"
               || String.prefix "integral_quantities." variable_name
            then car
            else fold_left
                   (fun car i =>
                      evaluate car (nth i (q opt) []) (nth i (qa opt) [])
                        (control_array_at_s opt i (nth i s 0%Q)) (nth i s 0%Q))
                   (seq 0 n) car)
         vars car) t'.
Proof.
  induction vars as [|v vars IH]; intros car t t' HI; simpl.
  { by intros [= <-]. }
  unfold mbind, api_mbind, api_bind.
  destruct (save_variable store conf opt n s car v t) as [[car1| |] t1] eqn:E1;
    try discriminate.
  intros H. rewrite <- (save_variable_car store store_outputs _ _ _ _ _ _ _ _ _ E1).
  eapply IH; [|exact H]. by eapply save_variable_written.
Qed.

End Written_back.

(** X18. A solve that returns leaves the car on the track of the solve and
    evaluated at the nodes of the solved trajectory: the entry of the
    vehicle is the car after [change_track] and after the call
    [car_curv_sc(q[i], qa[i], control_array_at_s(i, s[i]), s[i])] at every
    node [i] in turn, repeated for each saved variable that has one value
    per node. Every other entry of the two vehicle tables is as it was. *)
Theorem solve_leaves_car_evaluated t vehicle track n s options :
  let r := optimal_laptime KMH vehicle track n s options t in
  fst r = Ok tt ->
  (forall car, table_kart_6dof t !! vehicle = Some car ->
     exists tr conf opt,
       table_track t !! track = Some tr
       /\ make_Optimal_laptime_configuration (@kind _ Kart _) (@u_names _ Kart _)
            (table_vector t) options = Ok conf
       /\ solve_optimal_laptime (change_track car tr) (steady_state_speed conf * KMH)%Q
            conf n (firstn n s) = Ok opt
       /\ table_kart_6dof (snd r)
          = <[vehicle := evaluated_car conf opt n s (change_track car tr)]>
              (table_kart_6dof t)
       /\ table_f1_3dof (snd r) = table_f1_3dof t)
  /\ (forall car,
        table_kart_6dof t !! vehicle = None -> table_f1_3dof t !! vehicle = Some car ->
        exists tr conf opt,
          table_track t !! track = Some tr
          /\ make_Optimal_laptime_configuration (@kind _ F1 _) (@u_names _ F1 _)
               (table_vector t) options = Ok conf
          /\ solve_optimal_laptime (change_track car tr) (steady_state_speed conf * KMH)%Q
               conf n (firstn n s) = Ok opt
          /\ table_f1_3dof (snd r)
             = <[vehicle := evaluated_car conf opt n s (change_track car tr)]>
                 (table_f1_3dof t)
          /\ table_kart_6dof (snd r) = table_kart_6dof t).
Proof.
  cbv zeta.
  destruct (optimal_laptime KMH vehicle track n s options t) as [o t'] eqn:E.
  simpl. intros ->.
  unfold optimal_laptime, mbind at 1, api_mbind, api_bind, get_tables, count in E.
  split.
  - intros car Ecar. rewrite Ecar in E. rewrite decide_True in E by done.
    unfold mbind at 1 2, api_mbind, api_bind, lift, umap_at in E. rewrite Ecar in E.
    destruct (table_track t !! track) as [tr|] eqn:Etr; [|discriminate].
    apply compute_optimal_laptime_Ok in E as (conf & opt & t1 & Hc & Hs & Ho & Hl).
    unfold mbind, api_mbind, api_bind, get_tables, put_tables in Hs.
    injection Hs as <-.
    exists tr, conf, opt. split; [done|]. split; [done|]. split; [done|].
    refine (save_variables_written _
              (fun c t1 => table_kart_6dof t1 = <[vehicle := c]> (table_kart_6dof t)
                           /\ table_f1_3dof t1 = table_f1_3dof t)
              _ _ _ _ conf opt n s _ _ _ _ _ Hl); simpl; try done.
    intros c c' t1 [-> ->]. split; [|done]. apply insert_insert_eq.
  - intros car Ek Ecar. rewrite Ek in E.
    rewrite decide_False in E by (intros H; by apply H).
    rewrite Ecar in E. rewrite decide_True in E by done.
    unfold mbind at 1 2, api_mbind, api_bind, lift, umap_at in E. rewrite Ecar in E.
    destruct (table_track t !! track) as [tr|] eqn:Etr; [|discriminate].
    apply compute_optimal_laptime_Ok in E as (conf & opt & t1 & Hc & Hs & Ho & Hl).
    unfold mbind, api_mbind, api_bind, get_tables, put_tables in Hs.
    injection Hs as <-.
    exists tr, conf, opt. split; [done|]. split; [done|]. split; [done|].
    refine (save_variables_written _
              (fun c t1 => table_f1_3dof t1 = <[vehicle := c]> (table_f1_3dof t)
                           /\ table_kart_6dof t1 = table_kart_6dof t)
              _ _ _ _ conf opt n s _ _ _ _ _ Hl); simpl; try done.
    intros c c' t1 [-> ->]. split; [|done]. apply insert_insert_eq.
Qed.

(** *** Solving twice *)

(** A second solve with the same options, after a first one that stored
    something, stops at the name of the first output. *)
Lemma compute_twice {V : Type} `{!Vehicle (Track := Track) V}
    (store : V -> api Kart F1 Track unit)
    car car2 track track2 n n2 s s2 options t t' :
  (forall car' t1, table_scalar (snd (store car' t1)) = table_scalar t1
                   /\ table_vector (snd (store car' t1)) = table_vector t1) ->
  compute_optimal_laptime KMH store car track n s options t = (Ok tt, t') ->
  table_scalar t' <> table_scalar t \/ table_vector t' <> table_vector t ->
  fst (compute_optimal_laptime KMH store car2 track2 n2 s2 options t') <> Ok tt.
Proof.
  intros Hstore H Hnew.
  apply compute_optimal_laptime_Ok in H as (conf & opt & t1 & Hc & Hs & _ & Hl).
  pose proof (Hstore (change_track car track) t) as [Hs1 Hv1].
  rewrite Hs in Hs1, Hv1. simpl in Hs1, Hv1.
  destruct (variables_to_save conf) as [|v0 vars] eqn:Evars.
  { simpl in Hl. injection Hl as <-. destruct Hnew; congruence. }
  assert (saved (@integral_quantities_names _ V _) conf opt n v0 t') as Hsaved
    by (eapply save_variables_Ok; [exact Hstore | exact Hl | by left]).
  apply saved_is_taken in Hsaved.
  unfold compute_optimal_laptime, mbind at 1 2 3 4, api_mbind, api_bind, get_tables, lift.
  destruct (make_Optimal_laptime_configuration _ _ (table_vector t') _) as [conf2| |] eqn:Ec2;
    try done.
  destruct (configuration_outputs _ _ _ _ _ _ _ Hc Ec2) as [Hp Hv].
  pose proof (Hstore (change_track car2 track2) t') as [Hs2 Hv2].
  destruct (store (change_track car2 track2) t') as [[[]| |] t2]; try done.
  simpl in Hs2, Hv2.
  destruct (solve_optimal_laptime _ _ _ _ _) as [opt2| |]; try done.
  rewrite <- Hv, Evars. simpl save_variables. unfold mbind, api_mbind, api_bind.
  destruct (save_variable_taken store conf2 opt2 n2 s2 (change_track car2 track2) v0 t2)
    as [e ->]; [|done].
  by rewrite <- Hp, Hs2, Hv2.
Qed.

(** X19. Outputs have to be deleted between two solves. If
    [optimal_laptime] returned and stored at least one scalar or vector,
    a second call for the same vehicle with the same options does not
    return normally, whatever the track, the number of points and the
    mesh of the second call. *)
Theorem second_run_is_refused t vehicle track track2 n n2 s s2 options :
  let r := optimal_laptime KMH vehicle track n s options t in
  fst r = Ok tt ->
  table_scalar (snd r) <> table_scalar t \/ table_vector (snd r) <> table_vector t ->
  fst (optimal_laptime KMH vehicle track2 n2 s2 options (snd r)) <> Ok tt.
Proof.
  cbv zeta.
  pose proof (optimal_laptime_updates t vehicle track n s options) as (Htr & _ & _ & Hn).
  destruct (Hn vehicle) as (_ & Hck & Hcf).
  destruct (optimal_laptime KMH vehicle track n s options t) as [o t'] eqn:E.
  simpl in *. intros -> Hnew.
  unfold optimal_laptime, mbind at 1, api_mbind, api_bind, get_tables in E.
  unfold optimal_laptime, mbind at 1, api_mbind, api_bind, get_tables.
  rewrite Hck, Hcf.
  case_decide as Hk.
  { unfold mbind at 1 2, api_mbind, api_bind, lift in E.
    destruct (umap_at (table_kart_6dof t) vehicle) as [car| |]; try discriminate.
    destruct (umap_at (table_track t) track) as [tr| |]; try discriminate.
    unfold mbind at 1 2, api_mbind, api_bind, lift.
    destruct (umap_at (table_kart_6dof t') vehicle) as [car2| |]; try done.
    destruct (umap_at (table_track t') track2) as [tr2| |]; try done.
    eapply compute_twice; [|exact E | exact Hnew]. done. }
  case_decide as Hf.
  { unfold mbind at 1 2, api_mbind, api_bind, lift in E.
    destruct (umap_at (table_f1_3dof t) vehicle) as [car| |]; try discriminate.
    destruct (umap_at (table_track t) track) as [tr| |]; try discriminate.
    unfold mbind at 1 2, api_mbind, api_bind, lift.
    destruct (umap_at (table_f1_3dof t') vehicle) as [car2| |]; try done.
    destruct (umap_at (table_track t') track2) as [tr2| |]; try done.
    eapply compute_twice; [|exact E | exact Hnew]. done. }
  injection E as <-. destruct Hnew; congruence.
Qed.

End Solve.

(** ** The circuit preprocessor *)

(** What the option document decides in a preprocessor configuration. *)
Lemma preprocessor_configuration_fields doc conf :
  make_Circuit_preprocessor_configuration doc = Ok conf ->
  (e ← get_element doc "options/is_closed"; get_value_bool e) = Ok (cp_is_closed conf)
  /\ (cp_is_closed conf = false -> mode conf = EQUALLY_SPACED)
  /\ (if has_element doc "options/optimization" then
        read_if_present doc "options/optimization/cost_curvature" get_value_scalar
          (5 * 10000)%Q
      else Ok (5 * 10000)%Q) = Ok (eps_k conf)
  /\ (if has_element doc "options/optimization" then
        read_if_present doc "options/optimization/cost_curvature" get_value_scalar
          (1 # 10)%Q
      else Ok (1 # 10)%Q) = Ok (eps_c conf).
Proof.
  unfold make_Circuit_preprocessor_configuration. intros H.
  repeat first
    [ match type of H with
      | match ?m with Ok _ => _ | Throw _ => _ | Undefined => _ end = Ok _ =>
          destruct m as [?| |] eqn:?; [| discriminate H | discriminate H]
      | (let '(_, _) := ?p in _) = Ok _ => destruct p
      end
    | progress (unfold mbind at 1 in H; unfold outcome_bind, bind in H) ].
  injection H as <-. simpl.
  split; [assumption|]. split; [|done].
  intros ->.
  match goal with
  | |- ?m = EQUALLY_SPACED => destruct m; [done | simpl in *; discriminate]
  end.
Qed.

Section Preprocessor.

Context {Kart F1 Track Kml : Type} (open_kml : string -> outcome Kml).
Context (run_preprocessor :
           Kml -> Kml -> Circuit_preprocessor_configuration -> outcome Circuit_preprocessor).
Context (track_of_preprocessor : Circuit_preprocessor -> Track).
Implicit Types t : tables Kart F1 Track.

(** X20. [circuit_preprocessor] has no open tracks. When the node
    [options/is_closed] of the options holds [false], the call does not
    return normally, in either mode and whatever the other options are,
    and the tables are left as they were. *)
Theorem open_track_is_rejected doc t :
  (e ← get_element doc "options/is_closed"; get_value_bool e) = Ok false ->
  let r := circuit_preprocessor open_kml run_preprocessor track_of_preprocessor doc t in
  is_ok (fst r) = false /\ snd r = t.
Proof.
  intros Hopen. cbv zeta.
  destruct (circuit_preprocessor _ _ _ doc t) as [o t'] eqn:E. simpl. revert E.
  unfold circuit_preprocessor.
  unfold mbind at 1 2 3 4, api_mbind, api_bind, lift.
  destruct (make_Circuit_preprocessor_configuration doc) as [conf| |] eqn:Ec;
    [|by intros [= <- <-]..].
  apply preprocessor_configuration_fields in Ec as (Hc & Hm & _).
  rewrite Hopen in Hc. injection Hc as Hc. symmetry in Hc.
  rewrite (Hm Hc), Hc.
  destruct (open_kml (kml_file_left conf)); [|by intros [= <- <-]..].
  destruct (open_kml (kml_file_right conf)); by intros [= <- <-].
Qed.

End Preprocessor.

(** X21. In the preprocessor options, the value of
    [options/optimization/cost_curvature] is stored in both weights
    [eps_k] and [eps_c] of the configuration. *)
Theorem curvature_cost_sets_two_weights doc conf x :
  make_Circuit_preprocessor_configuration doc = Ok conf ->
  has_element doc "options/optimization" = true ->
  (e ← get_element doc "options/optimization/cost_curvature"; get_value_scalar e) = Ok x ->
  eps_k conf = x /\ eps_c conf = x.
Proof.
  intros Hc Ho Hx. apply preprocessor_configuration_fields in Hc as (_ & _ & Hk & Hcc).
  rewrite Ho in Hk, Hcc. unfold read_if_present, has_element, get_element in *.
  destruct (doc !! "options/optimization/cost_curvature"); [|discriminate].
  rewrite Hx in Hk, Hcc. by injection Hk as <-; injection Hcc as <-.
Qed.

(** ** The properties above on explicit registries *)

(** The sizes of the toy models, for the configurations built below. *)
#[local] Existing Instance toy_sizes.

Lemma scalar_round_trip_witness :
  fresh with_scalar "mass"
  /\ (create_scalar "mass" 660%Q ;; download_scalar "mass") with_scalar
     = (Ok 660%Q, set_scalar with_scalar (<["mass" := 660%Q]> (table_scalar with_scalar))).
Proof.
  assert (fresh with_scalar "mass") as H by (repeat split; reflexivity).
  split; [exact H|]. exact (scalar_round_trip with_scalar "mass" 660%Q H).
Defined.

Lemma vector_round_trip_witness :
  (create_vector "gains" [1; 2; 3]%Q ;;
   n ← download_vector_size "gains"; download_vector n "gains") with_scalar
  = (Ok [1; 2; 3]%Q,
     set_vector with_scalar (<["gains" := [1; 2; 3]%Q]> (table_vector with_scalar))).
Proof.
  apply vector_round_trip.
  - repeat split; reflexivity.
  - reflexivity.
Defined.

Lemma delete_variable_removes_witness :
  exists t', delete_variable "catalunya" with_scalar = (Ok tt, t')
    /\ fresh t' "catalunya"
    /\ forall other, other <> "catalunya" -> same_entry with_scalar t' other.
Proof. apply delete_variable_removes. reflexivity. Defined.

Lemma delete_variable_refuses_witness :
  n_ocurrences with_scalar "ghost" <> 1%nat
  /\ exists e, delete_variable "ghost" with_scalar = (Throw e, with_scalar).
Proof.
  assert (n_ocurrences with_scalar "ghost" <> 1%nat) as H by (vm_compute; lia).
  split; [exact H|]. exact (delete_variable_refuses with_scalar "ghost" H).
Defined.

Lemma copy_variable_copies_witness :
  exists t', copy_variable "catalunya" "copy" with_scalar = (Ok tt, t')
    /\ entry_of with_scalar t' "catalunya" "copy"
    /\ forall other, other <> "copy" -> same_entry with_scalar t' other.
Proof.
  apply copy_variable_copies.
  - reflexivity.
  - repeat split; reflexivity.
Defined.

Lemma move_is_copy_then_delete_witness :
  move_variable "catalunya" "moved" with_scalar
  = (copy_variable "catalunya" "moved" ;; delete_variable "catalunya") with_scalar.
Proof. apply move_is_copy_then_delete. vm_compute. lia. Defined.

Lemma registry_keeps_unique_names_witness :
  (forall name value, unique_names (snd (create_scalar name value with_scalar)))
  /\ (forall name data, unique_names (snd (create_vector name data with_scalar)))
  /\ (forall x y, unique_names (snd (copy_variable x y with_scalar)))
  /\ (forall x y, unique_names (snd (move_variable x y with_scalar)))
  /\ (forall name, unique_names (snd (delete_variable name with_scalar)))
  /\ (forall p, unique_names (snd (delete_variables_by_prefix p with_scalar))).
Proof. apply registry_keeps_unique_names. exact with_scalar_unique. Defined.

Lemma taken_name_is_refused_witness :
  exists e,
    (forall value, create_scalar "catalunya" value with_scalar = (Throw e, with_scalar))
    /\ (forall data, create_vector "catalunya" data with_scalar = (Throw e, with_scalar))
    /\ (forall old_name,
          copy_variable old_name "catalunya" with_scalar = (Throw e, with_scalar))
    /\ (forall old_name,
          move_variable old_name "catalunya" with_scalar = (Throw e, with_scalar))
    /\ (forall file,
          create_vehicle_from_xml toy_open_database toy_root_attribute toy_of_database
            toy_of_database "catalunya" file with_scalar = (Throw e, with_scalar))
    /\ (forall type,
          create_vehicle_empty tt "catalunya" type with_scalar = (Throw e, with_scalar))
    /\ (forall file,
          create_track_from_xml toy_open_database toy_root_attribute toy_of_database
            "catalunya" file with_scalar = (Throw e, with_scalar)).
Proof.
  apply (taken_name_is_refused toy_open_database toy_root_attribute toy_of_database
           toy_of_database toy_of_database tt with_scalar "catalunya").
  vm_compute. lia.
Defined.

Lemma creation_keeps_unique_names_witness :
  (forall name file,
     unique_names (snd (create_vehicle_from_xml toy_open_database toy_root_attribute
                          toy_of_database toy_of_database name file with_scalar)))
  /\ (forall name type, unique_names (snd (create_vehicle_empty tt name type with_scalar)))
  /\ (forall name file,
        unique_names (snd (create_track_from_xml toy_open_database toy_root_attribute
                             toy_of_database name file with_scalar))).
Proof.
  apply (creation_keeps_unique_names toy_open_database toy_root_attribute toy_of_database
           toy_of_database toy_of_database tt with_scalar).
  exact with_scalar_unique.
Defined.

Lemma properties_of_saved_variables_witness :
  is_ok (node_output limebeer2014f1_all (speed_recorder 0 3) "throttle" 0) = true
  /\ is_ok (fst (vehicle_get_property (Kart_model := toy_kart) (F1_model := toy_f1)
                   toy_value toy_value "car" [] [] [] 0 "throttle" paddock)) = false.
Proof.
  split; [reflexivity|].
  apply (properties_of_saved_variables (Kart_model := toy_kart) (F1_model := toy_f1)
           toy_value toy_value paddock "car" [] [] [] 0 limebeer2014f1_all
           (speed_recorder 0 3) "throttle" 0).
  - right. vm_compute. lia.
  - reflexivity.
Defined.

Lemma open_simulation_initial_condition_witness :
  exists c,
    make_Optimal_laptime_configuration lot2016kart_all (u_names (Vehicle := toy_kart))
      start_vectors (Some open_options) = Ok c
    /\ is_closed c = false
    /\ set_initial_condition c = true
    /\ q_start c = [Some 50; Some 0; Some 0]%Q
    /\ qa_start c = [Some 1%Q]
    /\ u_start c = [Some 0; Some 0]%Q.
Proof.
  destruct (make_Optimal_laptime_configuration lot2016kart_all
              (u_names (Vehicle := toy_kart)) start_vectors (Some open_options))
    as [c| |] eqn:E; [| vm_compute in E; discriminate..].
  assert (is_closed c = false) as Hopen.
  { vm_compute in E. by injection E as <-. }
  exists c. split; [done|]. split; [done|].
  destruct (open_simulation_initial_condition _ _ _ _ _ E Hopen)
    as (Hset & _ & nq & nqa & nu & vq & vqa & vu & Hq & Hqa & Hu & Hvq & Hvqa & Hvu
        & _ & _ & _ & -> & -> & ->).
  split; [done|].
  vm_compute in Hq, Hqa, Hu. injection Hq as <-. injection Hqa as <-. injection Hu as <-.
  assert (start_vectors !! "start/q" = Some [50; 0; 0]%Q) as Hs by reflexivity.
  assert (start_vectors !! "start/qa" = Some [1%Q]) as Hsa by reflexivity.
  assert (start_vectors !! "start/u" = Some [0; 0]%Q) as Hsu by reflexivity.
  rewrite Hs in Hvq. rewrite Hsa in Hvqa. rewrite Hsu in Hvu.
  injection Hvq as <-. injection Hvqa as <-. injection Hvu as <-.
  by repeat split.
Defined.

Lemma configuration_controls_witness :
  exists c,
    make_Optimal_laptime_configuration limebeer2014f1_all (u_names (Vehicle := toy_f1))
      ∅ (Some speed_options) = Ok c
    /\ Forall supported_control_type (control_type c)
    /\ length (control_type c) = 3%nat.
Proof.
  destruct (make_Optimal_laptime_configuration limebeer2014f1_all
              (u_names (Vehicle := toy_f1)) ∅ (Some speed_options))
    as [c| |] eqn:E; [| vm_compute in E; discriminate..].
  exists c. split; [done|].
  destruct (configuration_controls _ _ _ _ _ E) as (Hf & Hl & _).
  by split.
Defined.

Lemma outputs_are_saved_witness :
  let r := compute_optimal_laptime (Kart := unit) (F1 := unit) (Track := unit) toy_KMH
             (Vehicle0 := toy_f1) (fun _ => mret tt) tt tt 3 [0; 1; 2]%Q
             (Some speed_options) paddock in
  fst r = Ok tt
  /\ exists conf opt,
       In "laptime" (variables_to_save conf)
       /\ saved (integral_quantities_names (Vehicle := toy_f1)) conf opt 3 "laptime" (snd r).
Proof.
  cbv zeta.
  destruct (compute_optimal_laptime (Kart := unit) (F1 := unit) (Track := unit) toy_KMH
              (Vehicle0 := toy_f1) (fun _ => mret tt) tt tt 3 [0; 1; 2]%Q
              (Some speed_options) paddock) as [o t'] eqn:E.
  assert (o = Ok tt) as -> by (vm_compute in E; by injection E as <- _).
  split; [done|].
  edestruct (outputs_are_saved (Kart := unit) (F1 := unit) (Track := unit) toy_KMH
               (Vehicle0 := toy_f1)) as (conf & opt & Hc & _ & Hs); [|exact E|].
  { intros car' t1. split; reflexivity. }
  exists conf, opt.
  assert (In "laptime" (variables_to_save conf)) as Hin.
  { vm_compute in Hc. injection Hc as <-. by left. }
  split; [done | by apply Hs].
Defined.

Lemma solve_leaves_car_evaluated_witness :
  let r := optimal_laptime (Kart_model := toy_kart) (F1_model := logging_f1) toy_KMH
             "car" "catalunya" 3 [0; 1; 2]%Q (Some node_options) logbook in
  fst r = Ok tt
  /\ table_f1_3dof (snd r) = {["car" := [2; 1; 0; 2; 1; 0]%Q]}
  /\ table_kart_6dof (snd r) = ∅.
Proof.
  cbv zeta.
  assert (fst (optimal_laptime (Kart_model := toy_kart) (F1_model := logging_f1) toy_KMH
                 "car" "catalunya" 3 [0; 1; 2]%Q (Some node_options) logbook) = Ok tt)
    as H by (vm_compute; reflexivity).
  split; [exact H|].
  destruct (solve_leaves_car_evaluated toy_KMH logbook "car" "catalunya" 3 [0; 1; 2]%Q
              (Some node_options) H) as [_ Hf1].
  destruct (Hf1 [] eq_refl eq_refl) as (tr & conf & opt & _ & Hc & Ho & -> & ->).
  vm_compute in Hc. injection Hc as <-.
  simpl in Ho. injection Ho as <-.
  split; reflexivity.
Defined.

Lemma second_run_is_refused_witness :
  let r := optimal_laptime (Kart_model := toy_kart) (F1_model := toy_f1) toy_KMH
             "car" "catalunya" 3 [0; 1; 2]%Q (Some speed_options) paddock in
  fst r = Ok tt
  /\ fst (optimal_laptime (Kart_model := toy_kart) (F1_model := toy_f1) toy_KMH
            "car" "catalunya" 3 [0; 1; 2]%Q (Some speed_options) (snd r)) <> Ok tt.
Proof.
  cbv zeta.
  assert (fst (optimal_laptime (Kart_model := toy_kart) (F1_model := toy_f1) toy_KMH
                 "car" "catalunya" 3 [0; 1; 2]%Q (Some speed_options) paddock) = Ok tt)
    as H by (vm_compute; reflexivity).
  split; [exact H|].
  apply (second_run_is_refused toy_KMH paddock "car" "catalunya" "catalunya" 3 3
           [0; 1; 2]%Q [0; 1; 2]%Q (Some speed_options) H).
  left. intros Heq. apply (f_equal (fun m => m !! "run/laptime")) in Heq.
  vm_compute in Heq. discriminate.
Defined.

Lemma open_track_is_rejected_witness :
  let r := circuit_preprocessor toy_open_kml toy_preprocessor toy_track
             open_track_options with_scalar in
  is_ok (fst r) = false /\ snd r = with_scalar.
Proof.
  apply (open_track_is_rejected toy_open_kml toy_preprocessor toy_track
           open_track_options with_scalar).
  reflexivity.
Defined.

Lemma curvature_cost_sets_two_weights_witness :
  exists conf,
    make_Circuit_preprocessor_configuration cost_options = Ok conf
    /\ eps_k conf = 7%Q /\ eps_c conf = 7%Q.
Proof.
  destruct (make_Circuit_preprocessor_configuration cost_options) as [conf| |] eqn:E;
    [| vm_compute in E; discriminate..].
  exists conf. split; [done|].
  apply (curvature_cost_sets_two_weights cost_options conf 7%Q E); reflexivity.
Defined.

End Api_laws.

(** * Further properties of the transcription *)
Module Laptime_laws.

Import Laptime Examples Laptime_facts.

(** ** Loading the decision variables *)

Section Rows.

Variable car : Dynamic_model.
Variable x : list Q.

(** A loop that rewrites row [i] of one work array from position [k + off]
    on and advances [k] by [w]. *)
Lemma fold_rows (proj : FG -> list (list Q)) (js : list nat) (off w : nat)
    (step : nat * FG -> nat -> nat * FG) :
  (forall k fg i, fst (step (k, fg) i) = (k + w)%nat) ->
  (forall k fg i,
     proj (snd (step (k, fg) i))
     = <[i := read_into (row (proj fg) i) js x (k + off)]> (proj fg)) ->
  forall ns k fg, NoDup ns ->
  let r := fold_left step ns (k, fg) in
  length (proj (snd r)) = length (proj fg)
  /\ (forall i, i ∉ ns -> row (proj (snd r)) i = row (proj fg) i)
  /\ (forall p, (p < length ns)%nat -> (nth p ns 0 < length (proj fg))%nat ->
        row (proj (snd r)) (nth p ns 0%nat)
        = read_into (row (proj fg) (nth p ns 0%nat)) js x (k + p * w + off)).
Proof.
  intros Hfst Hproj. induction ns as [|i ns IH]; intros k fg Hnd.
  - simpl. repeat split; try done. intros; simpl in *; lia.
  - apply NoDup_cons in Hnd as [Hi Hnd]. simpl fold_left.
    destruct (step (k, fg) i) as [k' fg'] eqn:E.
    pose proof (Hfst k fg i) as Hk. pose proof (Hproj k fg i) as Hq.
    rewrite E in Hk, Hq; simpl in Hk, Hq.
    destruct (IH k' fg' Hnd) as (H2 & H3 & H4).
    cbv zeta. repeat split.
    + rewrite H2, Hq. apply length_insert.
    + intros j Hj. apply not_elem_of_cons in Hj as [Hne Hj].
      rewrite H3 by done. rewrite Hq. by apply row_insert_ne.
    + intros [|p] Hp Hlen; simpl in *.
      * rewrite H3 by done. rewrite Hq, row_insert_eq by done.
        by rewrite Nat.add_0_r.
      * assert (nth p ns 0%nat ∈ ns) as Hin.
        { apply list_elem_of_In, nth_In. lia. }
        assert (nth p ns 0%nat <> i) as Hne by (intros Heq; by rewrite Heq in Hin).
        rewrite H4; [| lia | rewrite Hq, length_insert; done].
        rewrite Hq, row_insert_ne by done. f_equal. lia.
Qed.

Lemma load_node_qa is_direct k fg i :
  _qa (snd (load_node car x is_direct (k, fg) i))
  = <[i := read_into (row (_qa fg) i) (seq 0 (NALGEBRAIC car)) x
             (k + length (free_states car))]> (_qa fg).
Proof. destruct is_direct; reflexivity. Qed.

Lemma load_node_u is_direct k fg i :
  _u (snd (load_node car x is_direct (k, fg) i))
  = <[i := read_into (row (_u fg) i) (seq 0 (NCONTROL car)) x
             (k + (length (free_states car) + NALGEBRAIC car))]> (_u fg).
Proof. destruct is_direct; simpl; by rewrite Nat.add_assoc. Qed.

End Rows.

Section Loaded.

Variable car : Dynamic_model.
Variable fg_init : nat -> nat -> Q.

Lemma read_into_seq a w x k j :
  (w <= length a)%nat -> (j < w)%nat ->
  at_ (read_into a (seq 0 w) x k) j = at_ x (k + j).
Proof.
  intros Hw Hj.
  replace j with (nth j (seq 0 w) 0%nat) at 1 by (by rewrite seq_nth).
  apply read_into_nth; [apply NoDup_seq | | by rewrite length_seq].
  apply Forall_forall. intros i Hi. apply elem_of_seq in Hi. lia.
Qed.

(** After loading, the algebraic state [j] and the control [j] of node [i]
    are the decision variables that follow the states of the node. *)
Lemma loaded_algebraic is_direct is_closed n q0 qa0 u0 x i j :
  (offset is_closed <= i < n)%nat -> (j < NALGEBRAIC car)%nat ->
  at_ (row (_qa (snd (load car is_direct is_closed n q0 qa0 u0 (new_FG car fg_init n) x))) i) j
  = at_ x ((i - offset is_closed) * variables_per_node car is_direct
           + length (free_states car) + j).
Proof.
  intros Hi Hj. unfold load.
  set (fg0 := if is_closed then new_FG car fg_init n
              else pin_first car is_direct q0 qa0 u0 (new_FG car fg_init n)).
  assert (length (_qa fg0) = n) as Hlen.
  { subst fg0. destruct is_closed; simpl; [|rewrite length_insert]; apply new_rows_length. }
  assert (length (row (_qa fg0) i) = NALGEBRAIC car) as Hrow.
  { subst fg0. destruct is_closed; simpl in *.
    - apply new_rows_row. lia.
    - rewrite row_insert_ne by lia. apply new_rows_row. lia. }
  unfold nodes.
  destruct (fold_rows x _qa (seq 0 (NALGEBRAIC car)) (length (free_states car))
              (variables_per_node car is_direct) (load_node car x is_direct)
              (fun k fg i => load_node_fst car x is_direct k fg i)
              (fun k fg i => load_node_qa car x is_direct k fg i)
              (seq (offset is_closed) (n - offset is_closed)) 0 fg0) as (_ & _ & H);
    [apply NoDup_seq|].
  specialize (H (i - offset is_closed)%nat).
  rewrite length_seq, seq_nth in H by lia.
  replace (offset is_closed + (i - offset is_closed))%nat with i in H by lia.
  rewrite H by lia.
  rewrite read_into_seq by lia. f_equal.
Qed.

Lemma loaded_control is_direct is_closed n q0 qa0 u0 x i j :
  (offset is_closed <= i < n)%nat -> (j < NCONTROL car)%nat ->
  at_ (row (_u (snd (load car is_direct is_closed n q0 qa0 u0 (new_FG car fg_init n) x))) i) j
  = at_ x ((i - offset is_closed) * variables_per_node car is_direct
           + length (free_states car) + NALGEBRAIC car + j).
Proof.
  intros Hi Hj. unfold load.
  set (fg0 := if is_closed then new_FG car fg_init n
              else pin_first car is_direct q0 qa0 u0 (new_FG car fg_init n)).
  assert (length (_u fg0) = n) as Hlen.
  { subst fg0. destruct is_closed; simpl; [|rewrite length_insert]; apply new_rows_length. }
  assert (length (row (_u fg0) i) = NCONTROL car) as Hrow.
  { subst fg0. destruct is_closed; simpl in *.
    - apply new_rows_row. lia.
    - rewrite row_insert_ne by lia. apply new_rows_row. lia. }
  unfold nodes.
  destruct (fold_rows x _u (seq 0 (NCONTROL car))
              (length (free_states car) + NALGEBRAIC car)
              (variables_per_node car is_direct) (load_node car x is_direct)
              (fun k fg i => load_node_fst car x is_direct k fg i)
              (fun k fg i => load_node_u car x is_direct k fg i)
              (seq (offset is_closed) (n - offset is_closed)) 0 fg0) as (_ & _ & H);
    [apply NoDup_seq|].
  specialize (H (i - offset is_closed)%nat).
  rewrite length_seq, seq_nth in H by lia.
  replace (offset is_closed + (i - offset is_closed))%nat with i in H by lia.
  rewrite H by lia.
  rewrite read_into_seq by lia. f_equal. lia.
Qed.

(** On an open track the loading loop leaves node 0 as [pin_first] set it. *)
Lemma loaded_first_node is_direct n q0 qa0 u0 x :
  (0 < n)%nat ->
  let fg := snd (load car is_direct false n q0 qa0 u0 (new_FG car fg_init n) x) in
  row (_q fg) 0 = map (at_ q0) (seq 0 (NSTATE car))
  /\ row (_qa fg) 0 = map (at_ qa0) (seq 0 (NALGEBRAIC car))
  /\ row (_u fg) 0 = map (at_ u0) (seq 0 (NCONTROL car)).
Proof.
  intros Hn. cbv zeta. unfold load, nodes. simpl offset.
  set (fg0 := pin_first car is_direct q0 qa0 u0 (new_FG car fg_init n)).
  assert (0%nat ∉ seq 1 (n - 1)) as Hnot.
  { intros Hin. apply elem_of_seq in Hin. lia. }
  destruct (load_nodes_spec car x is_direct (seq 1 (n - 1)) 0 fg0) as (_ & _ & Hq & _);
    [apply NoDup_seq|].
  destruct (fold_rows x _qa (seq 0 (NALGEBRAIC car)) (length (free_states car))
              (variables_per_node car is_direct) (load_node car x is_direct)
              (fun k fg i => load_node_fst car x is_direct k fg i)
              (fun k fg i => load_node_qa car x is_direct k fg i)
              (seq 1 (n - 1)) 0 fg0) as (_ & Hqa & _); [apply NoDup_seq|].
  destruct (fold_rows x _u (seq 0 (NCONTROL car))
              (length (free_states car) + NALGEBRAIC car)
              (variables_per_node car is_direct) (load_node car x is_direct)
              (fun k fg i => load_node_fst car x is_direct k fg i)
              (fun k fg i => load_node_u car x is_direct k fg i)
              (seq 1 (n - 1)) 0 fg0) as (_ & Hu & _); [apply NoDup_seq|].
  cbv zeta in Hq. rewrite Hq, Hqa, Hu by done.
  subst fg0. simpl.
  rewrite !row_insert_eq by (rewrite new_rows_length; lia). done.
Qed.

End Loaded.

(** ** The layout of the constraints *)

Section Blocks.

Variable car : Dynamic_model.
Variables n_variables n_constraints : nat.

(** Entry [p] of the block that element [i] writes into the constraints. *)
Lemma constraints_element n s is_direct is_closed fg i p :
  (1 <= i < n)%nat -> (p < constraints_per_element car is_direct)%nat ->
  at_ (constraints car n s is_direct is_closed fg)
      ((i - 1) * constraints_per_element car is_direct + p)
  = at_ ((if is_direct then element_direct car s fg else element_derivative car s fg) i) p.
Proof.
  intros Hi Hp. unfold constraints.
  rewrite at_app_l.
  2:{ rewrite (flat_map_uniform_length _ (constraints_per_element car is_direct))
        by (intros; apply element_length).
      rewrite length_seq. nia. }
  rewrite (flat_map_uniform_nth _ (constraints_per_element car is_direct) _ _ _ 0%nat);
    [| intros; apply element_length | rewrite length_seq; lia | done].
  rewrite seq_nth by lia. by replace (1 + (i - 1))%nat with i by lia.
Qed.

(** Entry [p] of the block of the element that closes the lap. *)
Lemma constraints_periodic n s is_direct fg p :
  n <> 0%nat ->
  at_ (constraints car n s is_direct true fg)
      ((n - 1) * constraints_per_element car is_direct + p)
  = at_ (if is_direct then periodic_direct car n s fg else periodic_derivative car n s fg) p.
Proof.
  intros Hn. unfold constraints.
  rewrite at_app_r.
  2:{ rewrite (flat_map_uniform_length _ (constraints_per_element car is_direct))
        by (intros; apply element_length).
      rewrite length_seq. lia. }
  rewrite (flat_map_uniform_length _ (constraints_per_element car is_direct))
    by (intros; apply element_length).
  rewrite length_seq. f_equal. lia.
Qed.

(** Entry [p] of block [b] of the constraint bounds. *)
Lemma bounds_block this is_direct is_closed bounds b p :
  assemble car n_variables n_constraints this is_direct is_closed = Ok bounds ->
  length (c_node car is_direct (c_extra_lb car)) = constraints_per_element car is_direct ->
  (b < length (nodes is_closed (n_points this)))%nat ->
  (p < constraints_per_element car is_direct)%nat ->
  at_ (c_lb bounds) (b * constraints_per_element car is_direct + p)
  = at_ (c_node car is_direct (c_extra_lb car)) p
  /\ at_ (c_ub bounds) (b * constraints_per_element car is_direct + p)
     = at_ (c_node car is_direct (c_extra_ub car)) p.
Proof.
  intros Ha Hsize Hb Hp.
  apply assemble_Ok in Ha as (_ & _ & _ & -> & -> & _ & _).
  assert (length (c_node car is_direct (c_extra_ub car))
          = constraints_per_element car is_direct) as Hsize'.
  { rewrite <- Hsize. by rewrite !c_node_length. }
  split.
  - by rewrite (flat_map_uniform_nth _ (constraints_per_element car is_direct) _ _ _ 0%nat).
  - by rewrite (flat_map_uniform_nth _ (constraints_per_element car is_direct) _ _ _ 0%nat).
Qed.

Lemma at_repeat_zero n p : at_ (repeat 0%Q n) p = 0%Q.
Proof.
  apply at_zeros. apply Forall_forall. intros v Hv.
  apply list_elem_of_In, repeat_spec in Hv. done.
Qed.

Hypothesis IN_after_ITIME : S (ITIME car) = IN car.
Hypothesis IN_in_range : (IN car < NSTATE car)%nat.

(** The bounds of one block, by kind of constraint. *)
Lemma c_node_algebraic is_direct extra j :
  (j < NALGEBRAIC car)%nat ->
  at_ (c_node car is_direct extra) (length (free_states car) + j) = 0%Q.
Proof.
  intros Hj. unfold c_node.
  rewrite at_app_r by (rewrite state_block_free_length by done; lia).
  rewrite state_block_free_length by done.
  rewrite at_app_l by (rewrite repeat_length; lia).
  apply at_repeat_zero.
Qed.

Lemma c_node_extra is_direct extra j :
  (j < N_OL_EXTRA_CONSTRAINTS car)%nat ->
  at_ (c_node car is_direct extra) (length (free_states car) + NALGEBRAIC car + j)
  = at_ extra j.
Proof.
  intros Hj. unfold c_node.
  rewrite at_app_r by (rewrite state_block_free_length by done; lia).
  rewrite state_block_free_length by done.
  rewrite at_app_r by (rewrite repeat_length; lia).
  rewrite repeat_length.
  rewrite at_app_l by (rewrite length_map, length_seq; lia).
  replace (length (free_states car) + NALGEBRAIC car + j - length (free_states car)
           - NALGEBRAIC car)%nat with j by lia.
  rewrite (at_map _ _ _ 0%nat) by (rewrite length_seq; lia).
  by rewrite seq_nth.
Qed.

Lemma c_node_control extra j :
  at_ (c_node car false extra)
      (length (free_states car) + NALGEBRAIC car + N_OL_EXTRA_CONSTRAINTS car + j)
  = 0%Q.
Proof.
  unfold c_node.
  rewrite at_app_r by (rewrite state_block_free_length by done; lia).
  rewrite state_block_free_length by done.
  rewrite at_app_r by (rewrite repeat_length; lia).
  rewrite repeat_length.
  rewrite at_app_r by (rewrite length_map, length_seq; lia).
  apply at_repeat_zero.
Qed.

Lemma c_node_state is_direct extra j :
  (j < NSTATE car)%nat -> j <> ITIME car ->
  at_ (c_node car is_direct extra) (position car j) = 0%Q.
Proof.
  intros Hj Hne. unfold c_node.
  rewrite at_app_l
    by (rewrite state_block_free_length by done; by apply free_states_position).
  apply at_zeros. by apply state_block_zeros.
Qed.

End Blocks.

Section Constraints.

Variable car : Dynamic_model.
Variables n_variables n_constraints : nat.

Lemma evaluated_dqa n s fg i :
  (i < n)%nat ->
  row (_dqa (evaluate car n s fg)) i
  = snd (equations car (row (_q fg) i) (row (_qa fg) i) (row (_u fg) i) (at_ s i)).
Proof.
  intros H. unfold evaluate. simpl. unfold row at 1.
  rewrite map_map.
  rewrite (nth_indep _ [] (snd (equations car (row (_q fg) 0) (row (_qa fg) 0)
                                  (row (_u fg) 0) (at_ s 0))))
    by (rewrite length_map, length_seq; lia).
  rewrite (map_nth (fun i => snd (equations car (row (_q fg) i) (row (_qa fg) i)
                                    (row (_u fg) i) (at_ s i))) (seq 0 n) 0%nat i).
  by rewrite seq_nth.
Qed.

(** X22. The constraints of element [i] that follow the defects. In either
    mode, the entry of [fg] at the index of the algebraic equation [j] is
    entry [j] of the algebraic residual of the car equations at the state,
    algebraic state and control of node [i] and at arclength [s_i], with
    both bounds zero; the entry at the index of the extra constraint [j] is
    entry [j] of what the car reports after that same call (its extra
    constraints in direct mode, its six tire slips in derivative mode),
    with the model bounds [c_extra_lb[j]] and [c_extra_ub[j]]. *)
Theorem algebraic_and_extra_constraints this is_direct is_closed dissipations bounds
    fg x fgv fg' i :
  assemble car n_variables n_constraints this is_direct is_closed = Ok bounds ->
  call car n_variables n_constraints this is_direct is_closed dissipations fg x
    = Ok (fgv, fg') ->
  (1 <= i < n_points this)%nat ->
  (forall j, (j < NALGEBRAIC car)%nat ->
     at_ fgv (S (algebraic_constraint_index car is_direct i j))
     = at_ (snd (equations car (row (_q fg') i) (row (_qa fg') i) (row (_u fg') i)
                   (at_ (s this) i))) j
     /\ at_ (c_lb bounds) (algebraic_constraint_index car is_direct i j) = 0%Q
     /\ at_ (c_ub bounds) (algebraic_constraint_index car is_direct i j) = 0%Q)
  /\ (forall j, (j < N_OL_EXTRA_CONSTRAINTS car)%nat ->
        at_ fgv (S (extra_constraint_index car is_direct i j))
        = at_ ((if is_direct then optimal_laptime_extra_constraints car
                else tire_slips car)
                 (row (_q fg') i) (row (_qa fg') i) (row (_u fg') i) (at_ (s this) i)) j
        /\ at_ (c_lb bounds) (extra_constraint_index car is_direct i j)
           = at_ (c_extra_lb car) j
        /\ at_ (c_ub bounds) (extra_constraint_index car is_direct i j)
           = at_ (c_extra_ub car) j).
Proof.
  intros Ha Hc Hi.
  destruct (asserts_layout car n_variables n_constraints this is_direct is_closed
              dissipations bounds fg x fgv fg' Ha Hc) as (HIN & Hrange & Hsize);
    [destruct is_closed; simpl; lia|].
  pose proof Hsize as Hsize'. rewrite c_node_length in Hsize'.
  unfold constraints_per_element in Hsize'. rewrite free_states_length in Hsize'.
  assert (i - 1 < length (nodes is_closed (n_points this)))%nat as Hb
    by (rewrite nodes_length; destruct is_closed; simpl; lia).
  apply call_Ok in Hc as (Hn0 & _ & Hfg & -> & _). cbv zeta in Hfg.
  split.
  - intros j Hj.
    assert (length (free_states car) + j < constraints_per_element car is_direct)%nat
      as Hp by (unfold constraints_per_element; lia).
    unfold algebraic_constraint_index. rewrite <- !Nat.add_assoc.
    destruct (bounds_block car n_variables n_constraints this is_direct is_closed bounds
                (i - 1) (length (free_states car) + j) Ha Hsize Hb Hp) as [-> ->].
    rewrite !c_node_algebraic by done.
    repeat split.
    change (at_ (?o :: ?c) (S ?k)) with (at_ c k).
    rewrite constraints_element by (done || lia).
    assert (row (_dqa fg') i
            = snd (equations car (row (_q fg') i) (row (_qa fg') i) (row (_u fg') i)
                     (at_ (s this) i))) as <-.
    { rewrite Hfg. rewrite evaluated_dqa by lia. reflexivity. }
    destruct is_direct; unfold element_direct, element_derivative;
      rewrite at_app_r by (rewrite length_map; lia);
      rewrite length_map;
      rewrite at_app_l by (rewrite length_map, length_seq; lia);
      rewrite (at_map _ _ _ 0%nat) by (rewrite length_seq; lia);
      rewrite seq_nth by lia; f_equal; lia.
  - intros j Hj.
    assert (length (free_states car) + (NALGEBRAIC car + j)
            < constraints_per_element car is_direct)%nat
      as Hp by (unfold constraints_per_element; destruct is_direct; lia).
    unfold extra_constraint_index. rewrite <- !Nat.add_assoc.
    destruct (bounds_block car n_variables n_constraints this is_direct is_closed bounds
                (i - 1) (length (free_states car) + (NALGEBRAIC car + j)) Ha Hsize Hb Hp)
      as [-> ->].
    rewrite !Nat.add_assoc. rewrite !c_node_extra by done.
    repeat split.
    change (at_ (?o :: ?c) (S ?k)) with (at_ c k).
    rewrite <- !Nat.add_assoc.
    rewrite constraints_element by (done || lia).
    destruct is_direct; unfold element_direct, element_derivative;
      rewrite at_app_r by (rewrite length_map; lia);
      rewrite length_map;
      rewrite at_app_r by (rewrite length_map, length_seq; lia);
      rewrite length_map, length_seq;
      rewrite ?at_app_l by (rewrite length_map, length_seq; lia);
      rewrite (at_map _ _ _ 0%nat) by (rewrite length_seq; lia);
      rewrite seq_nth by lia;
      unfold extra_constraints_at, tire_slips_at; f_equal; lia.
Qed.

End Constraints.

Section Periodicity.

Variable car : Dynamic_model.
Variable fg_init : nat -> nat -> Q.
Variables n_variables n_constraints : nat.

(** X23. In derivative mode, the entry of [fg] at the index of the control
    equation [j] of element [i] is
    [u_i[j] - u_{i-1}[j] - 0.5 (s_i - s_{i-1})
     (dudt_{i-1}[j] dtimeds_{i-1} + dudt_i[j] dtimeds_i)],
    where [u_k] and [dudt_k] are the control and the control derivative of
    node [k] in the work arrays and [dtimeds_k] is the [ITIME] entry of the
    car equations at node [k] and arclength [s_k]; both bounds of that
    constraint are zero. *)
Theorem control_equations this is_closed dissipations bounds fg x fgv fg' i j :
  assemble car n_variables n_constraints this false is_closed = Ok bounds ->
  call car n_variables n_constraints this false is_closed dissipations fg x
    = Ok (fgv, fg') ->
  (1 <= i < n_points this)%nat -> (j < NCONTROL car)%nat ->
  let dtimeds k :=
    at_ (fst (equations car (row (_q fg') k) (row (_qa fg') k) (row (_u fg') k)
                (at_ (s this) k))) (ITIME car) in
  at_ fgv (S (control_constraint_index car i j))
  = (at_ (row (_u fg') i) j - at_ (row (_u fg') (i - 1)) j
     - (1 # 2) * (at_ (s this) i - at_ (s this) (i - 1))
       * (at_ (row (_dudt fg') (i - 1)) j * dtimeds (i - 1)%nat
          + at_ (row (_dudt fg') i) j * dtimeds i))%Q
  /\ at_ (c_lb bounds) (control_constraint_index car i j) = 0%Q
  /\ at_ (c_ub bounds) (control_constraint_index car i j) = 0%Q.
Proof.
  intros Ha Hc Hi Hj dtimeds.
  assert (forall k, (k < n_points this)%nat ->
            at_ (row (_dqdt fg') k) (ITIME car) = dtimeds k) as Hrows.
  { intros k Hk. pose proof Hc as Hc'.
    apply call_Ok in Hc' as (_ & _ & Hfg & _). cbv zeta in Hfg.
    unfold dtimeds. rewrite Hfg. rewrite evaluated_dqdt by done. reflexivity. }
  rewrite <- !Hrows by lia. clear Hrows dtimeds.
  change (at_ fgv (S (control_constraint_index car i j))
          = control_defect car (s this) fg' i j
          /\ at_ (c_lb bounds) (control_constraint_index car i j) = 0%Q
          /\ at_ (c_ub bounds) (control_constraint_index car i j) = 0%Q).
  destruct (asserts_layout car n_variables n_constraints this false is_closed
              dissipations bounds fg x fgv fg' Ha Hc) as (HIN & Hrange & Hsize);
    [destruct is_closed; simpl; lia|].
  pose proof Hsize as Hsize'. rewrite c_node_length in Hsize'.
  unfold constraints_per_element in Hsize'. rewrite free_states_length in Hsize'.
  assert (N_OL_EXTRA_CONSTRAINTS car = 6%nat) as Hsix by lia.
  assert (i - 1 < length (nodes is_closed (n_points this)))%nat as Hb
    by (rewrite nodes_length; destruct is_closed; simpl; lia).
  apply call_Ok in Hc as (Hn0 & _ & Hfg & -> & _).
  assert (length (free_states car) + (NALGEBRAIC car + (6 + j))
          < constraints_per_element car false)%nat
    as Hp by (unfold constraints_per_element; lia).
  unfold control_constraint_index. rewrite <- !Nat.add_assoc.
  destruct (bounds_block car n_variables n_constraints this false is_closed bounds
              (i - 1) (length (free_states car) + (NALGEBRAIC car + (6 + j)))
              Ha Hsize Hb Hp) as [-> ->].
  rewrite !Nat.add_assoc. rewrite <- Hsix. rewrite !c_node_control by done.
  repeat split.
  change (at_ (?o :: ?c) (S ?k)) with (at_ c k).
  rewrite Hsix. rewrite <- !Nat.add_assoc.
  rewrite constraints_element by (done || lia).
  unfold element_derivative.
  rewrite at_app_r by (rewrite length_map; lia). rewrite length_map.
  rewrite at_app_r by (rewrite length_map, length_seq; lia).
  rewrite length_map, length_seq.
  rewrite at_app_r by (rewrite length_map, length_seq; lia).
  rewrite length_map, length_seq.
  rewrite (at_map _ _ _ 0%nat) by (rewrite length_seq; lia).
  rewrite seq_nth by lia. f_equal. lia.
Qed.

(** X24. On a closed track, in either mode, the block that follows those
    of the [n_points - 1] elements holds, for every state [j] other than
    the time, the defect of the element from the last node back to the
    first one, of length [L - s.back()]:
    [q_0[j] - q_last[j] - 0.5 (L - s.back()) (dqds_last[j] + dqds_0[j])],
    where [dqds_k] is the first component of the car equations at node [k]
    and arclength [s_k]; both bounds are zero. *)
Theorem closure_constraints this is_direct dissipations bounds fg x fgv fg' j :
  assemble car n_variables n_constraints this is_direct true = Ok bounds ->
  call car n_variables n_constraints this is_direct true dissipations fg x
    = Ok (fgv, fg') ->
  (j < NSTATE car)%nat -> j <> ITIME car ->
  let dqds k :=
    fst (equations car (row (_q fg') k) (row (_qa fg') k) (row (_u fg') k)
           (at_ (s this) k)) in
  let last_node := (n_points this - 1)%nat in
  at_ fgv (S (periodic_constraint_index car is_direct (n_points this) j))
  = (at_ (row (_q fg') 0) j - at_ (row (_q fg') last_node) j
     - (1 # 2) * (track_length car - List.last (s this) 0)
       * (at_ (dqds last_node) j + at_ (dqds 0%nat) j))%Q
  /\ at_ (c_lb bounds) (periodic_constraint_index car is_direct (n_points this) j) = 0%Q
  /\ at_ (c_ub bounds) (periodic_constraint_index car is_direct (n_points this) j) = 0%Q.
Proof.
  intros Ha Hc Hj Hne dqds last_node.
  assert (forall k, (k < n_points this)%nat -> row (_dqdt fg') k = dqds k) as Hrows.
  { intros k Hk. pose proof Hc as Hc'.
    apply call_Ok in Hc' as (_ & _ & Hfg & _). cbv zeta in Hfg.
    unfold dqds. rewrite Hfg. rewrite evaluated_dqdt by done. reflexivity. }
  assert (n_points this <> 0%nat) as Hnz.
  { pose proof Hc as Hc'. by apply call_Ok in Hc' as (? & _). }
  rewrite <- !Hrows by (unfold last_node; lia). clear Hrows dqds. subst last_node.
  change (at_ fgv (S (periodic_constraint_index car is_direct (n_points this) j))
          = periodic_defect car (n_points this) (s this) fg' j
          /\ at_ (c_lb bounds) (periodic_constraint_index car is_direct (n_points this) j)
             = 0%Q
          /\ at_ (c_ub bounds) (periodic_constraint_index car is_direct (n_points this) j)
             = 0%Q).
  pose proof Hc as Hc'. apply call_Ok in Hc' as (Hn0 & _ & Hfg & -> & _).
  destruct (asserts_layout car n_variables n_constraints this is_direct true
              dissipations bounds fg x _ fg' Ha Hc) as (HIN & Hrange & Hsize);
    [simpl; lia|].
  destruct (free_states_position car j Hj Hne) as [Hpos Hnth].
  assert (position car j < constraints_per_element car is_direct)%nat as Hp
    by (unfold constraints_per_element; lia).
  assert (n_points this - 1 < length (nodes true (n_points this)))%nat as Hb
    by (rewrite nodes_length; simpl; lia).
  unfold periodic_constraint_index.
  destruct (bounds_block car n_variables n_constraints this is_direct true bounds
              (n_points this - 1) (position car j) Ha Hsize Hb Hp) as [-> ->].
  rewrite !c_node_state by done.
  repeat split.
  change (at_ (?o :: ?c) (S ?k)) with (at_ c k).
  rewrite constraints_periodic by done.
  destruct is_direct; unfold periodic_direct, periodic_derivative;
    rewrite at_app_l by (by rewrite length_map);
    rewrite (at_map _ _ _ 0%nat) by done; by rewrite Hnth.
Qed.

(** The initial point *)
Lemma assemble_x0 this is_direct is_closed bounds :
  assemble car n_variables n_constraints this is_direct is_closed = Ok bounds ->
  x0 bounds = flat_map (x0_node car this is_direct) (nodes is_closed (n_points this))
  /\ length (x0 bounds) = length (x_lb bounds)
  /\ length (x_ub bounds) = length (x_lb bounds)
  /\ length (c_ub bounds) = length (c_lb bounds).
Proof.
  unfold assemble. cbv zeta. simpl.
  repeat case_decide; try discriminate. intros [= <-]. simpl.
  split; [done|].
  assert (forall k, length (x0_node car this is_direct k)
                    = length (x_lb_node car this is_direct k)) as Hx0.
  { intros k. rewrite x_lb_node_length. unfold x0_node.
    rewrite !length_app, state_block_length, !length_map, !length_seq.
    destruct is_direct; simpl; [lia|]. rewrite repeat_length. lia. }
  assert (forall k, length (x_ub_node car this is_direct k)
                    = length (x_lb_node car this is_direct k)) as Hxu.
  { intros k. by rewrite x_ub_node_length, x_lb_node_length. }
  repeat split.
  - rewrite !(flat_map_uniform_length _ _ _ (x_lb_node_length car this is_direct)).
    rewrite (flat_map_uniform_length _
               (ITIME car + S (NSTATE car - S (IN car)) + NALGEBRAIC car + NCONTROL car
                + (if is_direct then 0 else NCONTROL car))%nat); [done|].
    intros k. rewrite Hx0. apply x_lb_node_length.
  - rewrite !(flat_map_uniform_length _ _ _ (x_lb_node_length car this is_direct)).
    by rewrite !(flat_map_uniform_length _ _ _ (x_ub_node_length car this is_direct)).
  - rewrite !(flat_map_uniform_length _ _ _
                (fun _ => c_node_length car is_direct (c_extra_lb car))).
    by rewrite !(flat_map_uniform_length _ _ _
                   (fun _ => c_node_length car is_direct (c_extra_ub car))).
Qed.

End Periodicity.

(** ** The initial point and the initial condition *)

Section Seeding.

Variable car : Dynamic_model.
Variable fg_init : nat -> nat -> Q.
Variables n_variables n_constraints : nat.

(** The five vectors handed to the solver agree in size with the counts of
    the function object. *)
Lemma problem_sizes this is_direct is_closed bounds :
  assemble car n_variables n_constraints this is_direct is_closed = Ok bounds ->
  length (x0 bounds) = n_variables /\ length (x_lb bounds) = n_variables
  /\ length (x_ub bounds) = n_variables
  /\ length (c_lb bounds) = n_constraints /\ length (c_ub bounds) = n_constraints
  /\ n_variables
     = (length (nodes is_closed (n_points this))
        * (ITIME car + S (NSTATE car - S (IN car)) + NALGEBRAIC car + NCONTROL car
           + (if is_direct then 0 else NCONTROL car)))%nat.
Proof.
  intros Ha. pose proof Ha as Ha'.
  apply assemble_x0 in Ha' as (_ & H0 & Hu & Hc).
  apply assemble_Ok in Ha as (_ & Hxl & _ & _ & _ & Hnx & Hnc).
  repeat split; try congruence.
  rewrite <- Hnx, Hxl.
  apply (flat_map_uniform_length _ _ _ (x_lb_node_length car this is_direct)).
Qed.

Lemma x0_node_length this is_direct i :
  S (ITIME car) = IN car -> (IN car < NSTATE car)%nat ->
  length (x0_node car this is_direct i) = variables_per_node car is_direct.
Proof.
  intros HIN Hrange. unfold x0_node, variables_per_node.
  rewrite !length_app, state_block_length, !length_map, !length_seq, free_states_length.
  destruct is_direct; simpl; [lia|]. rewrite repeat_length. lia.
Qed.

(** X25. The initial point reproduces the initial trajectory. When the
    function object is evaluated on fresh work arrays at the vector [x0]
    that [assemble] built, every node that carries decision variables gets
    back the states (the time apart), the algebraic states and the controls
    of the object: [_q[i][j] = q[i][j]], [_qa[i][j] = qa[i][j]] and
    [_u[i][j] = u[i][j]]. *)
Theorem initial_point_round_trip this is_direct is_closed dissipations bounds fgv fg' i :
  assemble car n_variables n_constraints this is_direct is_closed = Ok bounds ->
  call car n_variables n_constraints this is_direct is_closed dissipations
    (new_FG car fg_init (n_points this)) (x0 bounds) = Ok (fgv, fg') ->
  (offset is_closed <= i < n_points this)%nat ->
  (forall j, (j < NSTATE car)%nat -> j <> ITIME car ->
     at_ (row (_q fg') i) j = at_ (row (q this) i) j)
  /\ (forall j, (j < NALGEBRAIC car)%nat ->
        at_ (row (_qa fg') i) j = at_ (row (qa this) i) j)
  /\ (forall j, (j < NCONTROL car)%nat ->
        at_ (row (_u fg') i) j = at_ (row (u this) i) j).
Proof.
  intros Ha Hc Hi.
  destruct (asserts_layout car n_variables n_constraints this is_direct is_closed
              dissipations bounds _ _ fgv fg' Ha Hc) as (HIN & Hrange & _); [lia|].
  apply assemble_x0 in Ha as (Hx0 & _).
  apply call_Ok in Hc as (Hn0 & _ & Hfg & _). cbv zeta in Hfg.
  assert (forall p, (p < variables_per_node car is_direct)%nat ->
            at_ (x0 bounds) ((i - offset is_closed) * variables_per_node car is_direct + p)
            = at_ (x0_node car this is_direct i) p) as Hblock.
  { intros p Hp. rewrite Hx0.
    rewrite (flat_map_uniform_nth _ (variables_per_node car is_direct) _ _ _ 0%nat);
      [| intros; by apply x0_node_length | rewrite nodes_length; lia | done].
    unfold nodes. rewrite seq_nth by lia.
    by replace (offset is_closed + (i - offset is_closed))%nat with i by lia. }
  rewrite Hfg. simpl. repeat split.
  - intros j Hj Hne.
    rewrite loaded_state by (lia || done).
    destruct (free_states_position car j Hj Hne) as [Hpos _].
    rewrite Hblock by (unfold variables_per_node; lia).
    unfold x0_node. rewrite at_app_l by (by rewrite state_block_free_length).
    rewrite state_block_at by done. by case_decide; subst.
  - intros j Hj.
    rewrite loaded_algebraic by done. rewrite <- Nat.add_assoc.
    rewrite Hblock by (unfold variables_per_node; lia).
    unfold x0_node.
    rewrite at_app_r by (rewrite state_block_free_length by done; lia).
    rewrite state_block_free_length by done.
    rewrite at_app_l by (rewrite length_map, length_seq; lia).
    rewrite (at_map _ _ _ 0%nat) by (rewrite length_seq; lia).
    rewrite seq_nth by lia. f_equal. lia.
  - intros j Hj.
    rewrite loaded_control by done. rewrite <- !Nat.add_assoc.
    rewrite Hblock by (unfold variables_per_node; lia).
    unfold x0_node.
    rewrite at_app_r by (rewrite state_block_free_length by done; lia).
    rewrite state_block_free_length by done.
    rewrite at_app_r by (rewrite length_map, length_seq; lia).
    rewrite length_map, length_seq.
    rewrite at_app_l by (rewrite length_map, length_seq; lia).
    rewrite (at_map _ _ _ 0%nat) by (rewrite length_seq; lia).
    rewrite seq_nth by lia. f_equal. lia.
Qed.

End Seeding.

Section Open.

Variable car : Dynamic_model.
Variable fg_init : nat -> nat -> Q.
Variables n_variables n_constraints : nat.
Variable ipopt_solve : problem -> solve_result.

Lemma recover_keeps_first_row this fg m : forall q0 d,
  row (fst (fold_left (recover_step car this fg) (seq 1 m) (q0, d))) 0 = row q0 0.
Proof.
  induction m as [|m IH]; intros q0 d; [done|].
  rewrite seq_S, fold_left_app. simpl fold_left.
  specialize (IH q0 d).
  destruct (fold_left (recover_step car this fg) (seq 1 m) (q0, d)) as [q1 d1].
  simpl in *. by rewrite row_insert_ne by lia.
Qed.

Lemma map_at_map (a : list Q) w :
  map (at_ (map (at_ a) (seq 0 w))) (seq 0 w) = map (at_ a) (seq 0 w).
Proof.
  apply map_ext_in. intros j Hj. apply in_seq in Hj.
  rewrite at_map_seq by lia. done.
Qed.

(** X26. On an open track, a solve that returns leaves node 0 as it was
    given: the exported state (time included), algebraic state and control
    of node 0 are those of node 0 of the object the solve was run on,
    whatever point the solver returned. *)
Theorem open_track_starts_at_initial_condition this level is_direct dissipations r :
  compute car fg_init n_variables n_constraints ipopt_solve this level false is_direct
    dissipations = Ok r ->
  row (q r) 0 = map (at_ (row (q this) 0)) (seq 0 (NSTATE car))
  /\ row (qa r) 0 = map (at_ (row (qa this) 0)) (seq 0 (NALGEBRAIC car))
  /\ row (u r) 0 = map (at_ (row (u this) 0)) (seq 0 (NCONTROL car)).
Proof.
  intros Hc.
  destruct (compute_Ok _ _ _ _ _ _ _ _ _ _ _ Hc)
    as (bounds & fgv & fg & Ha & _ & Hcall & _ & Hf).
  apply call_Ok in Hcall as (Hn0 & _ & Hfg & _). cbv zeta in Hfg.
  apply finish_Ok in Hf as (_ & _ & -> & -> & -> & _).
  destruct (loaded_first_node car fg_init is_direct (n_points this) (row (q this) 0)
              (row (qa this) 0) (row (u this) 0)
              (x (solver_result car fg_init n_variables n_constraints ipopt_solve this level
                    is_direct false dissipations bounds))) as (Hq & Hqa & Hu); [lia|].
  cbv zeta in Hq, Hqa, Hu.
  unfold recover_time. rewrite recover_keeps_first_row.
  rewrite !export_row by lia.
  rewrite Hfg. simpl. rewrite Hq, Hqa, Hu. by rewrite !map_at_map.
Qed.

End Open.

(** ** Sums *)

Lemma fold_plus_shift {A : Type} (g : A -> Q) l : forall a,
  (fold_left (fun acc x => acc + g x) l a
   == a + fold_left (fun acc x => acc + g x) l 0)%Q.
Proof.
  induction l as [|x l IH]; intros a; simpl.
  - ring.
  - rewrite (IH (a + g x)%Q), (IH (0 + g x)%Q). ring.
Qed.

Lemma fold_fold_plus_shift {A B : Type} (p : A -> B -> Q) (cs : list B) l : forall a,
  (fold_left (fun acc i => fold_left (fun acc j => acc + p i j) cs acc) l a
   == a + fold_left (fun acc i => fold_left (fun acc j => acc + p i j) cs acc) l 0)%Q.
Proof.
  induction l as [|i l IH]; intros a; simpl.
  - ring.
  - rewrite (IH (fold_left _ cs a)), (IH (fold_left _ cs 0%Q)).
    rewrite (fold_plus_shift (p i) cs a). ring.
Qed.

Lemma last_nth {A : Type} (l : list A) d : List.last l d = nth (length l - 1) l d.
Proof.
  induction l as [|a l IH]; [done|].
  destruct l as [|b l]; [done|].
  change (List.last (a :: b :: l) d) with (List.last (b :: l) d).
  rewrite IH. simpl. by rewrite Nat.sub_0_r.
Qed.

Section Objective.

Variable car : Dynamic_model.

(** The objective is the time integral plus the penalties of the controls. *)
Lemma objective_splits n s dissipations is_direct is_closed fg :
  (objective car n s dissipations is_direct is_closed fg
   == fold_left (fun acc i => acc + time_element car s fg i) (seq 1 (n - 1)) 0
      + (if is_closed then periodic_time_element car n s fg else 0)
      + penalties car n s dissipations is_direct is_closed fg)%Q.
Proof.
  unfold objective, penalties. cbv zeta.
  set (f0 := fold_left (fun acc i => (acc + time_element car s fg i)%Q) (seq 1 (n - 1)) 0%Q).
  set (p := fun i j => if is_direct then penalty_direct s dissipations fg i j
                       else penalty_derivative s dissipations fg i j).
  set (pp := fun j => if is_direct then periodic_penalty_direct car n s dissipations fg j
                      else periodic_penalty_derivative car s dissipations fg j).
  change (fun acc i =>
            fold_left
              (fun acc0 j =>
                 (acc0 + (if is_direct then penalty_direct s dissipations fg i j
                          else penalty_derivative s dissipations fg i j))%Q)
              (seq 0 (NCONTROL car)) acc)
    with (fun acc i => fold_left (fun acc0 j => (acc0 + p i j)%Q) (seq 0 (NCONTROL car)) acc).
  change (fun acc j =>
            (acc + (if is_direct then periodic_penalty_direct car n s dissipations fg j
                    else periodic_penalty_derivative car s dissipations fg j))%Q)
    with (fun acc j => (acc + pp j)%Q).
  destruct is_closed.
  - rewrite (fold_plus_shift pp _ (_ + _)).
    rewrite (fold_plus_shift pp _ (fold_left _ _ 0%Q)).
    rewrite (fold_fold_plus_shift p _ _ f0). ring.
  - rewrite (fold_fold_plus_shift p _ _ f0). ring.
Qed.

End Objective.

Section Lap_time.

Variable car : Dynamic_model.
Variable fg_init : nat -> nat -> Q.
Variables n_variables n_constraints : nat.
Variable ipopt_solve : problem -> solve_result.

#[local] Abbreviation compute := (compute car fg_init n_variables n_constraints ipopt_solve).
#[local] Abbreviation solved := (solved car fg_init n_variables n_constraints ipopt_solve).

Lemma recover_length this fg ns : forall q0 d,
  length (fst (fold_left (recover_step car this fg) ns (q0, d))) = length q0.
Proof.
  induction ns as [|i ns IH]; intros q0 d; [done|].
  simpl. rewrite IH. apply length_insert.
Qed.

(** The derivative of the time used by the post-processing is the one the
    function object left in its work arrays, at every node but node 0 and
    also there when the mesh starts at arclength 0. *)
Lemma dtimeds_dqdt this fg0 i :
  (i < n_points this)%nat -> i <> 0%nat \/ at_ (s this) 0 = 0%Q ->
  dtimeds car this (evaluate car (n_points this) (s this) fg0) i
  = at_ (row (_dqdt (evaluate car (n_points this) (s this) fg0)) i) (ITIME car).
Proof.
  intros Hi H0. rewrite evaluated_dqdt by done. unfold dtimeds. simpl.
  destruct i as [|i]; [|done].
  destruct H0 as [H0 | ->]; [done | done].
Qed.

(** What a returning solve left, in one place. *)
Lemma solve_Ok this level is_closed is_direct dissipations r fg :
  compute this level is_closed is_direct dissipations = Ok r ->
  solved this level is_direct is_closed dissipations = Ok fg ->
  n_points this <> 0%nat
  /\ (exists fg0, fg = evaluate car (n_points this) (s this) fg0)
  /\ length (_q fg) = n_points this
  /\ q r = fst (recover_time car this fg (export this (_q fg) (NSTATE car)))
  /\ length (q r) = n_points this
  /\ ((offset is_closed < n_points this)%nat -> (ITIME car < NSTATE car)%nat)
  /\ (if is_closed then
        laptime r
        = (at_ (List.last (q r) []) (ITIME car)
           + closing_term is_direct (track_length car) (List.last (s this) 0)
               (dtimeds car this fg (n_points this - 1)) (dtimeds car this fg 0))%Q
      else laptime r = at_ (List.last (q r) []) (ITIME car)).
Proof.
  intros Hc Hs.
  destruct (compute_Ok _ _ _ _ _ _ _ _ _ _ _ Hc)
    as (bounds & fgv & fg1 & Ha & _ & Hcall & Hs' & Hf).
  rewrite Hs in Hs'. injection Hs' as <-.
  pose proof Hcall as Hcall'. apply call_Ok in Hcall' as (Hn0 & _ & Hfg & _).
  pose proof Hf as Hf'. apply finish_Ok in Hf' as (Hlen & _ & Hq & _ & _ & Hlap).
  split; [done|]. split; [by eexists|]. split; [done|]. split; [done|].
  split.
  { rewrite Hq. unfold recover_time. rewrite recover_length. apply export_length. }
  split.
  { intros Hoff.
    destruct (asserts_layout car n_variables n_constraints this is_direct is_closed
                dissipations bounds _ _ fgv fg Ha Hcall Hoff) as (HIN & Hrange & _). lia. }
  destruct is_closed; [|done].
  by apply (closed_laptime car fg_init n_variables n_constraints ipopt_solve this level
              is_direct dissipations r fg).
Qed.

(** The elapsed time of node [i] is the time of node 0 plus the time
    elements up to [i]. *)
Lemma elapsed_time_sum this level is_closed is_direct dissipations r fg :
  compute this level is_closed is_direct dissipations = Ok r ->
  solved this level is_direct is_closed dissipations = Ok fg ->
  at_ (s this) 0 = 0%Q ->
  forall i, (i < n_points this)%nat ->
  (at_ (row (q r) i) (ITIME car)
   == at_ (row (q r) 0) (ITIME car)
      + fold_left (fun acc k => acc + time_element car (s this) fg k) (seq 1 i) 0)%Q.
Proof.
  intros Hc Hs H0.
  destruct (solve_Ok _ _ _ _ _ _ _ Hc Hs)
    as (Hn0 & [fg0 Hfg] & Hlen & Hq & _ & Hrange & _).
  induction i as [|i IH]; intros Hi.
  - simpl. ring.
  - assert (ITIME car < NSTATE car)%nat as HT
      by (apply Hrange; destruct is_closed; simpl; lia).
    rewrite seq_S, fold_left_app. simpl fold_left.
    destruct (recover_steps car this fg (export this (_q fg) (NSTATE car))
                (n_points this - 1)) as (_ & _ & _ & _ & _ & Hrec).
    { rewrite export_length. lia. }
    { intros k Hk. rewrite export_length in Hk. rewrite export_row by done.
      rewrite length_map, length_seq. lia. }
    cbv zeta in Hrec. unfold recover_time in Hq. rewrite Hlen in Hq. rewrite <- Hq in Hrec.
    rewrite Hrec by lia.
    replace (S i - 1)%nat with i by lia.
    rewrite IH by lia.
    unfold time_element. replace (S i - 1)%nat with i by lia.
    rewrite Hfg, !dtimeds_dqdt by (lia || (destruct i; auto)).
    ring.
Qed.

(** X27. The lap time that is reported is the time that was minimised. In
    derivative mode, and on open tracks in either mode, when the mesh
    starts at arclength 0, the lap time of a solve that returns and the
    objective [fg[0]] at the solver's final point differ by the time at
    node 0 and the penalties of the controls:
    [laptime + penalties = q_0[ITIME] + objective]. *)
Theorem laptime_is_minimised_time this level is_closed is_direct dissipations r fg :
  compute this level is_closed is_direct dissipations = Ok r ->
  solved this level is_direct is_closed dissipations = Ok fg ->
  at_ (s this) 0 = 0%Q ->
  (is_closed = true -> is_direct = false) ->
  (laptime r + penalties car (n_points this) (s this) dissipations is_direct is_closed fg
   == at_ (row (q r) 0) (ITIME car)
      + objective car (n_points this) (s this) dissipations is_direct is_closed fg)%Q.
Proof.
  intros Hc Hs H0 Hmode.
  destruct (solve_Ok _ _ _ _ _ _ _ Hc Hs)
    as (Hn0 & [fg0 Hfg] & Hlen & Hq & Hlenq & Hrange & Hlap).
  pose proof (elapsed_time_sum _ _ _ _ _ _ _ Hc Hs H0 (n_points this - 1)) as Hsum.
  rewrite objective_splits.
  assert (List.last (q r) [] = row (q r) (n_points this - 1)) as Hlast.
  { rewrite last_nth, Hlenq. reflexivity. }
  rewrite Hlast in Hlap.
  destruct is_closed.
  - rewrite (Hmode eq_refl) in *. rewrite Hlap. unfold closing_term.
    rewrite Hsum by lia. unfold periodic_time_element.
    rewrite Hfg, !dtimeds_dqdt by (lia || auto). ring.
  - rewrite Hlap. rewrite Hsum by lia. ring.
Qed.

End Lap_time.

(** ** The constructors *)

Section Constructors.

Variable car : Dynamic_model.
Variable fg_init : nat -> nat -> Q.
Variables n_variables n_constraints : nat.
Variable ipopt_solve : problem -> solve_result.

#[local] Abbreviation compute := (compute car fg_init n_variables n_constraints ipopt_solve).
#[local] Abbreviation solved := (solved car fg_init n_variables n_constraints ipopt_solve).
#[local] Abbreviation Optimal_laptime_n :=
  (Optimal_laptime_n car fg_init n_variables n_constraints ipopt_solve).
#[local] Abbreviation Optimal_laptime_s :=
  (Optimal_laptime_s car fg_init n_variables n_constraints ipopt_solve).
#[local] Abbreviation Optimal_laptime_warm :=
  (Optimal_laptime_warm car fg_init n_variables n_constraints ipopt_solve).

(** A solve keeps the mesh and the counts of the object it was run on. *)
Lemma compute_keeps_mesh this level is_closed is_direct dissipations r :
  compute this level is_closed is_direct dissipations = Ok r ->
  n_elements r = n_elements this /\ n_points r = n_points this /\ s r = s this.
Proof.
  intros Hc.
  destruct (compute_Ok _ _ _ _ _ _ _ _ _ _ _ Hc) as (_ & _ & fg & _ & _ & _ & _ & Hf).
  revert Hf. unfold finish. case_decide; [discriminate|].
  destruct (recover_time _ _ _ _) as [q' d].
  destruct is_closed.
  - destruct (back (s this)); simpl; try discriminate. by intros [= <-].
  - simpl. by intros [= <-].
Qed.

(** X28. The mesh of the constructor from the number of elements [n]: [n]
    nodes on a closed track and [n + 1] on an open one, node 0 at
    arclength 0 and node [i] at [i * (L / n)], except that the last node of
    an open track is at [L] itself. *)
Theorem uniform_mesh n is_closed is_direct q0 qa0 u0 dissipations level r :
  Optimal_laptime_n n is_closed is_direct q0 qa0 u0 dissipations level = Ok r ->
  n_elements r = n /\ n_points r = (if is_closed then n else S n)
  /\ length (s r) = n_points r
  /\ forall i, (i < n_points r)%nat ->
       at_ (s r) i
       = if negb is_closed && (i =? n)%nat then track_length car
         else match i with
              | O => 0%Q
              | S _ => (inject_Z (Z.of_nat i)
                        * (track_length car / inject_Z (Z.of_nat n)))%Q
              end.
Proof.
  unfold Laptime.Optimal_laptime_n. cbv zeta. intros Hc.
  apply compute_keeps_mesh in Hc as (-> & -> & ->). simpl.
  split; [done|]. split; [done|].
  set (np := if is_closed then n else S n).
  set (mesh := map (fun i => match i with
                             | O => 0%Q
                             | S _ => (inject_Z (Z.of_nat i)
                                       * (track_length car / inject_Z (Z.of_nat n)))%Q
                             end) (seq 0 np)).
  assert (length mesh = np) as Hlen by (subst mesh; by rewrite length_map, length_seq).
  assert (forall i, (i < np)%nat ->
            at_ mesh i = match i with
                         | O => 0%Q
                         | S _ => (inject_Z (Z.of_nat i)
                                   * (track_length car / inject_Z (Z.of_nat n)))%Q
                         end) as Hat.
  { intros i Hi. subst mesh. by rewrite at_map_seq. }
  destruct is_closed; simpl.
  - split; [done|]. intros i Hi. by apply Hat.
  - split; [by rewrite length_insert|]. intros i Hi.
    subst np. rewrite Nat.sub_0_r.
    destruct (Nat.eqb_spec i n) as [->|Hne].
    + rewrite at_insert_eq by lia. done.
    + rewrite at_insert_ne by done. by apply Hat.
Qed.

Lemma verify_arclength_Ok s_ is_closed :
  verify_arclength car s_ is_closed = Ok tt ->
  (2 <= length s_)%nat
  /\ (if is_closed
      then (Qabs (at_ s_ 0) <= 1 # 1000000000000
            /\ List.last s_ 0 <= track_length car - (1 # 10000000000))%Q
      else (- (1 # 1000000000000) <= at_ s_ 0 /\ List.last s_ 0 <= track_length car)%Q).
Proof.
  unfold verify_arclength. cbv zeta.
  case_decide; [discriminate|].
  destruct is_closed.
  - destruct (Qlt_le_dec _ _); [discriminate|].
    destruct (Qlt_le_dec _ _); [discriminate|]. intros _. split; [lia | by split].
  - destruct (Qlt_le_dec _ _); [discriminate|].
    destruct (Qlt_le_dec _ _); [discriminate|]. intros _. split; [lia | by split].
Qed.

Lemma last_insert_last (l : list Q) v :
  l <> [] -> List.last (<[(length l - 1)%nat := v]> l) 0%Q = v.
Proof.
  intros Hne. rewrite last_nth, length_insert.
  change (nth ?k ?a 0%Q) with (at_ a k).
  apply at_insert_eq. destruct l; [done | simpl; lia].
Qed.

(** X29. The constructor from an arclength vector and one initial state,
    on a closed track: it returns only if the vector has two entries or
    more, starts within [1e-12] of 0 and ends at most at [L - 1e-10]; the
    first and the last arclength are then replaced by [0] and [L], so that
    the element that closes the lap has length zero and, in either mode,
    the lap time is the time of the last node. *)
Theorem closed_vector_mesh s_ is_direct q0 qa0 u0 dissipations level r :
  Optimal_laptime_s s_ true is_direct q0 qa0 u0 dissipations level = Ok r ->
  (2 <= length s_)%nat
  /\ (Qabs (at_ s_ 0) <= 1 # 1000000000000)%Q
  /\ (List.last s_ 0 <= track_length car - (1 # 10000000000))%Q
  /\ n_points r = length s_ /\ n_elements r = length s_
  /\ s r = <[(length s_ - 1)%nat := track_length car]> (<[0%nat := 0%Q]> s_)
  /\ List.last (s r) 0%Q = track_length car
  /\ (laptime r == at_ (List.last (q r) []) (ITIME car))%Q.
Proof.
  unfold Laptime.Optimal_laptime_s. cbv zeta.
  unfold mbind, outcome_bind, bind.
  destruct (verify_arclength car s_ true) as [[]| |] eqn:Ev; try discriminate.
  apply verify_arclength_Ok in Ev as (Hlen & Hfirst & Hlast).
  intros Hc. pose proof Hc as Hc'.
  apply compute_keeps_mesh in Hc' as (He & Hn & Hs). simpl in He, Hn, Hs.
  assert (List.last (s r) 0%Q = track_length car) as Hback.
  { rewrite Hs. rewrite <- (length_insert s_ 0 0%Q) at 1.
    apply last_insert_last. destruct s_; simpl in *; [lia | done]. }
  repeat split; try done.
  destruct (compute_Ok _ _ _ _ _ _ _ _ _ _ _ Hc)
    as (_ & _ & fg & _ & _ & _ & Hsolved & _).
  rewrite (closed_laptime _ _ _ _ _ _ _ _ _ _ _ Hc Hsolved). simpl s.
  rewrite <- Hs, Hback. unfold closing_term. destruct is_direct; ring.
Qed.

(** X30. The constructor from an arclength vector and one initial state
    per node returns only if the vector has two entries or more and passes
    the checks of its ends, and if [q0], [qa0] and [u0] have one entry per
    node; the mesh is the given vector, with its first entry replaced by
    [0] on a closed track and its last entry kept. *)
Theorem warm_start_is_validated s_ is_closed is_direct q0 qa0 u0 dissipations level r :
  Optimal_laptime_warm s_ is_closed is_direct q0 qa0 u0 dissipations level = Ok r ->
  (2 <= length s_)%nat
  /\ length q0 = length s_ /\ length qa0 = length s_ /\ length u0 = length s_
  /\ n_points r = length s_
  /\ n_elements r = (if is_closed then length s_ else (length s_ - 1)%nat)
  /\ s r = (if is_closed then <[0%nat := 0%Q]> s_ else s_)
  /\ (if is_closed
      then (Qabs (at_ s_ 0) <= 1 # 1000000000000
            /\ List.last s_ 0 <= track_length car - (1 # 10000000000))%Q
      else (- (1 # 1000000000000) <= at_ s_ 0 /\ List.last s_ 0 <= track_length car)%Q).
Proof.
  unfold Laptime.Optimal_laptime_warm. cbv zeta.
  unfold mbind, outcome_bind, bind.
  destruct (verify_arclength car s_ is_closed) as [[]| |] eqn:Ev; try discriminate.
  apply verify_arclength_Ok in Ev as (Hlen & Hv).
  repeat (case_decide; [discriminate|]).
  intros Hc. apply compute_keeps_mesh in Hc as (He & Hn & Hs). simpl in He, Hn, Hs.
  repeat split; try done; lia.
Qed.

End Constructors.

(** ** The properties above on the three-node problem *)

Lemma algebraic_and_extra_constraints_witness :
  at_ (fst direct_call) (S (algebraic_constraint_index toy_car true 2 0))
  = at_ (snd (equations toy_car (row (_q (snd direct_call)) 2)
                (row (_qa (snd direct_call)) 2) (row (_u (snd direct_call)) 2)
                (at_ (s three_nodes) 2))) 0
  /\ at_ (fst direct_call) (S (extra_constraint_index toy_car true 2 5))
     = at_ (optimal_laptime_extra_constraints toy_car (row (_q (snd direct_call)) 2)
              (row (_qa (snd direct_call)) 2) (row (_u (snd direct_call)) 2)
              (at_ (s three_nodes) 2)) 5
  /\ at_ (c_lb direct_bounds) (extra_constraint_index toy_car true 2 5)
     = at_ (c_extra_lb toy_car) 5.
Proof.
  assert (assemble toy_car 12 27 three_nodes true true = Ok direct_bounds) as H1
    by (vm_compute; reflexivity).
  assert (call toy_car 12 27 three_nodes true true toy_dissipations
            (new_FG toy_car zero_init 3) (x0 direct_bounds)
          = Ok (fst direct_call, snd direct_call)) as H2 by (vm_compute; reflexivity).
  destruct (algebraic_and_extra_constraints toy_car 12 27 three_nodes true true
              toy_dissipations direct_bounds (new_FG toy_car zero_init 3) (x0 direct_bounds)
              (fst direct_call) (snd direct_call) 2 H1 H2) as [Ha He].
  - simpl; lia.
  - destruct (Ha 0%nat) as (A & _ & _); [simpl; lia|].
    destruct (He 5%nat) as (C & B & _); [simpl; lia|].
    split; [exact A|]. split; [exact C | exact B].
Defined.

Lemma control_equations_witness :
  at_ (fst derivative_call) (S (control_constraint_index toy_car 1 0))
  = (at_ (row (_u (snd derivative_call)) 1) 0 - at_ (row (_u (snd derivative_call)) (1 - 1)) 0
     - (1 # 2) * (at_ (s three_nodes) 1 - at_ (s three_nodes) (1 - 1))
       * (at_ (row (_dudt (snd derivative_call)) (1 - 1)) 0
          * at_ (fst (equations toy_car (row (_q (snd derivative_call)) (1 - 1))
                        (row (_qa (snd derivative_call)) (1 - 1))
                        (row (_u (snd derivative_call)) (1 - 1))
                        (at_ (s three_nodes) (1 - 1)))) (ITIME toy_car)
          + at_ (row (_dudt (snd derivative_call)) 1) 0
            * at_ (fst (equations toy_car (row (_q (snd derivative_call)) 1)
                          (row (_qa (snd derivative_call)) 1)
                          (row (_u (snd derivative_call)) 1)
                          (at_ (s three_nodes) 1))) (ITIME toy_car)))%Q
  /\ at_ (c_lb derivative_bounds) (control_constraint_index toy_car 1 0) = 0%Q
  /\ at_ (c_ub derivative_bounds) (control_constraint_index toy_car 1 0) = 0%Q.
Proof.
  assert (assemble toy_car 15 30 three_nodes false true = Ok derivative_bounds) as H1
    by (vm_compute; reflexivity).
  assert (call toy_car 15 30 three_nodes false true toy_dissipations
            (new_FG toy_car zero_init 3) (x0 derivative_bounds)
          = Ok (fst derivative_call, snd derivative_call)) as H2
    by (vm_compute; reflexivity).
  apply (control_equations toy_car 15 30 three_nodes true toy_dissipations
           derivative_bounds (new_FG toy_car zero_init 3) (x0 derivative_bounds)
           (fst derivative_call) (snd derivative_call) 1 0 H1 H2); simpl; lia.
Defined.

Lemma closure_constraints_witness :
  at_ (fst direct_call) (S (periodic_constraint_index toy_car true 3 2))
  = (at_ (row (_q (snd direct_call)) 0) 2 - at_ (row (_q (snd direct_call)) (3 - 1)) 2
     - (1 # 2) * (track_length toy_car - List.last (s three_nodes) 0)
       * (at_ (fst (equations toy_car (row (_q (snd direct_call)) (3 - 1))
                      (row (_qa (snd direct_call)) (3 - 1))
                      (row (_u (snd direct_call)) (3 - 1))
                      (at_ (s three_nodes) (3 - 1)))) 2
          + at_ (fst (equations toy_car (row (_q (snd direct_call)) 0)
                        (row (_qa (snd direct_call)) 0)
                        (row (_u (snd direct_call)) 0)
                        (at_ (s three_nodes) 0))) 2))%Q
  /\ at_ (c_lb direct_bounds) (periodic_constraint_index toy_car true 3 2) = 0%Q
  /\ at_ (c_ub direct_bounds) (periodic_constraint_index toy_car true 3 2) = 0%Q.
Proof.
  assert (assemble toy_car 12 27 three_nodes true true = Ok direct_bounds) as H1
    by (vm_compute; reflexivity).
  assert (call toy_car 12 27 three_nodes true true toy_dissipations
            (new_FG toy_car zero_init 3) (x0 direct_bounds)
          = Ok (fst direct_call, snd direct_call)) as H2 by (vm_compute; reflexivity).
  apply (closure_constraints toy_car 12 27 three_nodes true toy_dissipations
           direct_bounds (new_FG toy_car zero_init 3) (x0 direct_bounds)
           (fst direct_call) (snd direct_call) 2 H1 H2).
  - simpl; lia.
  - discriminate.
Defined.

Lemma initial_point_round_trip_witness :
  at_ (row (_q (snd direct_call)) 1) 2 = at_ (row (q three_nodes) 1) 2
  /\ at_ (row (_qa (snd direct_call)) 1) 0 = at_ (row (qa three_nodes) 1) 0
  /\ at_ (row (_u (snd direct_call)) 1) 0 = at_ (row (u three_nodes) 1) 0.
Proof.
  assert (assemble toy_car 12 27 three_nodes true true = Ok direct_bounds) as H1
    by (vm_compute; reflexivity).
  assert (call toy_car 12 27 three_nodes true true toy_dissipations
            (new_FG toy_car zero_init 3) (x0 direct_bounds)
          = Ok (fst direct_call, snd direct_call)) as H2 by (vm_compute; reflexivity).
  destruct (initial_point_round_trip toy_car zero_init 12 27 three_nodes true true
              toy_dissipations direct_bounds (fst direct_call) (snd direct_call) 1 H1 H2)
    as (Hq & Hqa & Hu).
  - simpl; lia.
  - split; [apply Hq; [simpl; lia | discriminate]|].
    split; [apply Hqa | apply Hu]; simpl; lia.
Defined.

Lemma open_track_starts_at_initial_condition_witness :
  exists r,
    compute toy_car zero_init 4 9 (echo_solver success) two_nodes_open 0 false true
      toy_dissipations = Ok r
    /\ row (q r) 0 = [1; 0; 0]%Q /\ row (qa r) 0 = [1%Q] /\ row (u r) 0 = [0%Q].
Proof.
  destruct (compute toy_car zero_init 4 9 (echo_solver success) two_nodes_open 0 false true
              toy_dissipations) as [r| |] eqn:E; [| vm_compute in E; discriminate..].
  exists r. split; [done|].
  destruct (open_track_starts_at_initial_condition toy_car zero_init 4 9
              (echo_solver success) two_nodes_open 0 true toy_dissipations r E)
    as (-> & -> & ->).
  repeat split; reflexivity.
Defined.

Lemma laptime_is_minimised_time_witness :
  (laptime derivative_run
   + penalties toy_car 3 (s three_nodes) toy_dissipations false true derivative_solved
   == at_ (row (q derivative_run) 0) (ITIME toy_car)
      + objective toy_car 3 (s three_nodes) toy_dissipations false true derivative_solved)%Q.
Proof.
  assert (compute toy_car zero_init 15 30 (echo_solver success) three_nodes 0 true false
            toy_dissipations = Ok derivative_run) as H1 by (vm_compute; reflexivity).
  assert (solved toy_car zero_init 15 30 (echo_solver success) three_nodes 0 false true
            toy_dissipations = Ok derivative_solved) as H2 by (vm_compute; reflexivity).
  exact (laptime_is_minimised_time toy_car zero_init 15 30 (echo_solver success)
           three_nodes 0 true false toy_dissipations derivative_run derivative_solved
           H1 H2 eq_refl (fun _ => eq_refl)).
Defined.

Lemma uniform_mesh_witness :
  exists r,
    Optimal_laptime_n toy_car zero_init 12 27 (echo_solver success) 3 true true
      [1; 0; 0]%Q [1%Q] [0%Q] toy_dissipations 0 = Ok r
    /\ n_points r = 3%nat
    /\ at_ (s r) 2
       = (inject_Z (Z.of_nat 2) * (track_length toy_car / inject_Z (Z.of_nat 3)))%Q.
Proof.
  destruct (Optimal_laptime_n toy_car zero_init 12 27 (echo_solver success) 3 true true
              [1; 0; 0]%Q [1%Q] [0%Q] toy_dissipations 0) as [r| |] eqn:E;
    [| vm_compute in E; discriminate..].
  exists r. split; [done|].
  destruct (uniform_mesh toy_car zero_init 12 27 (echo_solver success) 3 true true
              [1; 0; 0]%Q [1%Q] [0%Q] toy_dissipations 0 r E) as (_ & Hn & _ & Hs).
  split; [exact Hn|]. apply (Hs 2%nat). rewrite Hn. lia.
Defined.

Lemma closed_vector_mesh_witness :
  exists r,
    Optimal_laptime_s toy_car zero_init 12 27 (echo_solver success) [0; 2; 4]%Q true true
      [1; 0; 0]%Q [1%Q] [0%Q] toy_dissipations 0 = Ok r
    /\ List.last (s r) 0%Q = track_length toy_car
    /\ (laptime r == at_ (List.last (q r) []) (ITIME toy_car))%Q.
Proof.
  destruct (Optimal_laptime_s toy_car zero_init 12 27 (echo_solver success) [0; 2; 4]%Q
              true true [1; 0; 0]%Q [1%Q] [0%Q] toy_dissipations 0) as [r| |] eqn:E;
    [| vm_compute in E; discriminate..].
  exists r. split; [done|].
  destruct (closed_vector_mesh toy_car zero_init 12 27 (echo_solver success) [0; 2; 4]%Q
              true [1; 0; 0]%Q [1%Q] [0%Q] toy_dissipations 0 r E)
    as (_ & _ & _ & _ & _ & _ & Hb & Hl).
  by split.
Defined.

Lemma warm_start_is_validated_witness :
  length (q three_nodes) = length (s three_nodes)
  /\ n_points direct_run = length (s three_nodes)
  /\ s direct_run = <[0%nat := 0%Q]> (s three_nodes).
Proof.
  assert (Optimal_laptime_warm toy_car zero_init 12 27 (echo_solver success)
            (s three_nodes) true true (q three_nodes) (qa three_nodes) (u three_nodes)
            toy_dissipations 0 = Ok direct_run) as H by (vm_compute; reflexivity).
  destruct (warm_start_is_validated toy_car zero_init 12 27 (echo_solver success)
              (s three_nodes) true true (q three_nodes) (qa three_nodes) (u three_nodes)
              toy_dissipations 0 direct_run H) as (_ & Hq & _ & _ & Hn & _ & Hs & _).
  by repeat split.
Defined.

End Laptime_laws.
